(** * YC company-page scraper (challenge-2/utils.ts): model and properties

    A shallow embedding of the extraction pipeline of [challenge-2/utils.ts]:
    the JavaScript values and string primitives the extractors use, the
    parsed document as Cheerio presents it (a tree of elements queried by
    CSS selectors), the extractors themselves, the launch-page scraper, the
    CSV event stream of [parseCompanyList] and [scrapeCompanyPages].

    JavaScript strings are modelled as [string]: each character is one code
    unit in the range 0..255.  Number values that the code produces are
    NaN, integers that a double holds, or infinities; they are modelled by
    [number]. *)

From stdpp Require Import gmap strings list pretty.
From Stdlib Require Import ZArith Lia Ascii.

Local Open Scope string_scope.
Local Open Scope list_scope.
Local Open Scope nat_scope.
Set Warnings "-register-all".

(* ===================================================================== *)
(** ** JavaScript values                                                  *)
(* ===================================================================== *)

Module JS.

(** Number values, as far as this code meets them: [NaN], an integer that
    a double holds, or an infinity.  [Int 0] stands for both zeros, which
    the code never tells apart: it tests a number with [isNaN] and for
    truthiness only, and [JSON.stringify] writes both as [0]. *)
Inductive number :=
  | NaN
  | Int (z : Z)
  | Infinity (negative : bool).

(** The primitive values stored in the fields of the scraped records. *)
Inductive value :=
  | undefined
  | null
  | Num (n : number)
  | Str (s : string).

#[global] Instance number_eq_dec : EqDecision number.
Proof. solve_decision. Defined.

#[global] Instance value_eq_dec : EqDecision value.
Proof. solve_decision. Defined.

Definition isNaN (n : number) : bool :=
  match n with NaN => true | Int _ | Infinity _ => false end.

(** The Number value of the integer [z]: the double nearest to it, the
    even one of two that are equally near, and an infinity when that
    double would be 2^1024 or beyond.  The integers below 2^53 are
    doubles. *)
Definition to_double (z : Z) : number :=
  (let a := Z.abs z in
   if a <? 2 ^ 53 then Int z
   else
     let ulp := 2 ^ (Z.log2 a - 52) in
     let q := a / ulp in
     let r := a mod ulp in
     let q' := if 2 * r <? ulp then q
               else if ulp <? 2 * r then q + 1
               else if Z.even q then q else q + 1 in
     if 2 ^ 1024 <=? q' * ulp then Infinity (z <? 0)
     else Int (Z.sgn z * (q' * ulp)))%Z.

(** ToBoolean *)
Definition truthy (v : value) : bool :=
  match v with
  | undefined | null => false
  | Num NaN => false
  | Num (Int z) => negb (z =? 0)%Z
  | Num (Infinity _) => true
  | Str s => negb (String.eqb s "")
  end.

(** [a || b] *)
Definition or_else (a b : value) : value := if truthy a then a else b.

(** ToString; it is also how a value used as an object key is turned into
    the property name.  The code applies it to strings and to [undefined]
    only; an integer is written by its decimal digits, as JavaScript
    writes it below 10^21. *)
Definition to_string (v : value) : string :=
  match v with
  | undefined => "undefined"
  | null => "null"
  | Str s => s
  | Num NaN => "NaN"
  | Num (Int z) =>
      match z with
      | Z0 => "0"
      | Zpos p => pretty (N.pos p)
      | Zneg p => "-" +:+ pretty (N.pos p)
      end
  | Num (Infinity negative) => if negative then "-Infinity" else "Infinity"
  end.

(** What a thrown exception (or a rejected promise) carries. *)
Inductive error :=
  | RangeError      (* Date.prototype.toISOString on an invalid date *)
  | TypeError       (* new URL on an unparseable input, property of undefined *)
  | NetworkError.   (* a rejected axios request *)

(** The outcome of running code that may throw. *)
Inductive result (A : Type) :=
  | Ok (a : A)
  | Throw (e : error).
Arguments Ok {A} a.
Arguments Throw {A} e.

Definition bind {A B} (r : result A) (k : A → result B) : result B :=
  match r with
  | Ok a => k a
  | Throw e => Throw e
  end.

(** Run [f] on each element in order; the first exception aborts the loop. *)
Fixpoint mapM {A B} (f : A → result B) (l : list A) : result (list B) :=
  match l with
  | [] => Ok []
  | x :: l' =>
      bind (f x) (fun y => bind (mapM f l') (fun ys => Ok (y :: ys)))
  end.

(* --------------------------------------------------------------------- *)
(** *** String primitives                                                 *)
(* --------------------------------------------------------------------- *)

Definition code (c : ascii) : N := Ascii.N_of_ascii c.

(** WhiteSpace and LineTerminator code units below 256: TAB, LF, VT, FF,
    CR, SPACE and NBSP.  [trim] and [parseInt] skip exactly these. *)
Definition is_ws (c : ascii) : bool :=
  existsb (N.eqb (code c)) [9; 10; 11; 12; 13; 32; 160]%N.

(** [\d] *)
Definition is_digit (c : ascii) : bool :=
  (48 <=? code c)%N && (code c <=? 57)%N.

Fixpoint trimStart (s : string) : string :=
  match s with
  | "" => ""
  | String c r => if is_ws c then trimStart r else s
  end.

Fixpoint trimEnd (s : string) : string :=
  match s with
  | "" => ""
  | String c r =>
      let r' := trimEnd r in
      if is_ws c && String.eqb r' "" then "" else String c r'
  end.

(** [s.trim()] *)
Definition trim (s : string) : string := trimEnd (trimStart s).

(** [s.includes(sub)] *)
Fixpoint includes (sub s : string) : bool :=
  String.prefix sub s
  || match s with
     | "" => false
     | String _ r => includes sub r
     end.

(** The scan of [s.split(sep)] for a non-empty [sep]: [skip] counts the
    code units of a matched separator still to be passed over, [cur] holds
    the current piece, most recent code unit first. *)
Fixpoint split_scan (sep s : string) (skip : nat) (cur : list ascii)
  : list string :=
  match s with
  | "" => [String.string_of_list_ascii (rev cur)]
  | String c r =>
      match skip with
      | S k => split_scan sep r k cur
      | O =>
          if String.prefix sep s
          then String.string_of_list_ascii (rev cur)
               :: split_scan sep r (String.length sep - 1) []
          else split_scan sep r 0 (c :: cur)
      end
  end.

(** [s.split(sep)] *)
Definition split (sep s : string) : list string :=
  if String.eqb sep ""
  then map (fun c => String c "") (String.list_ascii_of_string s)
  else split_scan sep s 0 [].

Definition lower_char (c : ascii) : ascii :=
  let n := code c in
  if ((65 <=? n) && (n <=? 90)
      || (192 <=? n) && (n <=? 222) && negb (n =? 215))%N
  then Ascii.ascii_of_N (n + 32)
  else c.

(** [s.toLowerCase()] *)
Fixpoint toLowerCase (s : string) : string :=
  match s with
  | "" => ""
  | String c r => String (lower_char c) (toLowerCase r)
  end.

(** [s.replace(/\D/g, "")] *)
Fixpoint strip_non_digits (s : string) : string :=
  match s with
  | "" => ""
  | String c r =>
      if is_digit c then String c (strip_non_digits r) else strip_non_digits r
  end.

(** The longest prefix of decimal digits, read as a number; [None] when
    the prefix is empty. *)
Fixpoint leading_digits (s : string) (acc : option Z) : option Z :=
  match s with
  | "" => acc
  | String c r =>
      if is_digit c
      then leading_digits r
             (Some (10 * default 0%Z acc + (Z.of_N (code c) - 48))%Z)
      else acc
  end.

(** [parseInt(s, 10)]: skip leading white space, read an optional sign,
    then the longest prefix of decimal digits; NaN when there is none, and
    otherwise the Number value of the integer read.  The digits are all
    taken into account, as V8 does; the language lets an engine read the
    digits after the twentieth as zeros. *)
Definition parseInt (s : string) : number :=
  let s1 := trimStart s in
  let '(sign, s2) :=
    match s1 with
    | String "-" r => ((-1)%Z, r)
    | String "+" r => (1%Z, r)
    | _ => (1%Z, s1)
    end in
  match leading_digits s2 None with
  | Some n => to_double (sign * n)
  | None => NaN
  end.

(** [l.join(sep)] *)
Fixpoint join (sep : string) (l : list string) : string :=
  match l with
  | [] => ""
  | [x] => x
  | x :: l' => x +:+ sep +:+ join sep l'
  end.

(** [[...new Set(l)]]: a Set keeps each value once, at the place of its
    first insertion. *)
Definition set_add (seen : list string) (x : string) : list string :=
  if bool_decide (x ∈ seen) then seen else seen ++ [x].

Definition set_to_array (l : list string) : list string :=
  fold_left set_add l [].

End JS.
Import JS.

(* ===================================================================== *)
(** ** The parsed document and the Cheerio operations                     *)
(* ===================================================================== *)

Module Dom.

(** A parsed HTML document: text nodes and elements. *)
Inductive node :=
  | Text (data : string)
  | Element (name : string) (attribs : list (string * string))
            (children : list node).

(** The place of a node in the document: the child indices from the node
    up to the root, innermost first.  [[]] is the root element. *)
Definition loc := list nat.

Definition is_element (n : node) : bool :=
  match n with Element _ _ _ => true | Text _ => false end.

Definition child_nodes (n : node) : list node :=
  match n with Element _ _ cs => cs | Text _ => [] end.

Fixpoint textContent (n : node) : string :=
  match n with
  | Text d => d
  | Element _ _ cs => String.concat "" (List.map textContent cs)
  end.

Fixpoint assoc (k : string) (l : list (string * string)) : option string :=
  match l with
  | [] => None
  | (k', v) :: l' => if String.eqb k k' then Some v else assoc k l'
  end.

Definition attribute (n : node) (a : string) : option string :=
  match n with
  | Element _ as_ _ => assoc a as_
  | Text _ => None
  end.

(** Walk from [n] down the indices [p], outermost first. *)
Fixpoint descend (n : node) (p : list nat) : option node :=
  match p with
  | [] => Some n
  | i :: p' =>
      match child_nodes n !! i with
      | Some c => descend c p'
      | None => None
      end
  end.

Definition get_node (root : node) (p : loc) : option node :=
  descend root (rev p).

(** Every element of the subtree of [n], in document order; [here] is the
    place of [n] itself. *)
Fixpoint elem_locs_from (here : loc) (n : node) : list loc :=
  match n with
  | Text _ => []
  | Element _ _ cs =>
      here ::
      (fix go (i : nat) (l : list node) : list loc :=
         match l with
         | [] => []
         | c :: l' => elem_locs_from (i :: here) c ++ go (S i) l'
         end) 0 cs
  end.

Definition elem_locs (root : node) : list loc := elem_locs_from [] root.

Definition siblings (root : node) (p : loc) : list node :=
  match p with
  | [] => []
  | _ :: q =>
      match get_node root q with
      | Some parent => child_nodes parent
      | None => []
      end
  end.

Definition elements_before (root : node) (p : loc) : nat :=
  match p with
  | [] => 0
  | i :: _ => length (List.filter is_element (take i (siblings root p)))
  end.

Definition elements_after (root : node) (p : loc) : nat :=
  match p with
  | [] => 0
  | i :: _ => length (List.filter is_element (drop (S i) (siblings root p)))
  end.

Definition element_at (sibs : list node) (j : nat) : bool :=
  match sibs !! j with
  | Some n => is_element n
  | None => false
  end.

Definition prev_element (root : node) (p : loc) : option loc :=
  match p with
  | [] => None
  | i :: q =>
      match rev (List.filter (element_at (siblings root p)) (seq 0 i)) with
      | j :: _ => Some (j :: q)
      | [] => None
      end
  end.

Definition next_element (root : node) (p : loc) : option loc :=
  match p with
  | [] => None
  | i :: q =>
      let sibs := siblings root p in
      match List.filter (element_at sibs) (seq (S i) (length sibs - S i)) with
      | j :: _ => Some (j :: q)
      | [] => None
      end
  end.

(** The proper ancestors of a place, nearest first. *)
Fixpoint ancestors (p : loc) : list loc :=
  match p with
  | [] => []
  | _ :: q => q :: ancestors q
  end.

(* --------------------------------------------------------------------- *)
(** *** CSS selectors (the fragment the scraper uses)                     *)
(* --------------------------------------------------------------------- *)

Inductive simple :=
  | Tag (t : string)            (* div *)
  | Class (c : string)          (* .c *)
  | Id (i : string)             (* #i *)
  | Contains (s : string)       (* :contains("s") *)
  | NotAttr (a : string)        (* :not([a]) *)
  | FirstChild                  (* :first-child *)
  | LastChild                   (* :last-child *)
  | NthChild (k : nat)          (* :nth-child(k) *)
  | Scope.                      (* :scope, the context element of [find] *)

Inductive combinator :=
  | Descendant    (* a b *)
  | Child         (* a > b *)
  | Adjacent.     (* a + b *)

(** A complex selector, rightmost compound outermost. *)
Inductive selector :=
  | Compound (c : list simple)
  | Combine (left : selector) (k : combinator) (c : list simple).

(** The white-space separated words of a [class] attribute. *)
Fixpoint words_scan (s : string) (cur : list ascii) : list string :=
  let flush rest :=
    match cur with
    | [] => rest
    | _ => String.string_of_list_ascii (rev cur) :: rest
    end in
  match s with
  | "" => flush []
  | String c r =>
      if is_ws c then flush (words_scan r []) else words_scan r (c :: cur)
  end.

Definition class_list (n : node) : list string :=
  match attribute n "class" with
  | Some v => words_scan v []
  | None => []
  end.

Definition match_simple (root : node) (p : loc) (n : node) (s : simple)
  : bool :=
  match s with
  | Tag t => match n with Element t' _ _ => String.eqb t t' | _ => false end
  | Class c => existsb (String.eqb c) (class_list n)
  | Id i => match attribute n "id" with
            | Some v => String.eqb i v
            | None => false
            end
  | Contains s => includes s (textContent n)
  | NotAttr a => match attribute n a with Some _ => false | None => true end
  | FirstChild => Nat.eqb (elements_before root p) 0
  | LastChild => Nat.eqb (elements_after root p) 0
  | NthChild k => Nat.eqb (S (elements_before root p)) k
  | Scope => match p with [] => true | _ => false end
  end.

Definition match_compound (root : node) (c : list simple) (p : loc) : bool :=
  match get_node root p with
  | Some n => is_element n && forallb (match_simple root p n) c
  | None => false
  end.

Fixpoint matches (root : node) (sel : selector) (p : loc) : bool :=
  match sel with
  | Compound c => match_compound root c p
  | Combine l k c =>
      match_compound root c p &&
      match k with
      | Descendant => existsb (matches root l) (ancestors p)
      | Child => match p with
                 | _ :: q => matches root l q
                 | [] => false
                 end
      | Adjacent => match prev_element root p with
                    | Some q => matches root l q
                    | None => false
                    end
      end
  end.

(** [:scope k sel]: how a selector given to [find] is tied to its context
    element. *)
Fixpoint scoped (k : combinator) (sel : selector) : selector :=
  match sel with
  | Compound c => Combine (Compound [Scope]) k c
  | Combine l k' c => Combine (scoped k l) k' c
  end.

(* --------------------------------------------------------------------- *)
(** *** Cheerio selections                                                *)
(* --------------------------------------------------------------------- *)

(** A Cheerio object: the places of the selected elements, in document
    order.  In what follows [doc] is the document that the [CheerioAPI]
    value of the code is bound to. *)
Definition selection := list loc.

(** [$(sel)] *)
Definition query (doc : node) (sel : selector) : selection :=
  List.filter (matches doc sel) (elem_locs doc).

(** How a selector given to [find] is tied to the context elements.  A
    selector written with a leading combinator starts at the context
    element.  Any other selector is matched below the context element,
    unless one of the context elements is the root element, whose parent is
    not an element: the selector is then matched in the whole document. *)
Definition relative (k : combinator) (ctxs : list loc) : bool :=
  match k with
  | Descendant => forallb (fun ctx => 0 <? length ctx) ctxs
  | _ => true
  end.

(** The descendants of the context element [ctx] that [sel] selects. *)
Definition find_from (doc : node) (k : combinator) (rel : bool)
    (sel : selector) (ctx : loc) : list loc :=
  match get_node doc ctx with
  | Some sub =>
      List.map (fun r => r ++ ctx)
        (List.filter
           (fun r =>
              (0 <? length r)
              && if rel then matches sub (scoped k sel) r
                 else matches doc sel (r ++ ctx))
           (elem_locs sub))
  | None => []
  end.

(** [ctxs.find(sel)]; [k] is [Child] for a selector written with a leading
    [>], [Descendant] otherwise.  The result is in document order, each
    element once. *)
Definition find_with (k : combinator) (doc : node) (ctxs : selection)
    (sel : selector) : selection :=
  List.filter
    (fun q =>
       existsb
         (fun ctx =>
            bool_decide (q ∈ find_from doc k (relative k ctxs) sel ctx))
         ctxs)
    (elem_locs doc).

Definition find := find_with Descendant.

(** [sel.text()] *)
Definition text (doc : node) (sel : selection) : string :=
  String.concat ""
    (List.map (fun p => from_option textContent "" (get_node doc p)) sel).

(** [sel.attr(name)]: the attribute of the first selected element. *)
Definition attr (doc : node) (sel : selection) (name : string) : value :=
  match sel with
  | [] => undefined
  | p :: _ =>
      match get_node doc p ≫= (fun n => attribute n name) with
      | Some v => Str v
      | None => undefined
      end
  end.

(** [sel.next()] *)
Definition next (doc : node) (sel : selection) : selection :=
  omap (next_element doc) sel.

(** [sel.children()] *)
Definition children (doc : node) (sel : selection) : selection :=
  List.concat
    (List.map
       (fun p =>
          List.map (fun i => i :: p)
            (List.filter
               (element_at (from_option child_nodes [] (get_node doc p)))
               (seq 0 (length (from_option child_nodes [] (get_node doc p))))))
       sel).

(** [sel.eq(i)] *)
Definition eq_ (sel : selection) (i : nat) : selection :=
  match sel !! i with
  | Some p => [p]
  | None => []
  end.

(** [sel.map(f).get()]: Cheerio leaves out the elements for which the
    callback returns [null] or [undefined] ([None] here). *)
Definition map_get {A} (f : loc → option A) (sel : selection) : list A :=
  omap f sel.

End Dom.
Import Dom.

(* ===================================================================== *)
(** ** The runtime the scraper runs on                                    *)
(* ===================================================================== *)

(** A parsed URL, as far as the scraper reads it. *)
Record URL := { href : string; protocol : string; host : string }.

(** The events of the stream that [fastcsv.parseFile(csvPath, { headers:
    true })] returns: a parsed row (header name and cell, column by column),
    an error (a malformed row, or a file that cannot be read), and the end
    of the input. *)
Inductive stream_event :=
  | data (row : list (string * string))
  | error (e : string)
  | end_.

(** What the code takes from its platform and libraries and does not define
    itself: the date parser of the JavaScript engine (its accepted formats
    are implementation-defined), the URL parser, the HTTP client, lodash's
    [camelCase], the CSV reader, and the crawler.  The extractors are
    defined for every runtime. *)
Class Runtime := {
  (** The time value of [new Date(s)] in milliseconds, [NaN] for a string
      that is not recognised as a date. *)
  Date_parse : string → number;
  (** [new URL(input)] and [new URL(input, base)]; [None] when the
      constructor throws a TypeError. *)
  URL_new : string → option string → option URL;
  (** [axios.get(url)] followed by Cheerio's [load] of the response body;
      [Throw] when the request is rejected. *)
  axios_get : string → result node;
  (** [_.camelCase] *)
  camelCase : string → string;
  (** The events that the CSV stream of a file emits, in order. *)
  parseFile : string → list stream_event;
  (** [crawler.run(requests)] of the crawler library, as far as the code
      can tell: the calls of the request handler that have come to their
      end when [run] resolves, in the order in which they end, each with
      the URL of its request and the parsed page it is given; [Throw]
      when [run] rejects.  Which calls the crawler makes for the requests
      it is given (its queue, its retries, its time-outs, how many calls
      run at a time) is the library's business and is not in the
      source. *)
  crawler_calls : list value → result (list (string * node));
}.

Module Date.

Local Open Scope Z_scope.

(** Year, month and day of a day number counted from 1970-01-01. *)
Definition civil_from_days (days : Z) : Z * Z * Z :=
  let z := days + 719468 in
  let era := z / 146097 in
  let doe := z - era * 146097 in
  let yoe := (doe - doe / 1460 + doe / 36524 - doe / 146096) / 365 in
  let doy := doe - (365 * yoe + yoe / 4 - yoe / 100) in
  let mp := (5 * doy + 2) / 153 in
  let d := doy - (153 * mp + 2) / 5 + 1 in
  let m := if mp <? 10 then mp + 3 else mp - 9 in
  let y := yoe + era * 400 in
  (if m <=? 2 then y + 1 else y, m, d).

(** The decimal digits of [n], padded with zeros to at least [width]. *)
Definition pad (width : nat) (n : Z) : string :=
  let s := pretty (Z.to_N n) in
  String.concat "" (replicate (width - String.length s)%nat "0") +:+ s.

(** [new Date(tv).toISOString()] for a finite time value [tv]. *)
Definition toISOString (tv : Z) : string :=
  let '(y, m, d) := civil_from_days (tv / 86400000) in
  let ms := tv mod 86400000 in
  let year :=
    if (0 <=? y) && (y <=? 9999) then pad 4 y
    else (if y <? 0 then "-" else "+") +:+ pad 6 (Z.abs y) in
  year +:+ "-" +:+ pad 2 m +:+ "-" +:+ pad 2 d +:+ "T"
  +:+ pad 2 (ms / 3600000) +:+ ":" +:+ pad 2 (ms / 60000 mod 60) +:+ ":"
  +:+ pad 2 (ms / 1000 mod 60) +:+ "." +:+ pad 3 (ms mod 1000) +:+ "Z".

End Date.

(* ===================================================================== *)
(** ** The scraped records                                                *)
(* ===================================================================== *)

Record Company := { companyName : value; ycUrl : value }.

Record News := { news_title : value; news_link : value; news_date : value }.

Record Job := {
  role : value; job_location : value; salary : value; equity : value;
  eligibility : value
}.

(** The object [scrapeLaunchPage] resolves to. *)
Record LaunchPage := {
  votes : value; createdAt : value; post : string; sources : list string
}.

(** [{ title, link, description, ...scrapedLaunchPage }] *)
Record LaunchPost := {
  title : value; link : value; lp_description : value; page : LaunchPage
}.

(** [SocialMedia] objects, and the founder objects that spread one, are
    plain objects: finite maps from property keys to values. *)
Abbreviation SocialMedia := (gmap string value).
Abbreviation Founder := (gmap string value).

Record Startup := {
  name : value;
  st_ycUrl : string;
  shortDescription : value;
  description : value;
  logo : value;
  banner : value;
  founded : value;
  teamSize : value;
  location : value;
  url : value;
  ycBatch : value;
  badges : list string;
  numJobs : value;
  jobs : list Job;
  founders : list Founder;
  launchPosts : list (option LaunchPost);
  socialMedia : SocialMedia;
  news : list News;
  images : list value
}.

(* ===================================================================== *)
(** ** The selectors of utils.ts                                          *)
(* ===================================================================== *)

Module Sel.

Notation "l ~> c" := (Combine l Descendant c) (at level 50, left associativity).
Notation "l |> c" := (Combine l Child c) (at level 50, left associativity).
Notation "l |+ c" := (Combine l Adjacent c) (at level 50, left associativity).

(** [tag.c1.c2...]; [tag] is empty when the compound has no tag. *)
Definition cmp (tag : string) (classes : list string) : list simple :=
  (if String.eqb tag "" then [] else [Tag tag]) ++ List.map Class classes.

(** .prose.max-w-full h1 *)
Definition name := Compound (cmp "" ["prose"; "max-w-full"]) ~> [Tag "h1"].

(** div.flex.flex-row.justify-between span:contains("<label>") + span *)
Definition labelled (label : string) :=
  Compound (cmp "div" ["flex"; "flex-row"; "justify-between"])
  ~> [Tag "span"; Contains label] |+ [Tag "span"].

(** div.group.flex.flex-row.items-center.px-3.leading-none.text-linkColor a *)
Definition companyUrl :=
  Compound (cmp "div" ["group"; "flex"; "flex-row"; "items-center"; "px-3";
                       "leading-none"; "text-linkColor"])
  ~> [Tag "a"].

(** .ycdc-card.space-y-1\.5.sm\:w-\[300px\] *)
Definition socialsCard :=
  Compound (cmp "" ["ycdc-card"; "space-y-1.5"; "sm:w-[300px]"]).

(** > .space-x-2 a.inline-block.w-5.h-5.bg-contain (the leading [>] is
    given to [find_with]) *)
Definition socialLinks :=
  Compound (cmp "" ["space-x-2"])
  ~> cmp "a" ["inline-block"; "w-5"; "h-5"; "bg-contain"].

(** .ycdc-badge.ml-0.font-bold.no-underline *)
Definition numJobs :=
  Compound (cmp "" ["ycdc-badge"; "ml-0"; "font-bold"; "no-underline"]).

(** p.whitespace-pre-line *)
Definition description := Compound (cmp "p" ["whitespace-pre-line"]).

(** img, iframe, h3 *)
Definition img := Compound [Tag "img"].
Definition iframe := Compound [Tag "iframe"].
Definition h3 := Compound [Tag "h3"].

(** div.h-32.w-32.shrink-0.clip-circle-32 img *)
Definition logo :=
  Compound (cmp "div" ["h-32"; "w-32"; "shrink-0"; "clip-circle-32"])
  ~> [Tag "img"].

(** div.ycdc-card.space-y-1\.5.sm\:w-\[300px\] img *)
Definition banner :=
  Compound (cmp "div" ["ycdc-card"; "space-y-1.5"; "sm:w-[300px]"])
  ~> [Tag "img"].

(** .align-center.flex.flex-row.flex-wrap.gap-y-2.gap-x-2 .ycdc-badge *)
Definition badges :=
  Compound (cmp "" ["align-center"; "flex"; "flex-row"; "flex-wrap";
                    "gap-y-2"; "gap-x-2"])
  ~> cmp "" ["ycdc-badge"].

(** .prose.hidden.max-w-full.md\:block .text-xl *)
Definition shortDescription :=
  Compound (cmp "" ["prose"; "hidden"; "max-w-full"; "md:block"])
  ~> cmp "" ["text-xl"].

(** .ycdc-badge:contains("Y Combinator Logo") *)
Definition batch :=
  Compound [Class "ycdc-badge"; Contains "Y Combinator Logo"].

(** div.launch-container > div:not([class]) *)
Definition launchBody :=
  Compound (cmp "div" ["launch-container"]) |> [Tag "div"; NotAttr "class"].

(** .vote-count-container div:last-child *)
Definition voteCount :=
  Compound (cmp "" ["vote-count-container"]) ~> [Tag "div"; LastChild].

(** .timeago *)
Definition timeago := Compound (cmp "" ["timeago"]).

(** .company-launch *)
Definition companyLaunch := Compound (cmp "" ["company-launch"]).

(** a:contains('Read Launch') *)
Definition readLaunch := Compound [Tag "a"; Contains "Read Launch"].

(** .prose.max-w-full.whitespace-pre-line *)
Definition launchDescription :=
  Compound (cmp "" ["prose"; "max-w-full"; "whitespace-pre-line"]).

(** #news div.ycdc-with-link-color *)
Definition newsItems :=
  Compound [Id "news"] ~> cmp "div" ["ycdc-with-link-color"].

(** a.prose.font-medium *)
Definition newsTitle := Compound (cmp "a" ["prose"; "font-medium"]).

(** .flex.w-full.flex-row.justify-between.py-4 *)
Definition jobRows :=
  Compound (cmp "" ["flex"; "w-full"; "flex-row"; "justify-between"; "py-4"]).

(** .ycdc-with-link-color.pr-4.text-lg.font-bold a *)
Definition jobRole :=
  Compound (cmp "" ["ycdc-with-link-color"; "pr-4"; "text-lg"; "font-bold"])
  ~> [Tag "a"].

(** .justify-left .list-item:first-child *)
Definition jobItemFirst :=
  Compound (cmp "" ["justify-left"]) ~> [Class "list-item"; FirstChild].

(** .justify-left .list-item:nth-child(k) *)
Definition jobItem (k : nat) :=
  Compound (cmp "" ["justify-left"]) ~> [Class "list-item"; NthChild k].

(** .flex.flex-row.flex-col.items-start.gap-3.md\:flex-row *)
Definition founderInfo :=
  Compound (cmp "" ["flex"; "flex-row"; "flex-col"; "items-start"; "gap-3";
                    "md:flex-row"]).

(** .ycdc-card.shrink-0.space-y-1\.5.sm\:w-\[300px\] *)
Definition founderCard :=
  Compound (cmp "" ["ycdc-card"; "shrink-0"; "space-y-1.5"; "sm:w-[300px]"]).

(** .font-bold, .leading-snug, a.h-5.w-5.bg-contain, .prose.max-w-full *)
Definition fontBold := Compound (cmp "" ["font-bold"]).
Definition leadingSnug := Compound (cmp "" ["leading-snug"]).
Definition founderLinks := Compound (cmp "a" ["h-5"; "w-5"; "bg-contain"]).
Definition prose := Compound (cmp "" ["prose"; "max-w-full"]).

End Sel.

(* ===================================================================== *)
(** ** The extractors of utils.ts                                         *)
(* ===================================================================== *)

Section Extractors.

Context `{Runtime}.

(** Calling a string method on [arr[i]]: a TypeError when the index is out
    of range, since [arr[i]] is then [undefined]. *)
Definition call_on (o : option string) (method : string → string)
  : result string :=
  match o with
  | Some s => Ok (method s)
  | None => Throw TypeError
  end.

(** [sel.text().trim() || null] *)
Definition text_or_null (doc : node) (sel : selection) : value :=
  or_else (Str (trim (text doc sel))) null.

Definition getName (doc : node) : value :=
  text_or_null doc (query doc Sel.name).

Definition getFounded (doc : node) : value :=
  let foundedElement := query doc (Sel.labelled "Founded:") in
  let founded := Str (trim (text doc foundedElement)) in
  or_else founded null.

Definition getTeamSize (doc : node) : value :=
  let teamSizeElement := query doc (Sel.labelled "Team Size:") in
  let teamSize := trim (text doc teamSizeElement) in
  let parsedTeamSize := parseInt teamSize in
  if isNaN parsedTeamSize then null else Num parsedTeamSize.

Definition getCompanyUrl (doc : node) : value :=
  let urlElement := query doc Sel.companyUrl in
  if 0 <? length urlElement
  then let url := attr doc urlElement "href" in
       if truthy url then url else null
  else null.

(** [$(this).attr("title")?.split(" ")[0].toLowerCase()] *)
Definition platform_of (doc : node) (this : loc) : result value :=
  match attr doc [this] "title" with
  | Str t => bind (call_on (split " " t !! 0) toLowerCase) (fun p => Ok (Str p))
  | _ => Ok undefined
  end.

(** [socials[platform] = link] on the object that began as [{}].  Under
    the name [__proto__] the object has the accessor of its prototype, and
    the setter does nothing with a string or with [undefined]: no
    property is made.  Under every other name the assignment makes, or
    replaces, a property of the object. *)
Definition assign (socials : SocialMedia) (platform : string) (link : value)
  : SocialMedia :=
  if String.eqb platform "__proto__" then socials
  else <[platform := link]> socials.

(** One round of the [each] loops that fill a [SocialMedia] object:
    [socials[platform] = link]. *)
Definition add_social (doc : node) (socials : result SocialMedia) (this : loc)
  : result SocialMedia :=
  bind socials (fun socials =>
  let link := attr doc [this] "href" in
  bind (platform_of doc this) (fun platform =>
  Ok (assign socials (to_string platform) link))).

Definition getCompanySocials (doc : node) : result SocialMedia :=
  let parentElement := query doc Sel.socialsCard in
  fold_left (add_social doc)
    (find_with Child doc parentElement Sel.socialLinks) (Ok ∅).

Definition getLocation (doc : node) : value :=
  text_or_null doc (query doc (Sel.labelled "Location:")).

Definition getNumJobs (doc : node) : value :=
  let numJobsString := trim (text doc (query doc Sel.numJobs)) in
  let cleanedNumJobsString := strip_non_digits numJobsString in
  Num (parseInt cleanedNumJobsString).

Definition getDescription (doc : node) : value :=
  text_or_null doc (query doc Sel.description).

Definition getImages (doc : node) : list value :=
  map_get (fun this => Some (or_else (attr doc [this] "src") (Str "")))
    (query doc Sel.img).

Definition getCompanyLogo (doc : node) : value :=
  or_else (attr doc (query doc Sel.logo) "src") null.

Definition getBannerUrl (doc : node) : value :=
  or_else (attr doc (query doc Sel.banner) "src") null.

Definition marker : string := "Y Combinator Logo".

Definition getBadges (doc : node) : result (list string) :=
  mapM (fun this =>
          let text := trim (text doc [this]) in
          if includes marker text
          then call_on (split marker text !! 1) trim
          else Ok text)
    (query doc Sel.badges).

Definition getShortDescription (doc : node) : value :=
  text_or_null doc (query doc Sel.shortDescription).

Definition getBatch (doc : node) : result value :=
  let ycBatchElement := query doc Sel.batch in
  if 0 <? length ycBatchElement
  then bind (call_on (split marker (trim (text doc ycBatchElement)) !! 1) trim)
         (fun b => Ok (Str b))
  else Ok null.

(** [new URL(input, base).href]; the constructor takes its arguments as
    strings. *)
Definition resolve (input base : string) : result string :=
  match URL_new input (Some base) with
  | Some u => Ok (href u)
  | None => Throw TypeError
  end.

Definition getBaseUrl (ycUrl : string) : result string :=
  match URL_new ycUrl None with
  | Some url => Ok (protocol url +:+ "//" +:+ host url)
  | None => Throw TypeError
  end.

(** The callback that [scrapeLaunchPage] maps over the children of the body
    container.  It returns the fragment for [element]; [sources] is the
    array it pushes to. *)
Definition body_fragment (doc : node) (baseUrl : string)
    (sources : list string) (element : loc) : result (string * list string) :=
  let childElement := [element] in
  let textContent := trim (text doc childElement) in
  if 0 <? String.length textContent
  then Ok (textContent, sources)
  else
    let imgSrc := attr doc (find doc childElement Sel.img) "src" in
    let iframeSrc := attr doc (find doc childElement Sel.iframe) "src" in
    if truthy imgSrc
    then bind (resolve (to_string imgSrc) baseUrl) (fun src =>
         Ok (src, sources ++ [src]))
    else if truthy iframeSrc
    then bind (resolve (to_string iframeSrc) baseUrl) (fun src =>
         Ok (src, sources ++ [src]))
    else Ok ("", sources).

(** The [map] over the children: the fragments in order, and the array
    [sources] after the last callback. *)
Fixpoint body_fragments (doc : node) (baseUrl : string)
    (sources : list string) (elements : list loc)
  : result (list string * list string) :=
  match elements with
  | [] => Ok ([], sources)
  | element :: rest =>
      bind (body_fragment doc baseUrl sources element) (fun '(frag, sources) =>
      bind (body_fragments doc baseUrl sources rest) (fun '(frags, sources) =>
      Ok (frag :: frags, sources)))
  end.

Definition scrapeLaunchPage (url : string) : result LaunchPage :=
  bind (axios_get url) (fun doc =>
  bind (getBaseUrl url) (fun baseUrl =>
  let bodyContent := query doc Sel.launchBody in
  bind (body_fragments doc baseUrl [] (children doc bodyContent))
    (fun '(fragments, sources) =>
  let post := join " " fragments in
  let votesParse := parseInt (trim (text doc (query doc Sel.voteCount))) in
  let votes := if isNaN votesParse then null else Num votesParse in
  let createdAt := attr doc (query doc Sel.timeago) "datetime" in
  Ok {| votes := if truthy votes then votes else Num (Int 0);
        createdAt := createdAt;
        post := post;
        sources := set_to_array sources |}))).

(** The async callback of [getAllLaunchPosts], run to completion. *)
Definition launchPost (doc : node) (baseUrl : string) (this : loc)
  : result (option LaunchPost) :=
  let launchContainer := [this] in
  let title := Str (trim (text doc (find doc launchContainer Sel.h3))) in
  let relativeLink :=
    attr doc (find doc launchContainer Sel.readLaunch) "href" in
  bind (if truthy relativeLink
        then bind (resolve (to_string relativeLink) baseUrl) (fun l =>
             Ok (Str l))
        else Ok null) (fun link =>
  let description :=
    Str (trim (text doc (find doc launchContainer Sel.launchDescription))) in
  if negb (truthy title) || negb (truthy description) || negb (truthy link)
  then Ok None
  else
    bind (scrapeLaunchPage (to_string link)) (fun scrapedLaunchPage =>
    Ok (Some {| title := title; link := link; lp_description := description;
                page := scrapedLaunchPage |}))).

(** Every callback returns a promise, so [map] keeps one entry per
    container, and [Promise.all] resolves to their results in order, or
    rejects when one of them rejects. *)
Definition getAllLaunchPosts (doc : node) (baseUrl : string)
  : result (list (option LaunchPost)) :=
  let launchContainers := query doc Sel.companyLaunch in
  mapM (launchPost doc baseUrl) launchContainers.

(** The time value of [new Date(v)]. *)
Definition new_Date (v : value) : number :=
  match v with
  | Str s => Date_parse s
  | Num n => n
  | null => Int 0
  | undefined => NaN
  end.

(** [d.toISOString()], a RangeError on an invalid date. *)
Definition toISOString (d : number) : result string :=
  match d with
  | Int tv => Ok (Date.toISOString tv)
  | NaN | Infinity _ => Throw RangeError
  end.

(** The callback of [getNews]; [None] is its [return null]. *)
Definition newsItem (doc : node) (this : loc) : result (option News) :=
  let titleElement := find doc [this] Sel.newsTitle in
  let title := or_else (Str (trim (text doc titleElement))) null in
  let link := or_else (attr doc titleElement "href") null in
  let dateString := or_else (Str (trim (text doc (next doc [this])))) null in
  bind (if truthy dateString
        then bind (toISOString (new_Date dateString)) (fun d => Ok (Str d))
        else Ok null) (fun date =>
  if negb (truthy title) || negb (truthy link) || negb (truthy date)
  then Ok None
  else Ok (Some {| news_title := title; news_link := link;
                   news_date := date |})).

Definition getNews (doc : node) : result (list News) :=
  bind (mapM (newsItem doc) (query doc Sel.newsItems)) (fun items =>
  Ok (omap id items)).

Definition getJobs (doc : node) : list Job :=
  map_get (fun this =>
    let jobContainer := [this] in
    let role := Str (trim (text doc (find doc jobContainer Sel.jobRole))) in
    let location := text_or_null doc (find doc jobContainer Sel.jobItemFirst) in
    let salary := text_or_null doc (find doc jobContainer (Sel.jobItem 2)) in
    let equity := text_or_null doc (find doc jobContainer (Sel.jobItem 3)) in
    let eligibility :=
      text_or_null doc (find doc jobContainer (Sel.jobItem 4)) in
    Some {| role := role; job_location := location; salary := salary;
            equity := equity; eligibility := eligibility |})
    (query doc Sel.jobRows).

(** [{ name, imageUrl, position, description, ...socials }]: the spread
    comes last, so a key of [socials] replaces a field of the same name. *)
Definition founder_object (name imageUrl position description : value)
    (socials : SocialMedia) : Founder :=
  socials ∪ <["name" := name]> (<["imageUrl" := imageUrl]>
              (<["position" := position]> (<["description" := description]> ∅))).

(** The founder read from the card [founderCard]; [description] is what the
    branch of [getFounders] puts in the description field. *)
Definition founder_of_card (doc : node) (founderCard : selection)
    (description : value) : result Founder :=
  let name := Str (trim (text doc (find doc founderCard Sel.fontBold))) in
  let imageUrl := attr doc (find doc founderCard Sel.img) "src" in
  let position :=
    Str (trim (text doc
      (eq_ (children doc (find doc founderCard Sel.leadingSnug)) 1))) in
  bind (fold_left (add_social doc) (find doc founderCard Sel.founderLinks)
          (Ok ∅)) (fun socials =>
  Ok (founder_object name imageUrl position description socials)).

Definition getFounders (doc : node) : result (list Founder) :=
  let founderInfo := query doc Sel.founderInfo in
  let founderCard := query doc Sel.founderCard in
  if 0 <? length founderInfo
  then mapM (fun this =>
               let founderContainer := [this] in
               let founderCard := find doc [this] Sel.founderCard in
               let description :=
                 text_or_null doc (find doc founderContainer Sel.prose) in
               founder_of_card doc founderCard description)
         founderInfo
  else mapM (fun this => founder_of_card doc [this] null) founderCard.

(** The body of [requestHandler]; [scrapedData] is the array it pushes to. *)
Definition requestHandler (doc : node) (request_url : string)
    (scrapedData : list Startup) : result (list Startup) :=
  let ycUrl := request_url in
  let name := getName doc in
  let founded := getFounded doc in
  let jobs := getJobs doc in
  bind (getFounders doc) (fun founders =>
  bind (getCompanySocials doc) (fun socialMedia =>
  let numJobs := getNumJobs doc in
  let teamSize := getTeamSize doc in
  let location := getLocation doc in
  let description := getDescription doc in
  let shortDescription := getShortDescription doc in
  let url := getCompanyUrl doc in
  bind (getBadges doc) (fun badges =>
  bind (getBatch doc) (fun ycBatch =>
  let logo := getCompanyLogo doc in
  let banner := getBannerUrl doc in
  bind (getNews doc) (fun news =>
  bind (bind (getBaseUrl ycUrl) (getAllLaunchPosts doc)) (fun launchPosts =>
  let images := getImages doc in
  Ok (scrapedData ++
      [ {| name := name; st_ycUrl := ycUrl;
           shortDescription := shortDescription; description := description;
           logo := logo; banner := banner; founded := founded;
           teamSize := teamSize; location := location; url := url;
           ycBatch := ycBatch; badges := badges; numJobs := numJobs;
           jobs := jobs; founders := founders; launchPosts := launchPosts;
           socialMedia := socialMedia; news := news;
           images := images |} ]))))))).

End Extractors.

(* ===================================================================== *)
(** ** parseCompanyList                                                   *)
(* ===================================================================== *)

Inductive promise (A : Type) :=
  | Pending
  | Resolved (a : A)
  | Rejected (e : string).
Arguments Pending {A}.
Arguments Resolved {A} a.
Arguments Rejected {A} e.

(** A promise is settled once: [resolve] and [reject] do nothing on a
    promise that is no longer pending. *)
Definition settle {A} (p new : promise A) : promise A :=
  match p with
  | Pending => new
  | _ => p
  end.

Inductive console_line :=
  | console_error (e : string)
  | console_log (s : string).

(** The array [companies], what was written to the console, and the state
    of the returned promise. *)
Record parse_state := {
  companies : list Company;
  console : list console_line;
  returned : promise (list Company)
}.

Section ParseCompanyList.

Context `{Runtime}.

(** [Object.fromEntries]: a later entry replaces an earlier one with the
    same key. *)
Definition fromEntries (entries : list (string * string))
  : gmap string string :=
  fold_left (fun o '(k, v) => <[k := v]> o) entries ∅.

Definition get (o : gmap string string) (key : string) : value :=
  match o !! key with
  | Some v => Str v
  | None => undefined
  end.

(** The ["data"] listener. *)
Definition on_data (row : list (string * string)) (st : parse_state)
  : parse_state :=
  let camelCasedData :=
    fromEntries (List.map (fun '(key, value) => (camelCase key, value)) row) in
  let company :=
    {| companyName := get camelCasedData "companyName";
       ycUrl := get camelCasedData "ycUrl" |} in
  {| companies := companies st ++ [company];
     console := console st;
     returned := returned st |}.

(** The two ["error"] listeners, in the order they were attached: the one
    that logs, then the promise's, which rejects. *)
Definition on_error (e : string) (st : parse_state) : parse_state :=
  {| companies := companies st;
     console := console st ++ [console_error e];
     returned := settle (returned st) (Rejected e) |}.

(** The two ["end"] listeners: the one that logs, then the promise's, which
    resolves with [companies]. *)
Definition on_end (st : parse_state) : parse_state :=
  {| companies := companies st;
     console := console st ++
       [console_log ("Parsed " +:+ pretty (N.of_nat (length (companies st)))
                     +:+ " companies")];
     returned := settle (returned st) (Resolved (companies st)) |}.

Definition emit (st : parse_state) (ev : stream_event) : parse_state :=
  match ev with
  | data row => on_data row st
  | error e => on_error e st
  | end_ => on_end st
  end.

Definition run_stream (events : list stream_event) : parse_state :=
  fold_left emit events
    {| companies := []; console := []; returned := Pending |}.

(** The promise returned for the file at [csvPath], once the stream has
    emitted all its events. *)
Definition parseCompanyList (csvPath : string) : promise (list Company) :=
  returned (run_stream (parseFile csvPath)).

End ParseCompanyList.

(* ===================================================================== *)
(** ** scrapeCompanyPages                                                 *)
(* ===================================================================== *)

Section ScrapeCompanyPages.

Context `{Runtime}.

(** A call of the request handler by the crawler.  The handler pushes as
    its last step, so a call that throws leaves the array as it is. *)
Definition handler_call (scrapedData : list Startup) (call : string * node)
  : list Startup :=
  match requestHandler call.2 call.1 scrapedData with
  | Ok scrapedData' => scrapedData'
  | Throw _ => scrapedData
  end.

(** The record that a call of the request handler pushes, when the call
    returns. *)
Definition record_of (call : string * node) : option Startup :=
  match requestHandler call.2 call.1 [] with
  | Ok [record] => Some record
  | _ => None
  end.

Definition scrapeCompanyPages (companies : list Company)
  : result (list Startup) :=
  let scrapedData := [] in
  bind (crawler_calls (List.map ycUrl companies)) (fun calls =>
  Ok (fold_left handler_call calls scrapedData)).

End ScrapeCompanyPages.

(* ===================================================================== *)
(** ** A runtime to run the scraper on examples                           *)
(* ===================================================================== *)

(** [Ref.runtime web files] serves the pages of [web] and the CSV streams of
    [files]; for a file that is not among [files] the stream of the parser
    emits nothing (an error of the file's read stream does not reach
    it).  Its date parser accepts the date-only form [YYYY-MM-DD] of
    the ECMAScript date-time format and nothing else; its URL parser
    accepts [http://host/path] and [https://host/path] and resolves a
    reference that starts with one [/] against the origin of its base. *)
Module Ref.

Definition days_from_civil (y m d : Z) : Z :=
  (let y := if m <=? 2 then y - 1 else y in
   let era := y / 400 in
   let yoe := y - era * 400 in
   let doy := (153 * (if 2 <? m then m - 3 else m + 9) + 2) / 5 + d - 1 in
   let doe := yoe * 365 + yoe / 4 - yoe / 100 + doy in
   era * 146097 + doe - 719468)%Z.

Definition days_in_month (y m : Z) : Z :=
  (if m =? 2
   then if ((y mod 4 =? 0) && negb (y mod 100 =? 0)) || (y mod 400 =? 0)
        then 29 else 28
   else if (m =? 4) || (m =? 6) || (m =? 9) || (m =? 11) then 30 else 31)%Z.

Definition digits (cs : list ascii) : Z :=
  fold_left (fun n c => (10 * n + (Z.of_N (code c) - 48))%Z) cs 0%Z.

Definition parse_date (s : string) : number :=
  match String.list_ascii_of_string s with
  | [y1; y2; y3; y4; "-"%char; m1; m2; "-"%char; d1; d2] =>
      let y := digits [y1; y2; y3; y4] in
      let m := digits [m1; m2] in
      let d := digits [d1; d2] in
      if forallb is_digit [y1; y2; y3; y4; m1; m2; d1; d2]
         && (1 <=? m)%Z && (m <=? 12)%Z && (1 <=? d)%Z
         && (d <=? days_in_month y m)%Z
      then Int (days_from_civil y m d * 86400000)
      else NaN
  | _ => NaN
  end.

(** [s] without its prefix [p]. *)
Fixpoint strip_prefix (p s : string) : option string :=
  match p, s with
  | "", _ => Some s
  | String a p', String b s' =>
      if Ascii.eqb a b then strip_prefix p' s' else None
  | _, _ => None
  end.

(** [s] up to its first [/], and the rest from that [/] on. *)
Fixpoint break_slash (s : string) : string * string :=
  match s with
  | "" => ("", "")
  | String c r =>
      if Ascii.eqb c "/" then ("", s)
      else let '(a, b) := break_slash r in (String c a, b)
  end.

Definition parse_with (scheme s : string) : option URL :=
  match strip_prefix (scheme +:+ "//") s with
  | Some rest =>
      let '(h, path) := break_slash rest in
      if String.eqb h "" then None
      else Some {| href := scheme +:+ "//" +:+ h
                           +:+ (if String.eqb path "" then "/" else path);
                   protocol := scheme; host := h |}
  | None => None
  end.

Definition parse_absolute (s : string) : option URL :=
  match parse_with "https:" s with
  | Some u => Some u
  | None => parse_with "http:" s
  end.

Definition new_url (input : string) (base : option string) : option URL :=
  match parse_absolute input with
  | Some u => Some u
  | None =>
      match base ≫= parse_absolute with
      | Some b =>
          if String.prefix "/" input && negb (String.prefix "//" input)
          then Some {| href := protocol b +:+ "//" +:+ host b +:+ input;
                       protocol := protocol b; host := host b |}
          else None
      | None => None
      end
  end.

Definition upper_char (c : ascii) : ascii :=
  if ((97 <=? code c) && (code c <=? 122))%N
  then Ascii.ascii_of_N (code c - 32)
  else c.

Definition capitalize (w : string) : string :=
  match w with
  | "" => ""
  | String c r => String (upper_char c) r
  end.

(** [camelCase] on a header made of words separated by spaces. *)
Definition camel (s : string) : string :=
  match List.filter (fun w => negb (String.eqb w ""))
          (split " " (toLowerCase s)) with
  | [] => ""
  | w :: ws => String.concat "" (w :: List.map capitalize ws)
  end.

Fixpoint lookup_table {A} (k : string) (l : list (string * A)) : option A :=
  match l with
  | [] => None
  | (k', v) :: l' => if String.eqb k k' then Some v else lookup_table k l'
  end.

(** A crawler that calls the request handler once for each request whose
    page is served, one call after the other, and rejects a request that
    is not a string. *)
Fixpoint crawl (web : list (string * node)) (requests : list value)
  : result (list (string * node)) :=
  match requests with
  | [] => Ok []
  | Str url :: rest =>
      bind (crawl web rest) (fun calls =>
      Ok (match lookup_table url web with
          | Some doc => (url, doc) :: calls
          | None => calls
          end))
  | _ :: _ => Throw TypeError
  end.

Definition runtime (web : list (string * node))
    (files : list (string * list stream_event)) : Runtime :=
  {| Date_parse := parse_date;
     URL_new := new_url;
     axios_get := fun url =>
       match lookup_table url web with
       | Some doc => Ok doc
       | None => Throw NetworkError
       end;
     camelCase := camel;
     parseFile := fun csvPath =>
       match lookup_table csvPath files with
       | Some events => events
       | None => []
       end;
     crawler_calls := crawl web |}.

End Ref.

(* ===================================================================== *)
(** ** Example pages                                                      *)
(* ===================================================================== *)

Module Pages.

Definition el := Element.
Definition cls (c : string) : list (string * string) := [("class", c)].

(** The document that Cheerio's [load] builds for a page with the given
    body. *)
Definition html (body : list node) : node :=
  el "html" [] [ el "head" [] []; el "body" [] body ].

(** <body><div id="news">
      <div class="ycdc-with-link-color">
        <a class="prose font-medium" href="https://news.example/1">Raises</a>
      </div><div>2024-02-29</div>
      <div class="ycdc-with-link-color">
        <a class="prose font-medium" href="https://news.example/2">Ships</a>
      </div><div>   </div>
      <div class="ycdc-with-link-color">
        <a class="prose font-medium">Hires</a>
      </div><div>2024-03-01</div>
    </div></body> *)
Definition news : node :=
  html
    [ el "div" [("id", "news")]
        [ el "div" (cls "ycdc-with-link-color")
            [ el "a" [("class", "prose font-medium");
                      ("href", "https://news.example/1")] [Text "Raises"] ];
          el "div" [] [Text "2024-02-29"];
          el "div" (cls "ycdc-with-link-color")
            [ el "a" [("class", "prose font-medium");
                      ("href", "https://news.example/2")] [Text "Ships"] ];
          el "div" [] [Text "   "];
          el "div" (cls "ycdc-with-link-color")
            [ el "a" [("class", "prose font-medium")] [Text "Hires"] ];
          el "div" [] [Text "2024-03-01"] ] ].

(** <body><div id="news">
      <div class="ycdc-with-link-color">
        <a class="prose font-medium" href="https://news.example/1">Raises</a>
      </div><div>Yesterday</div>
    </div></body> *)
Definition news_yesterday : node :=
  html
    [ el "div" [("id", "news")]
        [ el "div" (cls "ycdc-with-link-color")
            [ el "a" [("class", "prose font-medium");
                      ("href", "https://news.example/1")] [Text "Raises"] ];
          el "div" [] [Text "Yesterday"] ] ].

(** <span class="ycdc-badge">text</span> *)
Definition el_badge (text : string) : node :=
  el "span" (cls "ycdc-badge") [Text text].

(** <body><div class="a b"><span>Founded:</span> <span> 2019 </span></div>
    <p>x</p></body> *)
Definition founded : node :=
  html
    [ el "div" (cls "a b")
        [ el "span" [] [Text "Founded:"]; Text " ";
          el "span" [] [Text " 2019 "] ];
      el "p" [] [Text "x"] ].

End Pages.

(* ===================================================================== *)
(** ** What the properties are stated with                                *)
(* ===================================================================== *)

(** A string that is not empty: what passes the [!x] tests of the code. *)
Definition nonempty_string (v : value) : Prop := ∃ s, v = Str s ∧ s ≠ "".

Section Observations.

Context `{Runtime}.

(** What the callback of [getNews] reads for the matched element [this]. *)
Definition news_title_text (doc : node) (this : loc) : string :=
  trim (text doc (find doc [this] Sel.newsTitle)).
Definition news_href (doc : node) (this : loc) : value :=
  attr doc (find doc [this] Sel.newsTitle) "href".
Definition news_date_text (doc : node) (this : loc) : string :=
  trim (text doc (next doc [this])).

(** The matched element has a title text, a link and a date text. *)
Definition news_complete (doc : node) (this : loc) : bool :=
  negb (String.eqb (news_title_text doc this) "")
  && truthy (news_href doc this)
  && negb (String.eqb (news_date_text doc this) "").

(** What the callback of [getAllLaunchPosts] reads for the container
    [this]. *)
Definition launch_title (doc : node) (this : loc) : string :=
  trim (text doc (find doc [this] Sel.h3)).
Definition launch_href (doc : node) (this : loc) : value :=
  attr doc (find doc [this] Sel.readLaunch) "href".
Definition launch_description (doc : node) (this : loc) : string :=
  trim (text doc (find doc [this] Sel.launchDescription)).

(** The entry that a launch container leaves in the result of
    [getAllLaunchPosts]: [null] for a container without a title, a
    description or a link, a record with all three otherwise. *)
Definition launch_entry (doc : node) (baseUrl : string) (this : loc)
    (entry : option LaunchPost) : Prop :=
  match entry with
  | None =>
      launch_title doc this = ""
      ∨ launch_description doc this = ""
      ∨ truthy (launch_href doc this) = false
      ∨ resolve (to_string (launch_href doc this)) baseUrl = Ok ""
  | Some lp =>
      title lp = Str (launch_title doc this)
      ∧ launch_title doc this ≠ ""
      ∧ lp_description lp = Str (launch_description doc this)
      ∧ launch_description doc this ≠ ""
      ∧ ∃ l, link lp = Str l ∧ l ≠ ""
             ∧ truthy (launch_href doc this) = true
             ∧ resolve (to_string (launch_href doc this)) baseUrl = Ok l
             ∧ scrapeLaunchPage l = Ok (page lp)
  end.

(** The texts that [getTeamSize] and [getNumJobs] read. *)
Definition team_size_text (doc : node) : string :=
  trim (text doc (query doc (Sel.labelled "Team Size:"))).
Definition num_jobs_text (doc : node) : string :=
  trim (text doc (query doc Sel.numJobs)).

Fixpoint all_digits (s : string) : bool :=
  match s with
  | "" => true
  | String c r => is_digit c && all_digits r
  end.

(** The number that a string of decimal digits writes. *)
Fixpoint decimal (s : string) : Z :=
  match s with
  | "" => 0
  | String c r => (Z.of_N (code c) - 48) * 10 ^ Z.of_nat (String.length r)
                  + decimal r
  end%Z.

Definition starts_with_digit (s : string) : bool :=
  match s with
  | String c _ => is_digit c
  | "" => false
  end.

(** The string begins with an integer: a digit, or a sign and a digit. *)
Definition starts_with_integer (s : string) : bool :=
  match s with
  | String c r =>
      is_digit c
      || (Ascii.eqb c "-" || Ascii.eqb c "+") && starts_with_digit r
  | "" => false
  end.

(** The integer that a sign, or none, and the number written by the
    digits behind it make. *)
Definition signed (sign : string) (n : Z) : Z :=
  if String.eqb sign "-" then (- n)%Z else n.

(** The text before the first space. *)
Fixpoint first_word (s : string) : string :=
  match s with
  | "" => ""
  | String c r => if Ascii.eqb c " " then "" else String c (first_word r)
  end.

(** The links that [getCompanySocials] loops over, and the key and the
    value that the loop stores for the link [this]. *)
Definition social_links (doc : node) : selection :=
  find_with Child doc (query doc Sel.socialsCard) Sel.socialLinks.

Definition social_key (doc : node) (this : loc) : string :=
  match attr doc [this] "title" with
  | Str t => toLowerCase (first_word t)
  | _ => "undefined"
  end.

Definition social_href (doc : node) (this : loc) : value :=
  attr doc [this] "href".

(** The object after the loop over [links], started with [socials]. *)
Definition socials_after (doc : node) (links : list loc)
    (socials : SocialMedia) : SocialMedia :=
  fold_left (fun socials this =>
               assign socials (social_key doc this) (social_href doc this))
    links socials.

(** The record that the ["data"] listener pushes for a row. *)
Definition company_of (row : list (string * string)) : Company :=
  let camelCasedData :=
    fromEntries (List.map (fun '(key, value) => (camelCase key, value)) row) in
  {| companyName := get camelCasedData "companyName";
     ycUrl := get camelCasedData "ycUrl" |}.

(** The source of the image or frame that a child of the launch body
    stands for: a child with a text has none; otherwise it is the [src] of
    its first image, or else of its first frame. *)
Definition media_src (doc : node) (element : loc) : option string :=
  if String.eqb (trim (text doc [element])) "" then
    let imgSrc := attr doc (find doc [element] Sel.img) "src" in
    let iframeSrc := attr doc (find doc [element] Sel.iframe) "src" in
    if truthy imgSrc then Some (to_string imgSrc)
    else if truthy iframeSrc then Some (to_string iframeSrc)
    else None
  else None.

(** The elements of a list in the order of their first occurrence. *)
Fixpoint first_occurrences (l : list string) : list string :=
  match l with
  | [] => []
  | x :: rest =>
      x :: List.filter (fun y => negb (String.eqb y x)) (first_occurrences rest)
  end.

(** The fragment that a child of the launch body stands for: its trimmed
    text, or the resolved URL of its image or frame. *)
Definition fragment_of (doc : node) (baseUrl : string) (element : loc)
    (fragment : string) : Prop :=
  match media_src doc element with
  | Some src => resolve src baseUrl = Ok fragment
  | None => fragment = trim (text doc [element])
  end.

(** A string, a number or [null]: neither [undefined] nor [NaN]. *)
Definition string_number_or_null (v : value) : Prop :=
  match v with
  | Str _ | null | Num (Int _) | Num (Infinity _) => True
  | undefined | Num NaN => False
  end.

(** A string or [undefined]: what reading an attribute gives. *)
Definition string_or_undefined (v : value) : Prop :=
  match v with
  | Str _ | undefined => True
  | null | Num _ => False
  end.

(** A string, [null] or [undefined]: not a number. *)
Definition string_null_or_undefined (v : value) : Prop :=
  match v with
  | Num _ => False
  | _ => True
  end.

(** The scalar fields of a record other than [numJobs]. *)
Definition scalar_fields (record : Startup) : list value :=
  [ name record; Str (st_ycUrl record); shortDescription record;
    description record; logo record; banner record; founded record;
    teamSize record; location record; url record; ycBatch record ].

Definition job_fields (job : Job) : list value :=
  [ role job; job_location job; salary job; equity job; eligibility job ].

Definition news_fields (n : News) : list value :=
  [ news_title n; news_link n; news_date n ].

(** What holds of the fields of an entry of [launchPosts]. *)
Definition launch_fields_ok (entry : option LaunchPost) : Prop :=
  match entry with
  | None => True
  | Some lp =>
      Forall string_number_or_null
        [ title lp; link lp; lp_description lp; votes (page lp) ]
      ∧ string_or_undefined (createdAt (page lp))
  end.

(** What holds of the fields of a founder object. *)
Definition founder_fields_ok (founder : Founder) : Prop :=
  (∃ v, founder !! "imageUrl" = Some v ∧ string_or_undefined v)
  ∧ ∀ k v, founder !! k = Some v → string_null_or_undefined v.

(** The string is not empty and does not end with white space. *)
Fixpoint last_solid (m : string) : bool :=
  match m with
  | "" => false
  | String a "" => negb (is_ws a)
  | String _ m' => last_solid m'
  end.

(** The string does not begin with white space. *)
Definition first_solid (m : string) : bool :=
  match m with
  | "" => false
  | String a _ => negb (is_ws a)
  end.

End Observations.

(** On [Pages.news] the first element is kept; the second has no date text
    and the third no link. *)
Definition news_kept : list News :=
  [ {| news_title := Str "Raises";
       news_link := Str "https://news.example/1";
       news_date := Str "2024-02-29T00:00:00.000Z" |} ].

Module LaunchPages.

Import Pages.

(** <body><div class="company-launch"><h3></h3>
      <div class="prose max-w-full whitespace-pre-line">We launch.</div>
      <a href="/launches/abc">Read Launch</a></div>
    <div class="company-launch"><h3>Acme 2.0</h3>
      <div class="prose max-w-full whitespace-pre-line">Faster.</div>
      <a href="/launches/xyz">Read Launch</a></div></body> *)
Definition company : node :=
  html
    [ el "div" (cls "company-launch")
        [ el "h3" [] [];
          el "div" (cls "prose max-w-full whitespace-pre-line")
            [Text "We launch."];
          el "a" [("href", "/launches/abc")] [Text "Read Launch"] ];
      el "div" (cls "company-launch")
        [ el "h3" [] [Text "Acme 2.0"];
          el "div" (cls "prose max-w-full whitespace-pre-line")
            [Text "Faster."];
          el "a" [("href", "/launches/xyz")] [Text "Read Launch"] ] ].

(** <body><div class="launch-container"><div><p>Hello</p>
      <p><img src="/img.png"></p></div></div></body> *)
Definition launch : node :=
  html
    [ el "div" (cls "launch-container")
        [ el "div" []
            [ el "p" [] [Text "Hello"];
              el "p" [] [ el "img" [("src", "/img.png")] [] ] ] ] ].

Definition web : list (string * node) :=
  [ ("https://example.com/launches/xyz", launch) ].

Definition launch_page : LaunchPage :=
  {| votes := Num (Int 0); createdAt := undefined;
     post := "Hello https://example.com/img.png";
     sources := ["https://example.com/img.png"] |}.

Definition launch_post : LaunchPost :=
  {| title := Str "Acme 2.0";
     link := Str "https://example.com/launches/xyz";
     lp_description := Str "Faster.";
     page := launch_page |}.

End LaunchPages.

Module NumberPages.

Import Pages.

(** <body><div class="flex flex-row justify-between">
      <span>Team Size:</span><span>~42</span></div>
    <a class="ycdc-badge ml-0 font-bold no-underline">Jobs (3)</a></body> *)
Definition approx : node :=
  html
    [ el "div" (cls "flex flex-row justify-between")
        [ el "span" [] [Text "Team Size:"]; el "span" [] [Text "~42"] ];
      el "a" (cls "ycdc-badge ml-0 font-bold no-underline")
        [Text "Jobs (3)"] ].

(** The same page with the team size written "42 people". *)
Definition people : node :=
  html
    [ el "div" (cls "flex flex-row justify-between")
        [ el "span" [] [Text "Team Size:"]; el "span" [] [Text "42 people"] ];
      el "a" (cls "ycdc-badge ml-0 font-bold no-underline")
        [Text "Jobs (3)"] ].

End NumberPages.

Module SocialPages.

Import Pages.

(** <body><div class="ycdc-card space-y-1.5 sm:w-[300px]">
      <div class="space-x-2">
        <a class="inline-block w-5 h-5 bg-contain"
           href="https://twitter.com/acme" title="Twitter account"></a>
        <a class="inline-block w-5 h-5 bg-contain"
           href="https://www.linkedin.com/company/acme"></a>
      </div></div></body> *)
Definition untitled : node :=
  html
    [ el "div" (cls "ycdc-card space-y-1.5 sm:w-[300px]")
        [ el "div" (cls "space-x-2")
            [ el "a" [("class", "inline-block w-5 h-5 bg-contain");
                      ("href", "https://twitter.com/acme");
                      ("title", "Twitter account")] [];
              el "a" [("class", "inline-block w-5 h-5 bg-contain");
                      ("href", "https://www.linkedin.com/company/acme")]
                [] ] ] ].

Definition socials : SocialMedia :=
  <["undefined" := Str "https://www.linkedin.com/company/acme"]>
    (<["twitter" := Str "https://twitter.com/acme"]> ∅).

(** The same card with one link, whose title begins with "__PROTO__". *)
Definition proto : node :=
  html
    [ el "div" (cls "ycdc-card space-y-1.5 sm:w-[300px]")
        [ el "div" (cls "space-x-2")
            [ el "a" [("class", "inline-block w-5 h-5 bg-contain");
                      ("href", "https://example.com/acme");
                      ("title", "__PROTO__ account")] [] ] ] ].

End SocialPages.

Module CsvFiles.

Definition row1 : list (string * string) :=
  [("Company Name", "Acme"); ("YC URL", "https://example.com/companies/acme")].
Definition row2 : list (string * string) :=
  [("Company Name", "Bolt"); ("YC URL", "https://example.com/companies/bolt")].

Definition mismatch : string :=
  "Unexpected Error: column header mismatch expected: 2 columns got: 3".

(** A file whose second row has a cell too many, at which the stream
    stops, and a well-formed one. *)
Definition files : list (string * list stream_event) :=
  [ ("malformed.csv", [data row1; error mismatch]);
    ("companies.csv", [data row1; data row2; end_]) ].

Definition acme : Company :=
  {| companyName := Str "Acme";
     ycUrl := Str "https://example.com/companies/acme" |}.
Definition bolt : Company :=
  {| companyName := Str "Bolt";
     ycUrl := Str "https://example.com/companies/bolt" |}.

(** The company page of Acme is served; the one of Bolt is not. *)
Definition web : list (string * node) :=
  ("https://example.com/companies/acme", LaunchPages.company)
  :: LaunchPages.web.

End CsvFiles.

Module MediaPages.

Import Pages.

(** <body><div class="launch-container"><div>
      <p><img src="/a.png"></p><p>Demo</p>
      <p><iframe src="https://video.example/v"></iframe></p>
      <p><img src="/a.png"></p><p></p>
    </div></div></body> *)
Definition launch : node :=
  html
    [ el "div" (cls "launch-container")
        [ el "div" []
            [ el "p" [] [ el "img" [("src", "/a.png")] [] ];
              el "p" [] [Text "Demo"];
              el "p" [] [ el "iframe" [("src", "https://video.example/v")] [] ];
              el "p" [] [ el "img" [("src", "/a.png")] [] ];
              el "p" [] [] ] ] ].

Definition web : list (string * node) :=
  [ ("https://example.com/launches/media", launch) ].

Definition launch_page : LaunchPage :=
  {| votes := Num (Int 0); createdAt := undefined;
     post := "https://example.com/a.png Demo https://video.example/v "
             +:+ "https://example.com/a.png ";
     sources := ["https://example.com/a.png"; "https://video.example/v"] |}.

End MediaPages.

Module FounderPages.

Import Pages.

(** <body><div class="ycdc-card shrink-0 space-y-1.5 sm:w-[300px]">
      <div class="leading-snug">
        <div class="font-bold">Ada</div><div>CEO</div>
      </div></div></body> *)
Definition no_image : node :=
  html
    [ el "div" (cls "ycdc-card shrink-0 space-y-1.5 sm:w-[300px]")
        [ el "div" (cls "leading-snug")
            [ el "div" (cls "font-bold") [Text "Ada"];
              el "div" [] [Text "CEO"] ] ] ].

Definition ada : Founder :=
  founder_object (Str "Ada") undefined (Str "CEO") null ∅.

End FounderPages.

(* ===================================================================== *)
(** ** More of what the properties are stated with                        *)
(* ===================================================================== *)

(** The string is made of white space only. *)
Fixpoint all_ws (s : string) : bool :=
  match s with
  | "" => true
  | String c r => is_ws c && all_ws r
  end.

(** [null], or a string that is not empty and neither begins nor ends with
    white space. *)
Definition trimmed_or_null (v : value) : Prop :=
  v = null ∨ ∃ s, v = Str s ∧ first_solid s = true ∧ last_solid s = true.

(** The text that a text extractor selects: [null] is returned for it
    exactly when it is made of white space only. *)
Definition null_iff_blank (v : value) (selected : string) : Prop :=
  v = null ↔ all_ws selected = true.

Definition is_data (ev : stream_event) : bool :=
  match ev with
  | data _ => true
  | _ => false
  end.

(** The rows among the events of a stream. *)
Definition rows_of (events : list stream_event)
  : list (list (string * string)) :=
  omap (fun ev => match ev with data row => Some row | _ => None end) events.

(* ===================================================================== *)
(** ** processCompanyList                                                 *)
(* ===================================================================== *)

(** Why a run of [processCompanyList] fails: the promise of
    [parseCompanyList] is rejected, the output directory cannot be created,
    [scrapeCompanyPages] throws, or the output file cannot be written. *)
Inductive failure :=
  | parse_failed (e : string)
  | createDir_failed
  | scrape_failed (e : JS.error)
  | writeFile_failed.

(** How a run ends: the promise of [parseCompanyList] is never settled, so
    that the run does not get past its first [await]; it fails; or it has
    written the scraped records, serialized by [JSON.stringify], to the
    output file. *)
Inductive run :=
  | Hangs
  | Fails (f : failure)
  | Written (scrapedData : list Startup).

Section ProcessCompanyList.

Context `{Runtime}.

(** The entry point.  [csvPath] is the path it computes for the input
    file; [createDir] and [writeFile] tell whether creating the output
    directory and writing the output file succeed. *)
Definition processCompanyList (csvPath : string) (createDir writeFile : bool)
  : run :=
  match parseCompanyList csvPath with
  | Pending => Hangs
  | Rejected e => Fails (parse_failed e)
  | Resolved companies =>
      if createDir then
        match scrapeCompanyPages companies with
        | Ok scrapedData =>
            if writeFile then Written scrapedData else Fails writeFile_failed
        | Throw e => Fails (scrape_failed e)
        end
      else Fails createDir_failed
  end.

End ProcessCompanyList.

(* ===================================================================== *)
(** ** The domain cart (challenge-3)                                      *)
(* ===================================================================== *)

(** The state and the handlers of the [Challenge] component, which call
    [normalizedData], and the handler of [EditModal].  A handler is a
    function from the state of the component to its next state; the
    notifications it shows are added to the state. *)
Module Shop.

Record Domain := { domain : string; status : string }.

(** [STATUS] and [TLD_PRIORITY] of lib/constants. *)
Definition AVAILABLE : string := "Available".
Definition TAKEN : string := "Taken".
Definition TLD_PRIORITY : list (string * Z) :=
  [("com", 0%Z); ("app", 1%Z); ("xyz", 2%Z)].

Definition normalizedData (data : string) : string :=
  toLowerCase (trim data).

(** [s.endsWith(suffix)] *)
Fixpoint endsWith (s suffix : string) : bool :=
  String.eqb s suffix
  || match s with
     | "" => false
     | String _ r => endsWith r suffix
     end.

(** [[a-zA-Z0-9-]] *)
Definition is_label_char (c : ascii) : bool :=
  ((97 <=? code c) && (code c <=? 122)
   || (65 <=? code c) && (code c <=? 90)
   || (48 <=? code c) && (code c <=? 57)
   || (code c =? 45))%N.

(** What is left of [s] after its longest prefix of label characters. *)
Fixpoint after_label (s : string) : string :=
  match s with
  | "" => ""
  | String c r => if is_label_char c then after_label r else s
  end.

Definition starts_label (s : string) : bool :=
  match s with
  | String c _ => is_label_char c
  | "" => false
  end.

(** [/^[a-zA-Z0-9-]+(\.[a-zA-Z0-9-]+)?$/.test(s)] *)
Definition domain_regex (s : string) : bool :=
  starts_label s
  && match after_label s with
     | "" => true
     | String c r =>
         Ascii.eqb c "." && starts_label r && String.eqb (after_label r) ""
     end.

Definition isValidDomain (domain : string) : bool :=
  let trimmedDomain := normalizedData domain in
  let validTLDs := [".com"; ".xyz"; ".app"] in
  existsb (fun tld => endsWith trimmedDomain tld) validTLDs
  && domain_regex trimmedDomain.

(** A call of [notification]. *)
Record toast := { title : string; description : string; kind : string }.

Definition notification (title description kind : string) : toast :=
  {| title := title; description := description; kind := kind |}.

(** [handleErrors]: [inl] is the notification it shows when it returns
    [undefined], [inr] the normalized value it returns otherwise. *)
Definition handleErrors (maxDomains : nat) (cart : list Domain)
    (value : string) : toast + string :=
  let normalized := normalizedData value in
  if String.eqb normalized "" then
    inl (notification "Empty Domain" "Please enter a domain" "error")
  else if maxDomains <=? length cart then
    inl (notification "Max Domains"
           ("You have reached the max number of domains ("
            +:+ pretty (N.of_nat maxDomains) +:+ ")") "error")
  else if existsb (fun item => String.eqb (domain item) normalized) cart then
    inl (notification "Duplicate Domain"
           "You have already added this domain" "error")
  else if includes "https://" normalized || includes "http://" normalized then
    inl (notification "Invalid Domain"
           "Please remove http and https from the domain" "error")
  else if negb (isValidDomain normalized) then
    inl (notification "Invalid Domain" "Please enter a valid domain" "error")
  else inr normalized.

(** The state of the component.  While [addToCart] waits for
    [isDomainAvailable], [adding] holds the value it will add and
    [captured] the cart array that its closure holds; [aliased] tells
    whether that array is still the array of the state, so that sorting
    the one in place sorts the other. *)
Record ui := {
  inputValue : string;
  cart : list Domain;
  isValidateLoading : bool;
  adding : option string;
  captured : list Domain;
  aliased : bool;
  toasts : list toast
}.

Definition initial : ui :=
  {| inputValue := ""; cart := []; isValidateLoading := false;
     adding := None; captured := []; aliased := false; toasts := [] |}.

(** [setCart(newCart)] and [notification(...)]: the state gets a new
    array. *)
Definition setCart (newCart : list Domain) (st : ui) : ui :=
  {| inputValue := inputValue st; cart := newCart;
     isValidateLoading := isValidateLoading st; adding := adding st;
     captured := captured st; aliased := false; toasts := toasts st |}.

Definition notify (t : toast) (st : ui) : ui :=
  {| inputValue := inputValue st; cart := cart st;
     isValidateLoading := isValidateLoading st; adding := adding st;
     captured := captured st; aliased := aliased st;
     toasts := toasts st ++ [t] |}.

Definition updateInputValue (text : string) (st : ui) : ui :=
  {| inputValue := text; cart := cart st;
     isValidateLoading := isValidateLoading st; adding := adding st;
     captured := captured st; aliased := aliased st; toasts := toasts st |}.

(** [addToCart] up to its [await]. *)
Definition addToCart (maxDomains : nat) (st : ui) : ui :=
  match handleErrors maxDomains (cart st) (inputValue st) with
  | inl t => notify t st
  | inr value =>
      if String.eqb value "" then st
      else {| inputValue := ""; cart := cart st; isValidateLoading := true;
              adding := Some value; captured := cart st; aliased := true;
              toasts := toasts st |}
  end.

(** [addToCart] from its [await] on, once [isDomainAvailable] has resolved
    to [available]. *)
Definition addToCart_resume (available : bool) (st : ui) : ui :=
  match adding st with
  | Some value =>
      let status := if available then AVAILABLE else TAKEN in
      notify (notification "Domain Added" "Your domain has been added"
                "success")
        {| inputValue := inputValue st;
           cart := captured st ++ [{| domain := value; status := status |}];
           isValidateLoading := false; adding := None; captured := [];
           aliased := false; toasts := toasts st |}
  | None => st
  end.

Definition removeFromCart (d : string) (st : ui) : ui :=
  notify (notification "Domain Removed" "Your domain has been removed"
            "success")
    (setCart (List.filter (fun item => negb (String.eqb (domain item) d))
                (cart st)) st).

Definition empty_cart : toast :=
  notification "Empty Cart" "Your cart is empty" "error".

Definition clearCart (st : ui) : ui :=
  if length (cart st) =? 0 then notify empty_cart st
  else notify (notification "Cart Cleared" "Your cart has been cleared"
                 "success") (setCart [] st).

Definition purchaseDomains (maxDomains : nat) (st : ui) : ui :=
  if length (cart st) =? 0 then notify empty_cart st
  else if existsb (fun item => String.eqb (status item) TAKEN) (cart st) then
    notify (notification "Unavailable Domains"
              "Please remove all unavailable domains from your cart" "error")
      st
  else if maxDomains <? length (cart st) then
    notify (notification "Max Domains"
              ("Please remove "
               +:+ pretty (N.of_nat (length (cart st) - maxDomains))
               +:+ " domains from your cart") "error") st
  else notify (notification "Domains Purchased"
                 "Your domains have been purchased" "success")
         (setCart [] st).

Definition removeUnavailableDomains (st : ui) : ui :=
  if length (cart st) =? 0 then notify empty_cart st
  else if forallb (fun item => String.eqb (status item) AVAILABLE) (cart st)
  then notify (notification "No Unavailable Domains"
                 "All domains are available" "success") st
  else
    let updatedCart :=
      List.filter (fun item => String.eqb (status item) AVAILABLE) (cart st) in
    notify (notification "Unavailable Domains Removed"
              "Your unavailable domains have been removed" "success")
      (setCart updatedCart st).

(** [TLD_PRIORITY[ending]] as an operand of a subtraction: NaN when the
    table has no number for the ending. *)
Definition priority (ending : string) : number :=
  match List.find (fun '(tld, _) => String.eqb tld ending) TLD_PRIORITY with
  | Some (_, p) => Int p
  | None => NaN
  end.

(** [a - b] *)
Definition sub (a b : number) : number :=
  match a, b with
  | Int x, Int y => to_double (x - y)
  | Infinity negative, Int _ => Infinity negative
  | Int _, Infinity negative => Infinity (negb negative)
  | Infinity negative, Infinity negative' =>
      if Bool.eqb negative negative' then NaN else Infinity negative
  | _, _ => NaN
  end.

(** [domain.split(".").pop() || ""] *)
Definition ending (d : string) : string := List.last (split "." d) "".

(** The comparison function that [keepBestDomains] sorts with. *)
Definition compare_domains (a b : Domain) : number :=
  let aEnding := ending (domain a) in
  let bEnding := ending (domain b) in
  let endingComparison := sub (priority aEnding) (priority bEnding) in
  if negb (bool_decide (endingComparison = Int 0)) then endingComparison
  else Int (Z.of_nat (String.length (domain a))
            - Z.of_nat (String.length (domain b))).

(** [v > 0] *)
Definition positive (v : number) : bool :=
  match v with
  | Int z => (0 <? z)%Z
  | Infinity negative => negb negative
  | NaN => false
  end.

(** [array.sort(compare)]: a stable sort, here by insertion.  An element
    goes behind its neighbour only when the comparison of the two is
    positive. *)
Fixpoint insert_sorted (compare : Domain → Domain → number) (x : Domain)
    (l : list Domain) : list Domain :=
  match l with
  | [] => [x]
  | y :: l' =>
      if positive (compare x y) then y :: insert_sorted compare x l'
      else x :: l
  end.

Definition sort (compare : Domain → Domain → number) (l : list Domain)
  : list Domain :=
  foldr (insert_sorted compare) [] l.

(** [keepBestDomains(cart, numDomainsRequired)]: the array it returns,
    the array [cart] after the call (which [sort] has sorted in place),
    and the notification it shows, if any. *)
Definition keepBestDomains (cart : list Domain) (numDomainsRequired : nat)
  : list Domain * list Domain * option toast :=
  if length cart =? 0 then ([], cart, Some empty_cart)
  else
    let sortedDomains := sort compare_domains cart in
    let bestDomains := take numDomainsRequired sortedDomains in
    (bestDomains, sortedDomains, None).

(** The click on "Keep Top Domains":
    [setCart(keepBestDomains(cart, numDomainsRequired))]. *)
Definition keepTopDomains (numDomainsRequired : nat) (st : ui) : ui :=
  let '(bestDomains, sortedCart, shown) :=
    keepBestDomains (cart st) numDomainsRequired in
  let st' :=
    {| inputValue := inputValue st; cart := bestDomains;
       isValidateLoading := isValidateLoading st; adding := adding st;
       captured := if aliased st then sortedCart else captured st;
       aliased := false; toasts := toasts st |} in
  match shown with
  | Some t => notify t st'
  | None => st'
  end.

(** [copyToClipboard]: the text it copies, and the notification. *)
Definition copied_text (cart : list Domain) : string :=
  join ", " (List.map domain cart).

(** [clipboard] tells whether [navigator.clipboard.writeText] could be
    called; the fallback copies through a temporary text area. *)
Definition copyToClipboard (clipboard : bool) (st : ui) : ui :=
  if length (cart st) =? 0 then notify empty_cart st
  else if clipboard
  then notify (notification "Copied"
                 "Your domains have been copied to the clipboard" "success")
         st
  else notify (notification "Copied" "Your domains have been copied"
                 "success") st.

(** [handleEdit] of the modal of the [index]-th item of the cart; the
    state [domain] of the modal holds the text of its input field and the
    status it was opened with.  The item is in the array [cart] that the
    modal was rendered with, so that [indexOf] finds it, at [index]. *)
Definition handleEdit (maxDomains : nat) (index : nat) (domain : Domain)
    (st : ui) : ui :=
  match cart st !! index with
  | None => st
  | Some oldDomain =>
      match handleErrors maxDomains (cart st) (Shop.domain domain) with
      | inl t => notify t st
      | inr validDomain =>
          if String.eqb validDomain "" then st
          else
            let updatedCart :=
              <[index := {| Shop.domain := normalizedData (Shop.domain domain);
                            status := status domain |}]> (cart st) in
            notify (notification "Domain Edited"
                      "Your domain has been edited" "success")
              (setCart updatedCart st)
      end
  end.

(** What the user, or the resolution of [isDomainAvailable], does. *)
Inductive event :=
  | Type_ (text : string)
  | Add
  | Availability (available : bool)
  | Remove (d : string)
  | Clear
  | Purchase
  | RemoveUnavailable
  | KeepTop
  | Copy (clipboard : bool)
  | Edit (index : nat) (modal : Domain).

(** The state after an event.  The input field and the "Add to Cart"
    button are disabled while [isValidateLoading] is set, and the
    "Purchase Domains" button unless the cart has exactly
    [numDomainsRequired] domains: these events then change nothing. *)
Definition step (maxDomains numDomainsRequired : nat) (st : ui) (ev : event)
  : ui :=
  match ev with
  | Type_ text =>
      if isValidateLoading st then st else updateInputValue text st
  | Add => if isValidateLoading st then st else addToCart maxDomains st
  | Availability available => addToCart_resume available st
  | Remove d => removeFromCart d st
  | Clear => clearCart st
  | Purchase =>
      if length (cart st) =? numDomainsRequired
      then purchaseDomains maxDomains st else st
  | RemoveUnavailable => removeUnavailableDomains st
  | KeepTop => keepTopDomains numDomainsRequired st
  | Copy clipboard => copyToClipboard clipboard st
  | Edit index modal => handleEdit maxDomains index modal st
  end.

Definition run_events (maxDomains numDomainsRequired : nat)
    (events : list event) : ui :=
  fold_left (step maxDomains numDomainsRequired) events initial.

End Shop.

(** What the properties of the cart are stated with. *)
Module ShopFacts.

Import Shop.

Definition chars (s : string) : list ascii := String.list_ascii_of_string s.

(** A non-empty string of letters, digits and hyphens. *)
Definition is_label (s : string) : Prop :=
  s ≠ "" ∧ Forall (fun c => is_label_char c = true) (chars s).

(** The name of a domain in the cart as [handleErrors] lets it in: valid,
    and equal to its normalized form. *)
Definition valid_name (v : string) : Prop :=
  isValidDomain v = true ∧ normalizedData v = v.

(** The cart has no domain twice, at most [maxDomains] domains, and valid
    names only. *)
Definition cart_ok (maxDomains : nat) (c : list Domain) : Prop :=
  NoDup (domain <$> c)
  ∧ length c ≤ maxDomains
  ∧ Forall (fun item => valid_name (domain item)) c.

(** The same of the state, and of the cart and the value that a pending
    [addToCart] holds; the array that [addToCart] holds is the array of
    the state as long as [aliased] says so. *)
Definition state_ok (maxDomains : nat) (st : ui) : Prop :=
  cart_ok maxDomains (cart st)
  ∧ (aliased st = true → captured st = cart st)
  ∧ match adding st with
    | Some value =>
        isValidateLoading st = true
        ∧ cart_ok maxDomains (captured st)
        ∧ length (captured st) < maxDomains
        ∧ (value ∉ domain <$> captured st)
        ∧ valid_name value
    | None => True
    end.

(** The priority of the ending of a domain and the length of its name:
    what [keepBestDomains] orders by. *)
Definition rank (d : Domain) : option (Z * Z) :=
  match priority (ending (domain d)) with
  | Int p => Some (p, Z.of_nat (String.length (domain d)))
  | NaN | Infinity _ => None
  end.

(** [a] is at least as good as [b]: a smaller priority number, or the same
    and a name that is not longer. *)
Definition at_least_as_good (a b : Domain) : Prop :=
  ∃ pa la pb lb,
    rank a = Some (pa, la) ∧ rank b = Some (pb, lb)
    ∧ (pa < pb ∨ (pa = pb ∧ la ≤ lb))%Z.

(** Every domain of the list is at least as good as the ones behind it. *)
Definition ordered (l : list Domain) : Prop :=
  ∀ i j a b, i < j → l !! i = Some a → l !! j = Some b →
             at_least_as_good a b.

Definition is_availability (ev : event) : bool :=
  match ev with
  | Availability _ => true
  | _ => false
  end.

End ShopFacts.

(** More example pages, and example carts. *)
Module MorePages.

Import Pages.

(** <body><div class="align-center flex flex-row flex-wrap gap-y-2 gap-x-2">
      <span class="ycdc-badge">Y Combinator LogoW24</span>
      <span class="ycdc-badge"> Active </span></div></body> *)
Definition badges : node :=
  html
    [ el "div" (cls "align-center flex flex-row flex-wrap gap-y-2 gap-x-2")
        [ el_badge "Y Combinator LogoW24"; el_badge " Active " ] ].

(** <body><div class="ycdc-card space-y-1.5 sm:w-[300px]">
      <div class="space-x-2">
        <a class="inline-block w-5 h-5 bg-contain"
           href="https://twitter.com/acme" title="Twitter account"></a>
        <a class="inline-block w-5 h-5 bg-contain"
           href="https://twitter.com/acme_hq" title="Twitter account"></a>
      </div></div></body> *)
Definition twitter_twice : node :=
  html
    [ el "div" (cls "ycdc-card space-y-1.5 sm:w-[300px]")
        [ el "div" (cls "space-x-2")
            [ el "a" [("class", "inline-block w-5 h-5 bg-contain");
                      ("href", "https://twitter.com/acme");
                      ("title", "Twitter account")] [];
              el "a" [("class", "inline-block w-5 h-5 bg-contain");
                      ("href", "https://twitter.com/acme_hq");
                      ("title", "Twitter account")] [] ] ] ].

(** <body><div class="ycdc-card shrink-0 space-y-1.5 sm:w-[300px]">
      <img src="https://img.example/ada.png">
      <div class="leading-snug">
        <div class="font-bold">Ada</div><div>CEO</div></div>
      <a class="h-5 w-5 bg-contain" href="https://www.linkedin.com/in/ada"
         title="LinkedIn profile"></a></div></body> *)
Definition founder_card : node :=
  html
    [ el "div" (cls "ycdc-card shrink-0 space-y-1.5 sm:w-[300px]")
        [ el "img" [("src", "https://img.example/ada.png")] [];
          el "div" (cls "leading-snug")
            [ el "div" (cls "font-bold") [Text "Ada"];
              el "div" [] [Text "CEO"] ];
          el "a" [("class", "h-5 w-5 bg-contain");
                  ("href", "https://www.linkedin.com/in/ada");
                  ("title", "LinkedIn profile")] [] ] ].

Definition ada : Founder :=
  founder_object (Str "Ada") (Str "https://img.example/ada.png") (Str "CEO")
    null (<["linkedin" := Str "https://www.linkedin.com/in/ada"]> ∅).

(** <body><div class="vote-count-container"><div>^</div><div> 17 </div></div>
    <div class="launch-container"><div><p>Hi</p></div></div></body> *)
Definition voted : node :=
  html
    [ el "div" (cls "vote-count-container")
        [ el "div" [] [Text "^"]; el "div" [] [Text " 17 "] ];
      el "div" (cls "launch-container")
        [ el "div" [] [ el "p" [] [Text "Hi"] ] ] ].

Definition web : list (string * node) :=
  [ ("https://example.com/launches/voted", voted) ].

Definition voted_page : LaunchPage :=
  {| votes := Num (Int 17); createdAt := undefined; post := "Hi";
     sources := [] |}.

End MorePages.

Module Carts.

Import Shop.

Definition item (name status : string) : Domain :=
  {| domain := name; status := status |}.

(** What the user does to add [text] when the availability check answers
    [available]. *)
Definition add (text : string) (available : bool) : list event :=
  [Type_ text; Add; Availability available].

(** A cart of three valid names. *)
Definition three : list Domain :=
  [ item "long-name.xyz" AVAILABLE; item "aa.com" TAKEN;
    item "b.com" AVAILABLE ].

(** A state whose cart is [three]. *)
Definition shopping : ui := setCart three initial.

End Carts.

(** What holds of a job: the role is a string with no white space at
    either end, which may be empty; each of the other fields is [null] or
    a string that is not empty and has no white space at either end. *)
Definition job_ok (job : Job) : Prop :=
  (∃ s, role job = Str s ∧ trim s = s)
  ∧ Forall trimmed_or_null
      [job_location job; salary job; equity job; eligibility job].

(* ===================================================================== *)
(** ** Properties                                                         *)
(* ===================================================================== *)

(** *** The primitives on examples *)

Module Checks.

Import Sel.

Example trim_ex : trim "  42 people
 " = "42 people".
Proof. reflexivity. Qed.

Example split_ex : split " " "LinkedIn profile" = ["LinkedIn"; "profile"].
Proof. reflexivity. Qed.

Example split_ex2 : split "ab" "xabyab" = ["x"; "y"; ""].
Proof. reflexivity. Qed.

Example split_ex3 :
  split marker "Y Combinator LogoW21" = [""; "W21"].
Proof. reflexivity. Qed.

Example parseInt_ex : parseInt " -12px" = Int (-12).
Proof. reflexivity. Qed.

Example parseInt_ex2 : parseInt "~42" = NaN.
Proof. reflexivity. Qed.

Example parseInt_ex3 :
  parseInt "9007199254740993" = Int 9007199254740992.
Proof. vm_compute. reflexivity. Qed.

Example parseInt_ex4 :
  parseInt "12345678901234567890" = Int 12345678901234567168.
Proof. vm_compute. reflexivity. Qed.

Example to_double_ex1 :
  to_double (2 ^ 1024 - 2 ^ 970 - 1) = Int (2 ^ 1024 - 2 ^ 971).
Proof. vm_compute. reflexivity. Qed.

Example to_double_ex2 : to_double (2 ^ 1024 - 2 ^ 970) = Infinity false.
Proof. vm_compute. reflexivity. Qed.

Example to_double_ex3 : to_double (- 10 ^ 309) = Infinity true.
Proof. vm_compute. reflexivity. Qed.

Example proto_ex : getCompanySocials SocialPages.proto = Ok ∅.
Proof. reflexivity. Qed.

Example set_ex : set_to_array ["b"; "a"; "b"; "c"; "a"] = ["b"; "a"; "c"].
Proof. vm_compute. reflexivity. Qed.

Example key_ex : to_string (Num (Int 12)) = "12".
Proof. vm_compute. reflexivity. Qed.

Example toISOString_ex1 : Date.toISOString 0 = "1970-01-01T00:00:00.000Z".
Proof. vm_compute. reflexivity. Qed.

Example toISOString_ex2 :
  Date.toISOString 1709210096789 = "2024-02-29T12:34:56.789Z".
Proof. vm_compute. reflexivity. Qed.

Example toISOString_ex3 :
  Date.toISOString (-1) = "1969-12-31T23:59:59.999Z".
Proof. vm_compute. reflexivity. Qed.

Example date_parse_ex : Ref.parse_date "2024-02-29" = Int 1709164800000.
Proof. vm_compute. reflexivity. Qed.

Example date_parse_ex2 : Ref.parse_date "Yesterday" = NaN.
Proof. vm_compute. reflexivity. Qed.

Example url_ex :
  href <$> Ref.new_url "/img.png" (Some "https://example.com")
  = Some "https://example.com/img.png".
Proof. vm_compute. reflexivity. Qed.

Example url_ex2 :
  (fun u => (protocol u, host u))
    <$> Ref.new_url "https://www.ycombinator.com/companies/x" None
  = Some ("https:", "www.ycombinator.com").
Proof. vm_compute. reflexivity. Qed.

Example camel_ex :
  Ref.camel "Company Name" = "companyName" ∧ Ref.camel "YC URL" = "ycUrl".
Proof. vm_compute. split; reflexivity. Qed.

(** div.a span:contains("Founded:") + span *)
Example select_ex1 :
  query Pages.founded
    (Compound [Tag "div"; Class "a"] ~> [Tag "span"; Contains "Founded:"]
     |+ [Tag "span"])
  = [[2; 0; 1]].
Proof. vm_compute. reflexivity. Qed.

Example select_ex2 :
  text Pages.founded (query Pages.founded (Compound [Tag "span"]))
  = "Founded: 2019 ".
Proof. vm_compute. reflexivity. Qed.

Example select_ex3 :
  find Pages.founded [[0; 1]] (Compound [Tag "span"; LastChild])
  = [[2; 0; 1]].
Proof. vm_compute. reflexivity. Qed.

(** The spans are not children of the body. *)
Example select_ex4 :
  find_with Child Pages.founded [[1]] (Compound [Tag "span"]) = [].
Proof. vm_compute. reflexivity. Qed.

(** Below the div, [div span] selects nothing, since the div itself is
    not below the div; from the root element it selects both spans. *)
Example select_ex5 :
  find Pages.founded [[0; 1]] (Compound [Tag "div"] ~> [Tag "span"]) = []
  ∧ find Pages.founded [[]] (Compound [Tag "div"] ~> [Tag "span"])
    = [[0; 0; 1]; [2; 0; 1]].
Proof. vm_compute. split; reflexivity. Qed.

Example select_ex6 :
  children Pages.founded [[0; 1]; [1]]
  = [[0; 0; 1]; [2; 0; 1]; [0; 1]; [1; 1]].
Proof. vm_compute. reflexivity. Qed.

Example select_ex7 :
  next Pages.founded [[0; 0; 1]; [0; 1]] = [[2; 0; 1]; [1; 1]].
Proof. vm_compute. reflexivity. Qed.

Example getFounded_ex : getFounded NumberPages.approx = null.
Proof. vm_compute. reflexivity. Qed.

Example getBatch_ex :
  getBatch (Pages.html [ Pages.el_badge "Y Combinator LogoW21" ]) = Ok (Str "W21").
Proof. vm_compute. reflexivity. Qed.

End Checks.

(** *** Running code that may throw *)

Lemma bind_Ok {A B} (r : result A) (k : A → result B) (b : B) :
  bind r k = Ok b → ∃ a, r = Ok a ∧ k a = Ok b.
Proof. destruct r as [a|e]; simpl; [eauto | discriminate]. Qed.

Lemma mapM_Ok {A B} (f : A → result B) l ys :
  mapM f l = Ok ys → Forall2 (fun x y => f x = Ok y) l ys.
Proof.
  revert ys. induction l as [|x l IH]; simpl; intros ys Hm.
  - injection Hm as <-. constructor.
  - apply bind_Ok in Hm as (y & Hy & Hm).
    apply bind_Ok in Hm as (ys' & Hys & Hm).
    injection Hm as <-. constructor; auto.
Qed.

Lemma mapM_returns {A B} (f : A → result B) l :
  (∀ x, x ∈ l → ∃ y, f x = Ok y) → ∃ ys, mapM f l = Ok ys.
Proof.
  induction l as [|x l IH]; simpl; intros Hf; [eauto|].
  destruct (Hf x) as [y ->]; [left|]. simpl.
  destruct IH as [ys ->]; [intros; apply Hf; by right|]. simpl. eauto.
Qed.

(** When [f] can only throw [e], and does so on some element, the loop
    throws [e]. *)
Lemma mapM_throws {A B} (f : A → result B) l e x :
  (∀ x e', f x = Throw e' → e' = e) →
  x ∈ l → f x = Throw e → mapM f l = Throw e.
Proof.
  intros Honly Hin Hx. induction l as [|a l IH]; [by inversion Hin|].
  simpl. destruct (f a) as [b|e'] eqn:Ha; simpl.
  - inversion Hin; subst; [congruence|].
    rewrite IH; auto.
  - f_equal. eauto.
Qed.

(** *** Strings *)

Lemma truthy_Str s : truthy (Str s) = true ↔ s ≠ "".
Proof.
  simpl. destruct s; simpl; split; intros; congruence.
Qed.

Lemma or_else_Str_null s :
  or_else (Str s) null = if String.eqb s "" then null else Str s.
Proof. unfold or_else. simpl. by destruct (String.eqb s ""). Qed.

Lemma append_empty s t : s +:+ t = "" → s = "" ∧ t = "".
Proof. destruct s; simpl; [auto | discriminate]. Qed.

Lemma toISOString_nonempty tv : Date.toISOString tv ≠ "".
Proof.
  unfold Date.toISOString.
  destruct (Date.civil_from_days _) as [[y m] d].
  intros Hs.
  repeat (apply append_empty in Hs as [_ Hs]).
  discriminate.
Qed.

(** *** getNews *)

Lemma truthy_attr doc sel a :
  truthy (attr doc sel a) = true → nonempty_string (attr doc sel a).
Proof.
  unfold attr. destruct sel as [|p sel]; [discriminate|].
  destruct (get_node doc p ≫= _) as [v|]; [|discriminate].
  intros Ht%truthy_Str. by exists v.
Qed.

Section NewsProperties.

Context `{Runtime}.

(** The callback of [getNews], case by case. *)
Lemma newsItem_cases doc this :
  newsItem doc this =
  if String.eqb (news_date_text doc this) "" then Ok None
  else match Date_parse (news_date_text doc this) with
       | NaN | Infinity _ => Throw RangeError
       | Int tv =>
           if news_complete doc this
           then Ok (Some {| news_title := Str (news_title_text doc this);
                            news_link := news_href doc this;
                            news_date := Str (Date.toISOString tv) |})
           else Ok None
       end.
Proof.
  unfold newsItem, news_complete, news_date_text, news_title_text, news_href.
  rewrite !or_else_Str_null.
  generalize (trim (text doc (find doc [this] Sel.newsTitle))) as t.
  generalize (attr doc (find doc [this] Sel.newsTitle) "href") as h.
  generalize (trim (text doc (next doc [this]))) as d.
  intros d h t.
  destruct (String.eqb d "") eqn:Hd; simpl.
  - by rewrite !orb_true_r.
  - rewrite Hd. simpl.
    destruct (Date_parse d) as [|tv|negative]; simpl; [done| |done].
    assert (Hiso : truthy (Str (Date.toISOString tv)) = true)
      by (apply truthy_Str, toISOString_nonempty).
    simpl in Hiso. rewrite Hiso. simpl. rewrite orb_false_r, andb_true_r.
    destruct (String.eqb t "") eqn:Ht; simpl; [done|].
    rewrite Ht. simpl.
    unfold or_else. destruct (truthy h) eqn:Hh; simpl; by rewrite ?Hh.
Qed.

Lemma newsItem_only_RangeError doc this e :
  newsItem doc this = Throw e → e = RangeError.
Proof.
  rewrite newsItem_cases.
  destruct (String.eqb _ ""); [done|].
  destruct (Date_parse _); [congruence| |congruence].
  by destruct (news_complete _ _).
Qed.

Lemma newsItem_invalid_date doc this :
  news_date_text doc this ≠ "" →
  Date_parse (news_date_text doc this) = NaN →
  newsItem doc this = Throw RangeError.
Proof.
  intros Hne%String.eqb_neq Hnan. rewrite newsItem_cases.
  by rewrite Hne, Hnan.
Qed.

Lemma newsItem_Ok doc this o :
  newsItem doc this = Ok o →
  (news_complete doc this = false ∧ o = None)
  ∨ (news_complete doc this = true
     ∧ ∃ tv, Date_parse (news_date_text doc this) = Int tv
        ∧ o = Some {| news_title := Str (news_title_text doc this);
                      news_link := news_href doc this;
                      news_date := Str (Date.toISOString tv) |}).
Proof.
  rewrite newsItem_cases. unfold news_complete at 2 3.
  destruct (String.eqb (news_date_text doc this) "") eqn:Hd.
  - intros [= <-]. left. by rewrite andb_false_r.
  - destruct (Date_parse _) as [|tv|negative]; [done| |done].
    destruct (news_complete doc this) eqn:Hc; intros [= <-].
    + right. unfold news_complete in Hc. rewrite Hd in Hc. split; [done|].
      by exists tv.
    + left. unfold news_complete in Hc. by rewrite Hd in Hc.
Qed.

(** Where every date text is empty or recognised by the date parser,
    [getNews] returns. *)
Lemma getNews_returns doc :
  (∀ this, this ∈ query doc Sel.newsItems →
     news_date_text doc this = ""
     ∨ ∃ tv, Date_parse (news_date_text doc this) = Int tv) →
  ∃ items, getNews doc = Ok items.
Proof.
  intros Hd. unfold getNews.
  destruct (mapM_returns (newsItem doc) (query doc Sel.newsItems))
    as [os ->]; [|simpl; eauto].
  intros this Hin. destruct (newsItem doc this) as [o|e] eqn:Hn; [eauto|].
  exfalso. revert Hn. rewrite newsItem_cases.
  destruct (Hd this Hin) as [->|[tv ->]]; [done|].
  destruct (String.eqb _ ""); [done|].
  by destruct (news_complete _ _).
Qed.

(** C1 (as the code behaves): [getNews] throws a RangeError as soon as one
    matched news element is followed by a date text that is not empty and
    that the date parser does not recognise; the exception of
    [toISOString] on the invalid date is not caught. *)
Theorem getNews_throws_on_unparseable_date doc this :
  this ∈ query doc Sel.newsItems →
  news_date_text doc this ≠ "" →
  Date_parse (news_date_text doc this) = NaN →
  getNews doc = Throw RangeError.
Proof.
  intros Hin Hne Hnan. unfold getNews.
  rewrite (mapM_throws (newsItem doc) _ RangeError this); auto.
  - intros x e. apply newsItem_only_RangeError.
  - by apply newsItem_invalid_date.
Qed.

(** C2: every element of the list that [getNews] returns has a title, a
    link and a date that are non-empty strings, and the list holds, in
    document order, exactly one record for each matched element that has a
    title text, a link and a date text; the other matched elements leave
    no entry. *)
Theorem getNews_items_complete doc items :
  getNews doc = Ok items →
  Forall (fun n => nonempty_string (news_title n)
                   ∧ nonempty_string (news_link n)
                   ∧ nonempty_string (news_date n)) items
  ∧ Forall2 (fun this n =>
               news_title n = Str (news_title_text doc this)
               ∧ news_link n = news_href doc this
               ∧ ∃ tv, Date_parse (news_date_text doc this) = Int tv
                       ∧ news_date n = Str (Date.toISOString tv))
      (List.filter (news_complete doc) (query doc Sel.newsItems)) items.
Proof.
  unfold getNews. intros (os & Hos%mapM_Ok & [= <-])%bind_Ok.
  induction Hos as [|this o matched os Ho _ [IH1 IH2]]; simpl.
  - split; constructor.
  - apply newsItem_Ok in Ho as [[Hc ->]|(Hc & tv & Htv & ->)]; rewrite Hc; simpl.
    + by split.
    + split; constructor; auto; simpl.
      * unfold news_complete in Hc.
        apply andb_prop in Hc as [[Ht Hh]%andb_prop Hd].
        repeat split.
        -- eexists; split; [done|]. apply String.eqb_neq. by destruct (String.eqb _ _).
        -- by apply truthy_attr.
        -- eexists; split; [done|]. apply toISOString_nonempty.
      * repeat split; eauto.
Qed.

End NewsProperties.

(** The page [Pages.news_yesterday] makes [getNews] throw. *)
Lemma getNews_throws_witness :
  @getNews (Ref.runtime [] []) Pages.news_yesterday = Throw RangeError.
Proof.
  apply (@getNews_throws_on_unparseable_date (Ref.runtime [] [])
           Pages.news_yesterday [0; 0; 1]).
  - apply list_elem_of_In. vm_compute. left. reflexivity.
  - vm_compute. discriminate.
  - vm_compute. reflexivity.
Defined.

Lemma getNews_items_complete_witness :
  Forall (fun n => nonempty_string (news_title n)
                   ∧ nonempty_string (news_link n)
                   ∧ nonempty_string (news_date n)) news_kept
  ∧ Forall2 (fun this n =>
               news_title n = Str (news_title_text Pages.news this)
               ∧ news_link n = news_href Pages.news this
               ∧ ∃ tv, Ref.parse_date (news_date_text Pages.news this) = Int tv
                       ∧ news_date n = Str (Date.toISOString tv))
      (List.filter (news_complete Pages.news) (query Pages.news Sel.newsItems))
      news_kept.
Proof.
  apply (@getNews_items_complete (Ref.runtime [] []) Pages.news news_kept).
  vm_compute. reflexivity.
Defined.

(** *** getAllLaunchPosts *)

Section LaunchPostProperties.

Context `{Runtime}.

Lemma launchPost_Ok doc baseUrl this entry :
  launchPost doc baseUrl this = Ok entry → launch_entry doc baseUrl this entry.
Proof.
  unfold launchPost, launch_entry, launch_title, launch_href,
    launch_description.
  generalize (trim (text doc (find doc [this] Sel.h3))) as t.
  generalize (attr doc (find doc [this] Sel.readLaunch) "href") as h.
  generalize (trim (text doc (find doc [this] Sel.launchDescription))) as d.
  intros d h t Hl.
  apply bind_Ok in Hl as (l & Hlink & Hl).
  destruct (truthy h) eqn:Hh.
  - apply bind_Ok in Hlink as (l' & Hres & [= <-]).
    destruct (String.eqb t "") eqn:Ht.
    { apply String.eqb_eq in Ht as ->. simpl in Hl. injection Hl as <-. auto. }
    destruct (String.eqb d "") eqn:Hd.
    { apply String.eqb_eq in Hd as ->. simpl in Hl. rewrite Ht in Hl.
      simpl in Hl. injection Hl as <-. auto. }
    destruct (String.eqb l' "") eqn:Hl'.
    { apply String.eqb_eq in Hl' as ->. simpl in Hl. rewrite Ht, Hd in Hl.
      simpl in Hl. injection Hl as <-. auto. }
    simpl in Hl. rewrite Ht, Hd, Hl' in Hl. simpl in Hl.
    apply bind_Ok in Hl as (pg & Hpg & [= <-]). simpl.
    apply String.eqb_neq in Ht, Hd, Hl'.
    repeat split; auto. exists l'. repeat split; auto.
  - injection Hlink as <-. simpl in Hl. rewrite !orb_true_r in Hl.
    injection Hl as <-. auto.
Qed.

(** C3 (amended): [getAllLaunchPosts] returns one entry for each matched
    launch container, in document order.  The entry of a container whose
    title is empty, whose link is absent or whose description is empty is
    [null]: it stays in the list as a placeholder.  Every other entry is a
    record whose title, link and description are non-empty strings. *)
Theorem getAllLaunchPosts_entries doc baseUrl posts :
  getAllLaunchPosts doc baseUrl = Ok posts →
  length posts = length (query doc Sel.companyLaunch)
  ∧ Forall2 (launch_entry doc baseUrl) (query doc Sel.companyLaunch) posts
  ∧ Forall (fun entry =>
              match entry with
              | None => True
              | Some lp => nonempty_string (title lp)
                           ∧ nonempty_string (link lp)
                           ∧ nonempty_string (lp_description lp)
              end) posts.
Proof.
  unfold getAllLaunchPosts. intros Hm%mapM_Ok.
  assert (Hall : Forall2 (launch_entry doc baseUrl)
                   (query doc Sel.companyLaunch) posts).
  { eapply Forall2_impl; [exact Hm|]. intros. by apply launchPost_Ok. }
  split; [symmetry; by eapply Forall2_length|]. split; [done|].
  clear Hm. induction Hall as [|this entry ? ? He _ IH]; constructor; auto.
  destruct entry as [lp|]; [|done]. simpl in He.
  destruct He as (Ht & Htne & Hd & Hdne & lk & Hl & Hlne & _).
  repeat split; eexists; eauto.
Qed.

End LaunchPostProperties.

(** C3 (as stated) fails: the first container of [LaunchPages.company] has
    no title, and its entry in the returned list is [null]. *)
Lemma getAllLaunchPosts_keeps_null :
  query LaunchPages.company Sel.companyLaunch = [[0; 1]; [1; 1]]
  ∧ launch_title LaunchPages.company [0; 1] = ""
  ∧ @getAllLaunchPosts (Ref.runtime LaunchPages.web [])
      LaunchPages.company "https://example.com"
    = Ok [None; Some LaunchPages.launch_post].
Proof. vm_compute. repeat split. Qed.

Lemma getAllLaunchPosts_entries_witness :
  length [None; Some LaunchPages.launch_post]
  = length (query LaunchPages.company Sel.companyLaunch)
  ∧ Forall2 (@launch_entry (Ref.runtime LaunchPages.web [])
               LaunchPages.company "https://example.com")
      (query LaunchPages.company Sel.companyLaunch)
      [None; Some LaunchPages.launch_post]
  ∧ Forall (fun entry =>
              match entry with
              | None => True
              | Some lp => nonempty_string (title lp)
                           ∧ nonempty_string (link lp)
                           ∧ nonempty_string (lp_description lp)
              end) [None; Some LaunchPages.launch_post].
Proof.
  apply (@getAllLaunchPosts_entries (Ref.runtime LaunchPages.web [])).
  vm_compute. reflexivity.
Defined.

(** *** getTeamSize and getNumJobs *)

Lemma digit_not_ws c : is_digit c = true → is_ws c = false.
Proof. destruct c as [[] [] [] [] [] [] [] []]; vm_compute; congruence. Qed.

Lemma trimEnd_head c r :
  trimEnd (String c r) = "" ∨ ∃ r', trimEnd (String c r) = String c r'.
Proof. simpl. destruct (is_ws c && _); eauto. Qed.

(** A trimmed string does not begin with white space. *)
Lemma trim_head s :
  trim s = "" ∨ ∃ c r, trim s = String c r ∧ is_ws c = false.
Proof.
  unfold trim. induction s as [|c s IH]; simpl; [auto|].
  destruct (is_ws c) eqn:Hc; [done|].
  destruct (trimEnd_head c s) as [->|[r' ->]]; eauto.
Qed.

Lemma trimStart_trim s : trimStart (trim s) = trim s.
Proof.
  destruct (trim_head s) as [->|(c & r & -> & Hc)]; [done|].
  simpl. by rewrite Hc.
Qed.

Lemma leading_digits_stop rest acc :
  starts_with_digit rest = false → leading_digits rest acc = acc.
Proof. destruct rest as [|c r]; simpl; [done|]. by intros ->. Qed.

Lemma leading_digits_app ds rest acc :
  all_digits ds = true → starts_with_digit rest = false →
  leading_digits (ds +:+ rest) (Some acc)
  = Some (acc * 10 ^ Z.of_nat (String.length ds) + decimal ds)%Z.
Proof.
  intros Hds Hrest. revert acc.
  induction ds as [|c ds IH]; intros acc; simpl.
  - rewrite leading_digits_stop by done. f_equal. lia.
  - simpl in Hds. apply andb_prop in Hds as [Hc Hds]. rewrite Hc.
    rewrite IH by done. f_equal. simpl.
    rewrite Nat2Z.inj_succ, Z.pow_succ_r by lia. lia.
Qed.

(** *** The Number value of an integer *)

Lemma to_double_small z : (Z.abs z < 2 ^ 53)%Z → to_double z = Int z.
Proof.
  intros Hz%Z.ltb_lt. unfold to_double. cbv zeta. by rewrite Hz.
Qed.

(** Rounding keeps the sign, and only zero gives zero. *)
Lemma to_double_sign z :
  match to_double z with
  | NaN => False
  | Int m => (0 < z ↔ 0 < m)%Z ∧ (z < 0 ↔ m < 0)%Z
  | Infinity negative => negative = (z <? 0)%Z ∧ z ≠ 0%Z
  end.
Proof.
  unfold to_double. cbv zeta.
  destruct (Z.abs z <? 2 ^ 53)%Z eqn:Hsmall; [lia|].
  apply Z.ltb_ge in Hsmall.
  set (a := Z.abs z) in *.
  set (ulp := (2 ^ (Z.log2 a - 52))%Z).
  assert (Ha : (0 < a)%Z) by lia.
  assert (Hlog : (53 ≤ Z.log2 a)%Z).
  { apply Z.log2_le_pow2; lia. }
  assert (Hulp : (0 < ulp)%Z) by (apply Z.pow_pos_nonneg; lia).
  assert (Hq : (0 < a / ulp)%Z).
  { apply Z.div_str_pos. split; [done|].
    pose proof (Z.log2_spec a Ha) as [Hlo _].
    etrans; [|exact Hlo]. apply Z.pow_le_mono_r; lia. }
  assert (Hq' : (0 < (if (2 * (a mod ulp) <? ulp)%Z then a / ulp
                      else if (ulp <? 2 * (a mod ulp))%Z then a / ulp + 1
                           else if Z.even (a / ulp) then a / ulp
                                else a / ulp + 1) * ulp)%Z).
  { apply Z.mul_pos_pos; [|done].
    repeat match goal with |- context [if ?b then _ else _] => destruct b end;
      lia. }
  destruct (2 ^ 1024 <=? _)%Z; [split; [done|lia]|].
  nia.
Qed.

Lemma to_double_not_NaN z : isNaN (to_double z) = false.
Proof.
  pose proof (to_double_sign z) as H. by destruct (to_double z).
Qed.

Lemma to_double_zero z : to_double z = Int 0 ↔ z = 0%Z.
Proof.
  split; [|by intros ->].
  pose proof (to_double_sign z) as H. intros Hz. rewrite Hz in H. lia.
Qed.

Lemma to_double_truthy z : truthy (Num (to_double z)) = negb (z =? 0)%Z.
Proof.
  pose proof (to_double_sign z) as H.
  destruct (to_double z) as [|m|negative]; [done| |].
  - cbn [truthy]. f_equal. apply eq_iff_eq_true.
    rewrite !Z.eqb_eq. lia.
  - cbn [truthy]. destruct H as [_ Hz]. symmetry.
    by apply negb_true_iff, Z.eqb_neq.
Qed.

(** *** parseInt *)

Lemma leading_digits_literal ds rest :
  all_digits ds = true → ds ≠ "" → starts_with_digit rest = false →
  leading_digits (ds +:+ rest) None = Some (decimal ds).
Proof.
  intros Hds Hne Hrest. destruct ds as [|c ds]; [done|]. clear Hne.
  pose proof Hds as Hds'. simpl in Hds'. apply andb_prop in Hds' as [Hc Hds'].
  change (String c ds +:+ rest) with (String c (ds +:+ rest)).
  cbn [leading_digits]. rewrite Hc.
  rewrite leading_digits_app by done. f_equal; simpl; lia.
Qed.

(** [parseInt] on a text that begins with an integer: a sign or none,
    digits, and something that is not a digit. *)
Lemma parseInt_integer sign ds rest :
  sign ∈ [""; "+"; "-"] →
  all_digits ds = true → ds ≠ "" → starts_with_digit rest = false →
  parseInt (sign +:+ ds +:+ rest) = to_double (signed sign (decimal ds)).
Proof.
  intros Hsign Hds Hne Hrest.
  pose proof (leading_digits_literal ds rest Hds Hne Hrest) as Hlead.
  apply elem_of_cons in Hsign as [->|Hsign];
    [|apply elem_of_cons in Hsign as [->|Hsign];
      [|apply list_elem_of_singleton in Hsign as ->]].
  - change ("" +:+ ds +:+ rest) with (ds +:+ rest).
    destruct ds as [|c ds]; [done|].
    pose proof Hds as Hds'. simpl in Hds'.
    apply andb_prop in Hds' as [Hc _].
    unfold parseInt.
    change (String c ds +:+ rest) with (String c (ds +:+ rest)) in *.
    cbn [trimStart]. rewrite (digit_not_ws c Hc).
    assert (Hs : match String c (ds +:+ rest) with
                 | String "-" r => ((-1)%Z, r)
                 | String "+" r => (1%Z, r)
                 | _ => (1%Z, String c (ds +:+ rest))
                 end = (1%Z, String c (ds +:+ rest))).
    { destruct c as [[] [] [] [] [] [] [] []]; try reflexivity;
        vm_compute in Hc; discriminate. }
    rewrite Hs, Hlead. unfold signed. cbn [String.eqb]. f_equal; lia.
  - change ("+" +:+ ds +:+ rest) with (String "+" (ds +:+ rest)).
    unfold parseInt. cbn [trimStart].
    change (is_ws "+") with false. cbv iota. rewrite Hlead.
    unfold signed. cbn [String.eqb Ascii.eqb Bool.eqb]. f_equal; lia.
  - change ("-" +:+ ds +:+ rest) with (String "-" (ds +:+ rest)).
    unfold parseInt. cbn [trimStart].
    change (is_ws "-") with false. cbv iota. rewrite Hlead.
    unfold signed. cbn [String.eqb Ascii.eqb Bool.eqb]. f_equal; lia.
Qed.

(** [parseInt] on a text without leading white space that does not begin
    with an integer. *)
Lemma parseInt_NaN s :
  trimStart s = s → starts_with_integer s = false → parseInt s = NaN.
Proof.
  intros Hs Hi. unfold parseInt. rewrite Hs.
  destruct s as [|c r]; [done|]. simpl in Hi.
  apply orb_false_elim in Hi as [Hc Hi].
  destruct (Ascii.eqb c "-") eqn:Hm.
  { apply Ascii.eqb_eq in Hm as ->. simpl in Hi.
    by rewrite leading_digits_stop. }
  destruct (Ascii.eqb c "+") eqn:Hp.
  { apply Ascii.eqb_eq in Hp as ->. simpl in Hi.
    by rewrite leading_digits_stop. }
  assert (Hsign : match String c r with
                  | String "-" r0 => ((-1)%Z, r0)
                  | String "+" r0 => (1%Z, r0)
                  | _ => (1%Z, String c r)
                  end = (1%Z, String c r)).
  { destruct c as [[] [] [] [] [] [] [] []]; try reflexivity;
      vm_compute in Hm, Hp; discriminate. }
  rewrite Hsign. simpl. by rewrite Hc.
Qed.

Lemma strip_non_digits_all_digits s : all_digits (strip_non_digits s) = true.
Proof.
  induction s as [|c s IH]; simpl; [done|].
  destruct (is_digit c) eqn:Hc; simpl; [by rewrite Hc|done].
Qed.

Lemma append_cons c s t : String c s +:+ t = String c (s +:+ t).
Proof. reflexivity. Qed.

Lemma append_nil_r s : s +:+ "" = s.
Proof.
  induction s as [|c s IH]; [done|]. by rewrite append_cons, IH.
Qed.

Lemma decimal_nonneg s : all_digits s = true → (0 ≤ decimal s)%Z.
Proof.
  induction s as [|c s IH]; [done|]. cbn [all_digits decimal].
  intros [Hc Hs]%andb_prop. specialize (IH Hs).
  unfold is_digit in Hc. apply andb_prop in Hc as [Hlo%N.leb_le _].
  assert (0 ≤ 10 ^ Z.of_nat (String.length s))%Z by (apply Z.pow_nonneg; lia).
  nia.
Qed.

Lemma signed_small sign n :
  (0 ≤ n < 2 ^ 53)%Z → to_double (signed sign n) = Int (signed sign n).
Proof.
  intros Hn. apply to_double_small. unfold signed.
  destruct (String.eqb sign "-"); lia.
Qed.

Lemma parseInt_stripped s :
  strip_non_digits s ≠ "" →
  parseInt (strip_non_digits s) = to_double (decimal (strip_non_digits s)).
Proof.
  intros Hne.
  rewrite <- (append_nil_r (strip_non_digits s)) at 1.
  apply (parseInt_integer "" (strip_non_digits s) "");
    [by constructor|apply strip_non_digits_all_digits|done|done].
Qed.

(** A string is its longest prefix of digits and a rest that does not
    begin with a digit. *)
Lemma digits_split s :
  ∃ ds rest, s = ds +:+ rest ∧ all_digits ds = true
             ∧ starts_with_digit rest = false
             ∧ (starts_with_digit s = true → ds ≠ "").
Proof.
  induction s as [|c s (ds & rest & Hs & Hds & Hrest & _)].
  - by exists "", "".
  - destruct (is_digit c) eqn:Hc.
    + exists (String c ds), rest. rewrite append_cons, <- Hs.
      cbn [all_digits]. by rewrite Hc, Hds.
    + exists "", (String c s). cbn [starts_with_digit]. by rewrite Hc.
Qed.

(** A string that begins with an integer is a sign or none, digits, and
    a rest that does not begin with a digit. *)
Lemma integer_prefix s :
  starts_with_integer s = true →
  ∃ sign ds rest,
    sign ∈ [""; "+"; "-"] ∧ all_digits ds = true ∧ ds ≠ ""
    ∧ starts_with_digit rest = false ∧ s = sign +:+ ds +:+ rest.
Proof.
  destruct s as [|c r]; [done|]. cbn [starts_with_integer].
  intros [Hc|[Hsign Hr]%andb_prop]%orb_prop.
  - destruct (digits_split (String c r)) as (ds & rest & Hs & Hds & Hrest & Hne).
    exists "", ds, rest. rewrite Hs.
    split; [by constructor|]. split; [done|]. split; [by apply Hne|done].
  - destruct (digits_split r) as (ds & rest & Hs & Hds & Hrest & Hne).
    apply orb_prop in Hsign as [->%Ascii.eqb_eq| ->%Ascii.eqb_eq].
    + exists "-", ds, rest. rewrite Hs.
      split; [by repeat constructor|]. split; [done|].
      split; [by apply Hne|done].
    + exists "+", ds, rest. rewrite Hs.
      split; [by repeat constructor|]. split; [done|].
      split; [by apply Hne|done].
Qed.

(** C4 (amended): [getTeamSize] does not strip anything: it parses the
    integer at the beginning of the trimmed team-size text, a sign or none
    and then digits, so that a text made of digits followed by other
    characters ("42 people") yields the number the digits write, and a
    text that does not begin with an integer ("~42", "Team Size: 42
    people", the empty text) yields [null]; every text is of one of the
    two kinds.  [getNumJobs] strips the
    non-digit characters first and, when a digit remains, returns the
    number that the remaining digits write.  The number is a double: the
    integer itself below 2^53, and beyond that the nearest double, or an
    infinity. *)
Theorem getTeamSize_getNumJobs_parse doc :
  (∀ sign ds rest,
     sign ∈ [""; "+"; "-"] →
     all_digits ds = true → ds ≠ "" → starts_with_digit rest = false →
     team_size_text doc = sign +:+ ds +:+ rest →
     getTeamSize doc = Num (to_double (signed sign (decimal ds)))
     ∧ ((decimal ds < 2 ^ 53)%Z →
        getTeamSize doc = Num (Int (signed sign (decimal ds)))))
  ∧ (starts_with_integer (team_size_text doc) = true →
     ∃ sign ds rest,
       sign ∈ [""; "+"; "-"] ∧ all_digits ds = true ∧ ds ≠ ""
       ∧ starts_with_digit rest = false
       ∧ team_size_text doc = sign +:+ ds +:+ rest)
  ∧ (starts_with_integer (team_size_text doc) = false →
     getTeamSize doc = null)
  ∧ (strip_non_digits (num_jobs_text doc) ≠ "" →
     getNumJobs doc
     = Num (to_double (decimal (strip_non_digits (num_jobs_text doc))))
     ∧ ((decimal (strip_non_digits (num_jobs_text doc)) < 2 ^ 53)%Z →
        getNumJobs doc
        = Num (Int (decimal (strip_non_digits (num_jobs_text doc)))))).
Proof.
  split; [|split; [apply integer_prefix|split]].
  - intros sign ds rest Hsign Hds Hne Hrest Ht.
    assert (Hg : getTeamSize doc
                 = Num (to_double (signed sign (decimal ds)))).
    { unfold getTeamSize. cbv zeta. fold (team_size_text doc). rewrite Ht.
      rewrite parseInt_integer by done. by rewrite to_double_not_NaN. }
    split; [done|]. intros Hsmall. rewrite Hg, signed_small; [done|].
    split; [by apply decimal_nonneg|done].
  - intros Hi. unfold getTeamSize. fold (team_size_text doc).
    rewrite parseInt_NaN; [done| |done]. apply trimStart_trim.
  - intros Hne.
    assert (Hg : getNumJobs doc
                 = Num (to_double
                          (decimal (strip_non_digits (num_jobs_text doc))))).
    { unfold getNumJobs. cbv zeta. fold (num_jobs_text doc).
      by rewrite parseInt_stripped. }
    split; [done|]. intros Hsmall. rewrite Hg, to_double_small; [done|].
    pose proof (decimal_nonneg _
                  (strip_non_digits_all_digits (num_jobs_text doc))).
    lia.
Qed.

(** C4 (as stated) fails: the team-size text "~42" yields [null], not 42. *)
Lemma getTeamSize_does_not_strip :
  team_size_text NumberPages.approx = "~42"
  ∧ getTeamSize NumberPages.approx = null.
Proof. vm_compute. split; reflexivity. Qed.

Lemma getTeamSize_getNumJobs_parse_witness :
  getTeamSize NumberPages.people = Num (Int 42)
  ∧ getTeamSize NumberPages.approx = null
  ∧ getNumJobs NumberPages.people = Num (Int 3).
Proof.
  split; [|split].
  - apply (proj1 (getTeamSize_getNumJobs_parse NumberPages.people)
             "" "42" " people"); [by constructor|..]; vm_compute; congruence.
  - apply (proj1 (proj2 (proj2
             (getTeamSize_getNumJobs_parse NumberPages.approx)))).
    vm_compute. reflexivity.
  - apply (proj2 (proj2 (proj2
             (getTeamSize_getNumJobs_parse NumberPages.people)))).
    + vm_compute. discriminate.
    + vm_compute. reflexivity.
Defined.

(** *** getCompanySocials *)

Lemma string_of_list_ascii_snoc l c :
  String.string_of_list_ascii (l ++ [c])
  = String.string_of_list_ascii l +:+ String c "".
Proof.
  induction l as [|a l IH]; [done|].
  cbn [app String.string_of_list_ascii]. by rewrite IH.
Qed.

Lemma append_assoc s t u : (s +:+ t) +:+ u = s +:+ (t +:+ u).
Proof.
  induction s as [|c s IH]; [done|]. by rewrite !append_cons, IH.
Qed.

Lemma prefix_space c r :
  String.prefix " " (String c r) = Ascii.eqb c " ".
Proof.
  change (String.prefix " " (String c r))
    with (if Ascii.ascii_dec " " c then String.prefix "" r else false).
  destruct (Ascii.ascii_dec " " c) as [<-|Hne].
  - by destruct r.
  - symmetry. apply Ascii.eqb_neq. congruence.
Qed.

(** [s.split(" ")[0]] is the text before the first space. *)
Lemma split_scan_space_head s cur :
  split_scan " " s 0 cur !! 0
  = Some (String.string_of_list_ascii (rev cur) +:+ first_word s).
Proof.
  revert cur. induction s as [|c r IH]; intros cur.
  - simpl. by rewrite append_nil_r.
  - cbn [split_scan first_word]. rewrite prefix_space.
    destruct (Ascii.eqb c " ").
    + simpl. by rewrite append_nil_r.
    + rewrite IH. cbn [rev]. rewrite string_of_list_ascii_snoc.
      by rewrite append_assoc.
Qed.

Lemma split_space_head s : split " " s !! 0 = Some (first_word s).
Proof. unfold split. simpl. by rewrite split_scan_space_head. Qed.

Lemma platform_of_key doc this :
  ∃ platform, platform_of doc this = Ok platform
              ∧ to_string platform = social_key doc this.
Proof.
  unfold platform_of, social_key.
  destruct (attr doc [this] "title") as [| |n|t]; try (by eexists).
  rewrite split_space_head. simpl. by eexists.
Qed.

Lemma add_social_Ok doc socials this :
  add_social doc (Ok socials) this
  = Ok (assign socials (social_key doc this) (social_href doc this)).
Proof.
  unfold add_social. simpl.
  destruct (platform_of_key doc this) as (p & -> & <-). done.
Qed.

(** The [each] loops that fill a [SocialMedia] object never throw. *)
Lemma fold_add_social doc links socials :
  fold_left (add_social doc) links (Ok socials)
  = Ok (socials_after doc links socials).
Proof.
  revert socials. induction links as [|this links IH]; intros socials; [done|].
  cbn [fold_left]. by rewrite add_social_Ok, IH.
Qed.

Lemma socials_after_cons doc x links socials :
  socials_after doc (x :: links) socials
  = socials_after doc links
      (assign socials (social_key doc x) (social_href doc x)).
Proof. reflexivity. Qed.

(** What an assignment leaves under a name. *)
Lemma assign_lookup (socials : SocialMedia) platform link k :
  assign socials platform link !! k
  = if bool_decide (platform = k ∧ platform ≠ "__proto__") then Some link
    else socials !! k.
Proof.
  unfold assign. destruct (String.eqb platform "__proto__") eqn:Hp.
  - apply String.eqb_eq in Hp. case_bool_decide as Hk; [|done].
    by destruct Hk.
  - apply String.eqb_neq in Hp. case_bool_decide as Hk.
    + destruct Hk as [-> _]. apply lookup_insert_eq.
    + apply lookup_insert_ne. tauto.
Qed.

Lemma socials_after_lookup doc links socials k v :
  socials_after doc links socials !! k = Some v →
  socials !! k = Some v
  ∨ ∃ this, this ∈ links ∧ social_key doc this = k
            ∧ v = social_href doc this.
Proof.
  revert socials. induction links as [|x links IH]; intros socials Hk.
  - by left.
  - rewrite socials_after_cons in Hk.
    apply IH in Hk as [Hk|(this & Hin & Hkey & Hv)].
    + rewrite assign_lookup in Hk. case_bool_decide as Hx.
      * injection Hk as <-. right. exists x.
        split; [left|]. by destruct Hx.
      * by left.
    + right. exists this. split; [by right|done].
Qed.

Lemma socials_after_other doc links socials k :
  (∀ x, x ∈ links → social_key doc x ≠ k) →
  socials_after doc links socials !! k = socials !! k.
Proof.
  revert socials. induction links as [|x links IH]; intros socials Hk; [done|].
  rewrite socials_after_cons.
  rewrite IH by (intros; apply Hk; by right).
  rewrite assign_lookup. case_bool_decide as Hx; [|done].
  destruct Hx as [Hx _]. destruct (Hk x); [left|done].
Qed.

Lemma socials_after_last doc before this after socials :
  social_key doc this ≠ "__proto__" →
  (∀ x, x ∈ after → social_key doc x ≠ social_key doc this) →
  socials_after doc (before ++ this :: after) socials
    !! social_key doc this
  = Some (social_href doc this).
Proof.
  intros Hproto Hafter.
  replace (socials_after doc (before ++ this :: after) socials)
    with (socials_after doc after
            (assign (socials_after doc before socials)
               (social_key doc this) (social_href doc this)))
    by (unfold socials_after; by rewrite fold_left_app).
  rewrite socials_after_other by done. rewrite assign_lookup.
  by case_bool_decide as Hx; [|destruct Hx].
Qed.

(** No assignment makes a property [__proto__]. *)
Lemma socials_after_proto doc links socials :
  socials !! "__proto__" = None →
  socials_after doc links socials !! "__proto__" = None.
Proof.
  revert socials. induction links as [|x links IH]; intros socials Hs; [done|].
  rewrite socials_after_cons. apply IH. rewrite assign_lookup.
  case_bool_decide as Hx; [|done]. by destruct Hx as [-> ?].
Qed.

(** C7 (as the code behaves): [getCompanySocials] does not skip a matched
    link whose title is absent.  It stores the link under the key
    "undefined": the object that it returns has that key, with the [href]
    of the last matched link whose key this is. *)
Theorem getCompanySocials_stores_untitled doc before this after :
  social_links doc = before ++ this :: after →
  attr doc [this] "title" = undefined →
  (∀ x, x ∈ after → social_key doc x ≠ "undefined") →
  ∃ socials,
    getCompanySocials doc = Ok socials
    ∧ socials !! "undefined" = Some (social_href doc this).
Proof.
  intros Hlinks Htitle Hafter. eexists. split; [apply fold_add_social|].
  fold (social_links doc). rewrite Hlinks.
  assert (Hkey : social_key doc this = "undefined")
    by (unfold social_key; by rewrite Htitle).
  rewrite <- Hkey. apply socials_after_last; rewrite Hkey; done.
Qed.

(** On [SocialPages.untitled] the second link has no title, and the
    returned object holds its [href] under "undefined". *)
Lemma getCompanySocials_stores_untitled_witness :
  ∃ socials,
    getCompanySocials SocialPages.untitled = Ok socials
    ∧ socials !! "undefined"
      = Some (Str "https://www.linkedin.com/company/acme").
Proof.
  apply (getCompanySocials_stores_untitled SocialPages.untitled
           [[0; 0; 0; 1]] [1; 0; 0; 1] []).
  - vm_compute. reflexivity.
  - vm_compute. reflexivity.
  - intros x Hx. apply elem_of_nil in Hx. destruct Hx.
Defined.

(** *** parseCompanyList *)

Section ParseProperties.

Context `{Runtime}.

Lemma emit_rows rows st :
  fold_left emit (List.map data rows) st
  = {| companies := companies st ++ List.map company_of rows;
       console := console st;
       returned := returned st |}.
Proof.
  revert st. induction rows as [|row rows IH]; intros st; simpl.
  - rewrite app_nil_r. by destruct st.
  - rewrite IH. simpl. by rewrite <- app_assoc.
Qed.

(** Once the promise is settled, no event changes it. *)
Lemma settled_stays events st :
  returned st ≠ Pending →
  returned (fold_left emit events st) = returned st.
Proof.
  revert st. induction events as [|ev events IH]; intros st Hst; [done|].
  simpl. rewrite IH.
  - destruct ev; simpl; [done| |]; by destruct (returned st).
  - destruct ev; simpl; [done| |]; by destruct (returned st).
Qed.

Lemma console_grows events st line :
  line ∈ console st → line ∈ console (fold_left emit events st).
Proof.
  revert st. induction events as [|ev events IH]; intros st Hst; [done|].
  simpl. apply IH. destruct ev; simpl; [done| |]; set_solver.
Qed.

(** C8 (amended): [parseCompanyList] skips no row.  When the stream of
    the parser emits an error after some rows, as it does for a malformed
    row, the error is logged and the returned promise is rejected with
    it, whatever the stream emits afterwards.  The promise resolves, with
    the records of all the rows, only when the stream ends before any
    error. *)
Theorem parseCompanyList_outcome csvPath :
  (∀ rows e rest,
     parseFile csvPath = List.map data rows ++ error e :: rest →
     parseCompanyList csvPath = Rejected e
     ∧ console_error e ∈ console (run_stream (parseFile csvPath)))
  ∧ (∀ rows rest,
       parseFile csvPath = List.map data rows ++ end_ :: rest →
       parseCompanyList csvPath = Resolved (List.map company_of rows)).
Proof.
  unfold parseCompanyList, run_stream. split.
  - intros rows e rest ->. rewrite fold_left_app, emit_rows. simpl. split.
    + by rewrite settled_stays.
    + apply console_grows. simpl. set_solver.
  - intros rows rest ->. rewrite fold_left_app, emit_rows. simpl.
    by rewrite settled_stays.
Qed.

End ParseProperties.

(** C8 (as stated) fails: the second row of [malformed.csv] is malformed,
    and the promise is rejected instead of resolving with the record of
    the well-formed row. *)
Lemma parseCompanyList_rejects_on_malformed_row :
  @parseFile (Ref.runtime [] CsvFiles.files) "malformed.csv"
  = [data CsvFiles.row1; error CsvFiles.mismatch]
  ∧ @parseCompanyList (Ref.runtime [] CsvFiles.files) "malformed.csv"
    = Rejected CsvFiles.mismatch
  ∧ @parseCompanyList (Ref.runtime [] CsvFiles.files) "malformed.csv"
    ≠ Resolved [CsvFiles.acme].
Proof. vm_compute. repeat split. discriminate. Qed.

Lemma parseCompanyList_outcome_witness :
  @parseCompanyList (Ref.runtime [] CsvFiles.files) "malformed.csv"
  = Rejected CsvFiles.mismatch
  ∧ @parseCompanyList (Ref.runtime [] CsvFiles.files) "companies.csv"
    = Resolved [CsvFiles.acme; CsvFiles.bolt].
Proof.
  split.
  - apply (proj1 (@parseCompanyList_outcome (Ref.runtime [] CsvFiles.files)
                    "malformed.csv")
             [CsvFiles.row1] CsvFiles.mismatch []).
    vm_compute. reflexivity.
  - apply (proj2 (@parseCompanyList_outcome (Ref.runtime [] CsvFiles.files)
                    "companies.csv")
             [CsvFiles.row1; CsvFiles.row2] []).
    vm_compute. reflexivity.
Defined.

(** *** The request handler *)

Section CrawlerProperties.

Context `{Runtime}.

(** The request handler pushes one record, as its last step. *)
Lemma requestHandler_pushes_one doc url scrapedData scrapedData' :
  requestHandler doc url scrapedData = Ok scrapedData' →
  ∃ record, scrapedData' = scrapedData ++ [record].
Proof.
  unfold requestHandler. intros Hr.
  repeat (apply bind_Ok in Hr as (? & _ & Hr)).
  injection Hr as <-. eauto.
Qed.

End CrawlerProperties.

(** *** scrapeLaunchPage *)

Lemma prefix_refl s : String.prefix s s = true.
Proof.
  induction s as [|c s IH]; [done|].
  change (String.prefix (String c s) (String c s))
    with (if Ascii.ascii_dec c c then String.prefix s s else false).
  by destruct (Ascii.ascii_dec c c).
Qed.

Lemma prefix_app u s t :
  String.prefix u s = true → String.prefix u (s +:+ t) = true.
Proof.
  revert s. induction u as [|a u IH]; intros s.
  { intros _. by destruct (s +:+ t). }
  destruct s as [|c s]; [done|]. rewrite append_cons.
  change (String.prefix (String a u) (String c s))
    with (if Ascii.ascii_dec a c then String.prefix u s else false).
  change (String.prefix (String a u) (String c (s +:+ t)))
    with (if Ascii.ascii_dec a c then String.prefix u (s +:+ t) else false).
  destruct (Ascii.ascii_dec a c); [apply IH|done].
Qed.

Lemma includes_unfold u s :
  includes u s
  = String.prefix u s
    || match s with "" => false | String _ r => includes u r end.
Proof. by destruct s. Qed.

Lemma includes_refl s : includes s s = true.
Proof. rewrite includes_unfold, prefix_refl. done. Qed.

Lemma includes_app_l u s t :
  includes u s = true → includes u (s +:+ t) = true.
Proof.
  induction s as [|c s IH]; rewrite (includes_unfold u).
  - rewrite orb_false_r. intros Hp.
    rewrite includes_unfold. by rewrite (prefix_app u "" t Hp).
  - intros [Hp|Hi]%orb_prop; rewrite append_cons, includes_unfold.
    + pose proof (prefix_app u (String c s) t Hp) as Hp'.
      rewrite append_cons in Hp'. by rewrite Hp'.
    + rewrite IH by done. apply orb_true_r.
Qed.

Lemma includes_app_r u s t :
  includes u t = true → includes u (s +:+ t) = true.
Proof.
  intros Ht. induction s as [|c s IH]; [done|].
  rewrite append_cons, includes_unfold, IH. apply orb_true_r.
Qed.

(** Every joined piece occurs in the joined string. *)
Lemma includes_join sep u l : u ∈ l → includes u (join sep l) = true.
Proof.
  induction l as [|x l IH]; intros Hin; [by inversion Hin|].
  destruct l as [|y l].
  - inversion Hin; subst; [apply includes_refl|]. by inversion H1.
  - change (join sep (x :: y :: l)) with (x +:+ sep +:+ join sep (y :: l)).
    inversion Hin; subst.
    + apply includes_app_l, includes_refl.
    + apply includes_app_r, includes_app_r. by apply IH.
Qed.

(** The array that a [Set] is spread into holds the inserted values in the
    order of their first occurrence. *)
Lemma filter_filter_neq (l : list string) x (P : string → bool) :
  P x = false →
  List.filter P (List.filter (fun y => negb (String.eqb y x)) l)
  = List.filter P l.
Proof.
  intros Hx. induction l as [|y l IH]; [done|]. simpl.
  destruct (String.eqb y x) eqn:Hy; simpl.
  - apply String.eqb_eq in Hy as ->. by rewrite Hx.
  - destruct (P y); by rewrite IH.
Qed.

Lemma set_to_array_from seen l :
  fold_left set_add l seen
  = seen ++ List.filter (fun y => negb (bool_decide (y ∈ seen)))
              (first_occurrences l).
Proof.
  revert seen. induction l as [|x l IH]; intros seen.
  - simpl. by rewrite app_nil_r.
  - cbn [fold_left first_occurrences List.filter]. unfold set_add at 2.
    case_bool_decide as Hx; cbn [negb].
    + rewrite IH. f_equal. symmetry. apply filter_filter_neq.
      by rewrite bool_decide_true.
    + rewrite IH, <- app_assoc. f_equal. simpl. f_equal.
      rewrite <- (filter_filter_neq _ x
                    (fun y => negb (bool_decide (y ∈ seen ++ [x]))))
        by (rewrite bool_decide_true; [done|set_solver]).
      apply List.filter_ext_in. intros y Hy.
      apply List.filter_In in Hy as [_ Hy].
      apply negb_true_iff, String.eqb_neq in Hy.
      f_equal. apply bool_decide_ext.
      rewrite elem_of_app, list_elem_of_singleton. tauto.
Qed.

Lemma set_to_array_first_occurrences l :
  set_to_array l = first_occurrences l.
Proof.
  unfold set_to_array. rewrite set_to_array_from. cbn [app].
  induction (first_occurrences l) as [|y l' IH]; [done|].
  cbn [List.filter]. rewrite bool_decide_false by apply not_elem_of_nil.
  cbn [negb]. by rewrite IH.
Qed.

Lemma first_occurrences_elem x l : x ∈ first_occurrences l → x ∈ l.
Proof.
  induction l as [|y l IH]; [done|]. cbn [first_occurrences].
  intros [->|Hin]%elem_of_cons; [left|right].
  apply IH, list_elem_of_In.
  apply list_elem_of_In, List.filter_In in Hin. tauto.
Qed.

Section LaunchPageProperties.

Context `{Runtime}.

Lemma body_fragment_cases doc baseUrl sources element :
  body_fragment doc baseUrl sources element
  = match media_src doc element with
    | Some src =>
        bind (resolve src baseUrl) (fun u => Ok (u, sources ++ [u]))
    | None => Ok (trim (text doc [element]), sources)
    end.
Proof.
  unfold body_fragment, media_src.
  destruct (trim (text doc [element])) as [|c t] eqn:Ht; simpl; [|done].
  destruct (truthy (attr doc (find doc [element] Sel.img) "src")); [done|].
  by destruct (truthy (attr doc (find doc [element] Sel.iframe) "src")).
Qed.

Lemma body_fragments_walk doc baseUrl elements sources fragments pushed :
  body_fragments doc baseUrl sources elements = Ok (fragments, pushed) →
  ∃ urls,
    pushed = sources ++ urls
    ∧ Forall2 (fun src u => resolve src baseUrl = Ok u)
        (omap (media_src doc) elements) urls
    ∧ Forall2 (fragment_of doc baseUrl) elements fragments
    ∧ ∀ u, u ∈ urls → u ∈ fragments.
Proof.
  revert sources fragments pushed.
  induction elements as [|element elements IH]; intros sources fragments pushed.
  - intros [= <- <-]. exists []. rewrite app_nil_r.
    repeat split; try constructor. by inversion 1.
  - cbn [body_fragments]. rewrite body_fragment_cases.
    intros ([frag srcs] & Hfrag & Hrest)%bind_Ok.
    apply bind_Ok in Hrest as ([frags srcs'] & Hrest & [= <- <-]).
    apply IH in Hrest as (urls & -> & Hurls & Hfrags & Hin).
    change (omap (media_src doc) (element :: elements))
      with (match media_src doc element with
            | Some src => src :: omap (media_src doc) elements
            | None => omap (media_src doc) elements
            end).
    destruct (media_src doc element) as [src|] eqn:Hsrc.
    + apply bind_Ok in Hfrag as (u & Hu & [= <- <-]).
      exists (u :: urls). rewrite <- app_assoc. repeat split.
      * by constructor.
      * constructor; [|done]. unfold fragment_of. by rewrite Hsrc.
      * intros x [->|Hx]%elem_of_cons; [left|right; auto].
    + injection Hfrag as <- <-. exists urls. repeat split; auto.
      * constructor; [|done]. unfold fragment_of. by rewrite Hsrc.
      * intros x Hx. right. auto.
Qed.

(** C10: the list of referenced media that [scrapeLaunchPage] returns is
    the sequence of the resolved media URLs of the children of the launch
    body, each once, in the order of its first occurrence; and each URL of
    that list is one of the fragments that the body string joins, so that
    it occurs in the body string. *)
Theorem scrapeLaunchPage_sources url r :
  scrapeLaunchPage url = Ok r →
  ∃ doc baseUrl fragments urls,
    axios_get url = Ok doc
    ∧ getBaseUrl url = Ok baseUrl
    ∧ Forall2 (fun src u => resolve src baseUrl = Ok u)
        (omap (media_src doc) (children doc (query doc Sel.launchBody))) urls
    ∧ Forall2 (fragment_of doc baseUrl)
        (children doc (query doc Sel.launchBody)) fragments
    ∧ post r = join " " fragments
    ∧ sources r = first_occurrences urls
    ∧ ∀ u, u ∈ sources r → u ∈ fragments ∧ includes u (post r) = true.
Proof.
  unfold scrapeLaunchPage.
  intros (doc & Hdoc & Hr)%bind_Ok.
  apply bind_Ok in Hr as (baseUrl & Hbase & Hr).
  apply bind_Ok in Hr as ([fragments pushed] & Hwalk & [= <-]).
  apply body_fragments_walk in Hwalk as (urls & -> & Hurls & Hfrags & Hin).
  exists doc, baseUrl, fragments, urls. cbn [post sources app].
  rewrite set_to_array_first_occurrences.
  repeat split; auto.
  - by apply Hin, first_occurrences_elem.
  - by apply includes_join, Hin, first_occurrences_elem.
Qed.

(** C6: on a launch page whose base URL is https://example.com and whose
    body container has exactly two children, the first with the text
    "Hello" and the second with no text but an image with the source
    "/img.png", [scrapeLaunchPage] produces the body
    "Hello https://example.com/img.png" and the referenced media
    ["https://example.com/img.png"]. *)
Theorem scrapeLaunchPage_hello_image url doc c1 c2 :
  axios_get url = Ok doc →
  getBaseUrl url = Ok "https://example.com" →
  resolve "/img.png" "https://example.com" = Ok "https://example.com/img.png" →
  children doc (query doc Sel.launchBody) = [c1; c2] →
  text doc [c1] = "Hello" →
  text doc [c2] = "" →
  attr doc (find doc [c2] Sel.img) "src" = Str "/img.png" →
  ∃ r, scrapeLaunchPage url = Ok r
       ∧ post r = "Hello https://example.com/img.png"
       ∧ sources r = ["https://example.com/img.png"].
Proof.
  intros Hdoc Hbase Hres Hchildren Hc1 Hc2 Himg.
  unfold scrapeLaunchPage. rewrite Hdoc, Hbase. cbn [bind].
  rewrite Hchildren. cbn [body_fragments].
  rewrite body_fragment_cases. unfold media_src. rewrite Hc1.
  change (trim "Hello") with "Hello".
  cbn [String.eqb Ascii.eqb Bool.eqb bind].
  rewrite body_fragment_cases. unfold media_src. rewrite Hc2, Himg.
  change (trim "") with "".
  cbn [String.eqb truthy negb to_string].
  rewrite Hres. cbn [bind app].
  eexists. split; [reflexivity|]. split; reflexivity.
Qed.

End LaunchPageProperties.

Lemma scrapeLaunchPage_sources_witness :
  ∃ doc baseUrl fragments urls,
    @axios_get (Ref.runtime MediaPages.web [])
      "https://example.com/launches/media" = Ok doc
    ∧ @getBaseUrl (Ref.runtime MediaPages.web [])
        "https://example.com/launches/media" = Ok baseUrl
    ∧ Forall2 (fun src u =>
                 @resolve (Ref.runtime MediaPages.web []) src baseUrl = Ok u)
        (omap (media_src doc) (children doc (query doc Sel.launchBody))) urls
    ∧ Forall2 (@fragment_of (Ref.runtime MediaPages.web []) doc baseUrl)
        (children doc (query doc Sel.launchBody)) fragments
    ∧ post MediaPages.launch_page = join " " fragments
    ∧ sources MediaPages.launch_page = first_occurrences urls
    ∧ ∀ u, u ∈ sources MediaPages.launch_page →
           u ∈ fragments ∧ includes u (post MediaPages.launch_page) = true.
Proof.
  apply (@scrapeLaunchPage_sources (Ref.runtime MediaPages.web [])
           "https://example.com/launches/media" MediaPages.launch_page).
  vm_compute. reflexivity.
Defined.

Lemma scrapeLaunchPage_hello_image_witness :
  ∃ r, @scrapeLaunchPage (Ref.runtime LaunchPages.web [])
         "https://example.com/launches/xyz" = Ok r
       ∧ post r = "Hello https://example.com/img.png"
       ∧ sources r = ["https://example.com/img.png"].
Proof.
  apply (@scrapeLaunchPage_hello_image (Ref.runtime LaunchPages.web [])
           "https://example.com/launches/xyz" LaunchPages.launch
           [0; 0; 0; 1] [1; 0; 0; 1]); vm_compute; reflexivity.
Defined.

(** *** The fields of an assembled record *)

Lemma attr_string_or_undefined doc sel a : string_or_undefined (attr doc sel a).
Proof.
  unfold attr. destruct sel as [|p sel]; [done|].
  by destruct (get_node doc p ≫= _).
Qed.

Lemma or_else_null_ok v :
  string_or_undefined v → string_number_or_null (or_else v null).
Proof. unfold or_else. destruct v as [| |n|s]; try done. by destruct (truthy _). Qed.

Lemma text_or_null_ok doc sel : string_number_or_null (text_or_null doc sel).
Proof. by apply or_else_null_ok. Qed.

Lemma getTeamSize_ok doc : string_number_or_null (getTeamSize doc).
Proof. unfold getTeamSize. by destruct (parseInt _). Qed.

Lemma getCompanyUrl_ok doc : string_number_or_null (getCompanyUrl doc).
Proof.
  unfold getCompanyUrl. destruct (0 <? _); [|done].
  pose proof (attr_string_or_undefined doc (query doc Sel.companyUrl) "href").
  destruct (attr _ _ _) as [| |n|s]; try done. by destruct (truthy _).
Qed.

Lemma getBatch_ok doc v : getBatch doc = Ok v → string_number_or_null v.
Proof.
  unfold getBatch. destruct (0 <? _); [|by intros [= <-]].
  by intros (b & _ & [= <-])%bind_Ok.
Qed.

Lemma getJobs_ok doc :
  Forall (fun job => Forall string_number_or_null (job_fields job))
    (getJobs doc).
Proof.
  unfold getJobs, map_get.
  induction (query doc Sel.jobRows) as [|this l IH]; [constructor|].
  constructor; [|exact IH].
  unfold job_fields. cbn [role job_location salary equity eligibility].
  repeat constructor; apply text_or_null_ok.
Qed.

Lemma lower_char_not_upper_U c : lower_char c ≠ "U"%char.
Proof. destruct c as [[] [] [] [] [] [] [] []]; vm_compute; discriminate. Qed.

(** A lower-cased string is never "imageUrl". *)
Lemma toLowerCase_not_imageUrl s : toLowerCase s ≠ "imageUrl".
Proof.
  do 6 (destruct s as [|? s]; [discriminate|]).
  cbn [toLowerCase]. intros [= _ _ _ _ _ HU _].
  by apply lower_char_not_upper_U in HU.
Qed.

Lemma social_key_not_imageUrl doc this : social_key doc this ≠ "imageUrl".
Proof.
  unfold social_key. destruct (attr doc [this] "title"); try discriminate.
  apply toLowerCase_not_imageUrl.
Qed.

Section RecordProperties.

Context `{Runtime}.

Lemma founder_of_card_ok doc founderCard description founder :
  string_null_or_undefined description →
  founder_of_card doc founderCard description = Ok founder →
  founder_fields_ok founder.
Proof.
  unfold founder_of_card. intros Hd. rewrite fold_add_social.
  intros [= <-]. unfold founder_object.
  set (socials := socials_after doc _ ∅).
  set (imageUrl := attr doc (find doc founderCard Sel.img) "src").
  assert (Hnone : socials !! "imageUrl" = None).
  { destruct (socials !! "imageUrl") as [v|] eqn:Hv; [|done].
    apply socials_after_lookup in Hv as [Hv|(this & _ & Hk & _)].
    - by rewrite lookup_empty in Hv.
    - by apply social_key_not_imageUrl in Hk. }
  split.
  - exists imageUrl. split; [|apply attr_string_or_undefined].
    rewrite lookup_union_r by done.
    rewrite lookup_insert_ne by done. by rewrite lookup_insert_eq.
  - intros k v [Hv|[_ Hv]]%lookup_union_Some_raw.
    + apply socials_after_lookup in Hv as [Hv|(this & _ & _ & ->)].
      * by rewrite lookup_empty in Hv.
      * unfold social_href.
        pose proof (attr_string_or_undefined doc [this] "href") as Ha.
        by destruct (attr doc [this] "href").
    + repeat (rewrite lookup_insert in Hv; case_decide;
              [injection Hv as <-|]); try done.
      subst imageUrl.
      pose proof (attr_string_or_undefined doc
                    (find doc founderCard Sel.img) "src") as Ha.
      by destruct (attr _ _ _).
Qed.

Lemma getFounders_ok doc founders :
  getFounders doc = Ok founders → Forall founder_fields_ok founders.
Proof.
  unfold getFounders. destruct (0 <? _); intros Hm%mapM_Ok.
  - induction Hm as [|this f ? ? Hf _ IH]; constructor; [|done].
    eapply founder_of_card_ok; [|exact Hf].
    unfold text_or_null. rewrite or_else_Str_null. by destruct (String.eqb _ _).
  - induction Hm as [|this f ? ? Hf _ IH]; constructor; [|done].
    by eapply founder_of_card_ok; [|exact Hf].
Qed.

Lemma getNews_ok doc items :
  getNews doc = Ok items →
  Forall (fun n => Forall string_number_or_null (news_fields n)) items.
Proof.
  unfold getNews. intros (os & Hos%mapM_Ok & [= <-])%bind_Ok.
  induction Hos as [|this o ? ? Ho _ IH]; [constructor|].
  apply newsItem_Ok in Ho as [[_ ->]|(Hc & tv & _ & ->)]; [done|].
  change (omap id (Some ?n :: ?l)) with (n :: omap id l).
  constructor; [|done]. unfold news_fields, news_complete, news_href in *.
  cbn [news_title news_link news_date].
  apply andb_prop in Hc as [[_ Hh]%andb_prop _].
  apply truthy_attr in Hh as (s & -> & _). by repeat constructor.
Qed.

Lemma scrapeLaunchPage_ok url r :
  scrapeLaunchPage url = Ok r →
  string_number_or_null (votes r) ∧ string_or_undefined (createdAt r).
Proof.
  unfold scrapeLaunchPage.
  intros (doc & _ & Hr)%bind_Ok.
  apply bind_Ok in Hr as (baseUrl & _ & Hr).
  apply bind_Ok in Hr as ([fragments pushed] & _ & [= <-]).
  cbn [votes createdAt]. split; [|apply attr_string_or_undefined].
  destruct (parseInt _) as [|z|negative]; [done|..]; cbn [isNaN];
    by destruct (truthy _).
Qed.

Lemma getAllLaunchPosts_ok doc baseUrl posts :
  getAllLaunchPosts doc baseUrl = Ok posts → Forall launch_fields_ok posts.
Proof.
  unfold getAllLaunchPosts. intros Hm%mapM_Ok.
  induction Hm as [|this entry ? ? He _ IH]; constructor; [|done].
  apply launchPost_Ok in He. destruct entry as [lp|]; [|done].
  destruct He as (Ht & _ & Hd & _ & lk & Hl & _ & _ & _ & Hpage).
  apply scrapeLaunchPage_ok in Hpage as [Hv Hc].
  unfold launch_fields_ok. rewrite Ht, Hd, Hl.
  split; [|done]. by repeat constructor.
Qed.

(** C5 (amended): in every record that the request handler pushes, the
    scalar fields other than [numJobs] hold a string, a number or [null],
    and so do the fields of the jobs, of the news items and of the launch
    posts other than [createdAt].  A launch post's [createdAt] and a
    founder's [imageUrl] hold what the attribute read gives: a string, or
    [undefined] when the attribute is absent; the other fields of a founder
    hold a string, [null] or [undefined]. *)
Theorem requestHandler_fields doc request_url scrapedData scrapedData' :
  requestHandler doc request_url scrapedData = Ok scrapedData' →
  ∃ record,
    scrapedData' = scrapedData ++ [record]
    ∧ Forall string_number_or_null (scalar_fields record)
    ∧ Forall (fun job => Forall string_number_or_null (job_fields job))
        (jobs record)
    ∧ Forall (fun n => Forall string_number_or_null (news_fields n))
        (news record)
    ∧ Forall launch_fields_ok (launchPosts record)
    ∧ Forall founder_fields_ok (founders record).
Proof.
  unfold requestHandler. intros Hr.
  apply bind_Ok in Hr as (fs & Hfs & Hr).
  apply bind_Ok in Hr as (sm & _ & Hr).
  apply bind_Ok in Hr as (bs & _ & Hr).
  apply bind_Ok in Hr as (yb & Hyb & Hr).
  apply bind_Ok in Hr as (ns & Hns & Hr).
  apply bind_Ok in Hr as (lps & Hlps & Hr).
  apply bind_Ok in Hlps as (baseUrl & _ & Hlps).
  injection Hr as <-. eexists. split; [reflexivity|].
  unfold scalar_fields.
  cbn [name st_ycUrl shortDescription description logo banner founded
       teamSize location url ycBatch jobs news launchPosts founders].
  split; [|split; [|split; [|split]]].
  - assert (Hyb' := getBatch_ok _ _ Hyb).
    repeat constructor;
      auto using getTeamSize_ok, getCompanyUrl_ok;
      try apply text_or_null_ok;
      apply or_else_null_ok; try done; apply attr_string_or_undefined.
  - apply getJobs_ok.
  - by eapply getNews_ok.
  - by eapply getAllLaunchPosts_ok.
  - by eapply getFounders_ok.
Qed.

End RecordProperties.

(** C5 (as stated) fails: the founder card of [FounderPages.no_image] has
    no image, and in the record pushed for that page the founder's
    [imageUrl] is [undefined]. *)
Lemma requestHandler_founder_imageUrl_undefined :
  ∃ record,
    @requestHandler (Ref.runtime [] []) FounderPages.no_image
      "https://example.com/companies/ada" [] = Ok [record]
    ∧ founders record = [FounderPages.ada]
    ∧ FounderPages.ada !! "imageUrl" = Some undefined
    ∧ ¬ string_number_or_null undefined.
Proof.
  eexists. split; [vm_compute; reflexivity|].
  cbn [founders]. split; [vm_compute; reflexivity|].
  split; [vm_compute; reflexivity|]. intros [].
Qed.

Lemma requestHandler_fields_witness :
  ∃ scrapedData' record,
    @requestHandler (Ref.runtime CsvFiles.web []) LaunchPages.company
      "https://example.com/companies/acme" [] = Ok scrapedData'
    ∧ scrapedData' = [] ++ [record]
    ∧ Forall string_number_or_null (scalar_fields record)
    ∧ Forall (fun job => Forall string_number_or_null (job_fields job))
        (jobs record)
    ∧ Forall (fun n => Forall string_number_or_null (news_fields n))
        (news record)
    ∧ Forall launch_fields_ok (launchPosts record)
    ∧ Forall founder_fields_ok (founders record).
Proof.
  destruct (@requestHandler (Ref.runtime CsvFiles.web []) LaunchPages.company
              "https://example.com/companies/acme" [])
    as [scrapedData'|e] eqn:Hr; [|vm_compute in Hr; discriminate].
  destruct (@requestHandler_fields (Ref.runtime CsvFiles.web []) _ _ _ _ Hr)
    as (record & Hpush & Hfields).
  exists scrapedData', record. split; [reflexivity|]. split; assumption.
Defined.

(** *** The extractors other than getNews return *)

Lemma prefix_cons a u c s :
  String.prefix (String a u) (String c s)
  = if Ascii.ascii_dec a c then String.prefix u s else false.
Proof. reflexivity. Qed.

Lemma prefix_nil_r m : String.prefix m "" = true → m = "".
Proof. by destruct m. Qed.

Lemma includes_nil_r m : includes m "" = true → m = "".
Proof. rewrite includes_unfold, orb_false_r. apply prefix_nil_r. Qed.

Lemma includes_cons m c s :
  includes m s = true → includes m (String c s) = true.
Proof. intros Hi. rewrite includes_unfold, Hi. apply orb_true_r. Qed.

Lemma includes_trimStart m s :
  first_solid m = true → includes m s = true →
  includes m (trimStart s) = true.
Proof.
  intros Hm. destruct m as [|a m]; [done|]. simpl in Hm.
  induction s as [|c s IH]; [done|].
  cbn [trimStart]. destruct (is_ws c) eqn:Hc; [|done].
  rewrite includes_unfold, prefix_cons.
  destruct (Ascii.ascii_dec a c) as [->|_]; [by rewrite Hc in Hm|].
  apply IH.
Qed.

Lemma trimEnd_cons c s :
  trimEnd s ≠ "" ∨ is_ws c = false →
  trimEnd (String c s) = String c (trimEnd s).
Proof.
  cbn [trimEnd]. intros [Hs|Hc].
  - apply String.eqb_neq in Hs. by rewrite Hs, andb_false_r.
  - by rewrite Hc.
Qed.

Lemma prefix_trimEnd m s :
  last_solid m = true → String.prefix m s = true →
  String.prefix m (trimEnd s) = true.
Proof.
  revert s. induction m as [|a m IH]; intros s Hm; [done|].
  destruct s as [|c s]; [done|]. rewrite prefix_cons.
  destruct (Ascii.ascii_dec a c) as [->|_]; [|done]. intros Hp.
  destruct m as [|b m].
  - simpl in Hm. apply negb_true_iff in Hm.
    rewrite trimEnd_cons by auto. rewrite prefix_cons.
    destruct (Ascii.ascii_dec c c); [|done]. by destruct (trimEnd s).
  - specialize (IH s Hm Hp).
    rewrite trimEnd_cons.
    + rewrite prefix_cons. by destruct (Ascii.ascii_dec c c).
    + left. intros Hs. by rewrite Hs in IH.
Qed.

Lemma includes_trimEnd m s :
  last_solid m = true → includes m s = true →
  includes m (trimEnd s) = true.
Proof.
  intros Hm. induction s as [|c s IH].
  - by intros ->%includes_nil_r.
  - rewrite includes_unfold. intros [Hp|Hi]%orb_prop.
    + rewrite includes_unfold, (prefix_trimEnd _ _ Hm Hp). done.
    + specialize (IH Hi). rewrite trimEnd_cons.
      * by apply includes_cons.
      * left. intros Hs. rewrite Hs in IH.
        apply includes_nil_r in IH. by subst m.
Qed.

(** Trimming keeps an occurrence of a string that neither begins nor ends
    with white space. *)
Lemma includes_trim m s :
  first_solid m = true → last_solid m = true →
  includes m s = true → includes m (trim s) = true.
Proof.
  intros Hf Hl Hi. unfold trim.
  by apply includes_trimEnd, includes_trimStart.
Qed.

Lemma split_scan_nonempty sep s skip cur : split_scan sep s skip cur ≠ [].
Proof.
  revert skip cur. induction s as [|c s IH]; intros skip cur; [done|].
  cbn [split_scan]. destruct skip; [|apply IH].
  destruct (String.prefix sep _); [done|apply IH].
Qed.

(** A string that includes the separator splits into two pieces at
    least. *)
Lemma split_includes sep s :
  sep ≠ "" → includes sep s = true → is_Some (split sep s !! 1).
Proof.
  intros Hsep Hi. unfold split.
  apply String.eqb_neq in Hsep as Hsep'. rewrite Hsep'.
  generalize (@nil ascii) as cur.
  induction s as [|c s IH]; intros cur.
  - by apply includes_nil_r in Hi.
  - cbn [split_scan]. rewrite includes_unfold in Hi.
    destruct (String.prefix sep (String c s)) eqn:Hp.
    + pose proof (split_scan_nonempty sep s (String.length sep - 1) [])
        as Hne.
      destruct (split_scan sep s _ []) as [|y l]; [done|]. by eexists.
    + apply IH. by destruct (includes sep s).
Qed.

Lemma concat_cons x l :
  String.concat "" (x :: l) = x +:+ String.concat "" l.
Proof.
  destruct l as [|y l]; [by rewrite append_nil_r|done].
Qed.

(** The elements that [query] selects satisfy the rightmost compound of
    the selector. *)
Lemma query_contains doc c m p :
  p ∈ query doc (Compound (c ++ [Contains m])) →
  ∃ n, get_node doc p = Some n ∧ includes m (textContent n) = true.
Proof.
  unfold query. intros [_ Hp]%list_elem_of_In%List.filter_In.
  cbn [matches] in Hp. unfold match_compound in Hp.
  destruct (get_node doc p) as [n|]; [|done]. exists n. split; [done|].
  apply andb_prop in Hp as [_ Hp].
  rewrite forallb_app in Hp. apply andb_prop in Hp as [_ Hp].
  cbn in Hp. by rewrite andb_true_r in Hp.
Qed.

Lemma getBatch_text_includes_marker doc :
  query doc Sel.batch ≠ [] →
  includes marker (trim (text doc (query doc Sel.batch))) = true.
Proof.
  intros Hne. apply includes_trim; [done..|].
  destruct (query doc Sel.batch) as [|p sel] eqn:Hq; [done|].
  destruct (query_contains doc [Class "ycdc-badge"] marker p)
    as (n & Hn & Hi).
  { change (p ∈ query doc Sel.batch). rewrite Hq. left. }
  unfold text. cbn [List.map]. rewrite concat_cons, Hn.
  by apply includes_app_l.
Qed.

(** Apart from [getNews], the extractors that read a parsed document never
    throw: the string methods they call are always called on a string. *)
Lemma extractors_return `{Runtime} doc :
  (∃ socials, getCompanySocials doc = Ok socials)
  ∧ (∃ badges, getBadges doc = Ok badges)
  ∧ (∃ batch, getBatch doc = Ok batch)
  ∧ (∃ founders, getFounders doc = Ok founders).
Proof.
  repeat split.
  - eexists. apply fold_add_social.
  - apply mapM_returns. intros this _. cbv beta zeta.
    destruct (includes marker (trim (text doc [this]))) eqn:Hi; [|eauto].
    apply (split_includes marker) in Hi as [piece ->]; [|done]. simpl. eauto.
  - unfold getBatch.
    destruct (query doc Sel.batch) as [|p sel] eqn:Hq; [simpl; eauto|].
    cbn [length Nat.ltb Nat.leb].
    destruct (split_includes marker
                (trim (text doc (p :: sel)))) as [piece ->]; [done| |].
    + rewrite <- Hq. apply getBatch_text_includes_marker. by rewrite Hq.
    + simpl. eauto.
  - unfold getFounders. destruct (0 <? _); apply mapM_returns; intros this _;
      unfold founder_of_card; rewrite fold_add_social; simpl; eauto.
Qed.

(* ===================================================================== *)
(** ** Further properties of utils.ts                                     *)
(* ===================================================================== *)

(** *** Trimming *)

Lemma trimStart_blank s : trimStart s = "" ↔ all_ws s = true.
Proof.
  induction s as [|c s IH]; [done|]. cbn [trimStart all_ws].
  destruct (is_ws c); [done|]. split; discriminate.
Qed.

Lemma trimEnd_blank s : trimEnd s = "" ↔ all_ws s = true.
Proof.
  induction s as [|c s IH]; [done|]. cbn [trimEnd all_ws].
  destruct (is_ws c); cbn [andb].
  - destruct (String.eqb (trimEnd s) "") eqn:He.
    + apply String.eqb_eq in He. split; [intros _; by apply IH|done].
    + apply String.eqb_neq in He. split; [discriminate|].
      intros Hs. by apply IH in Hs.
  - split; discriminate.
Qed.

Lemma all_ws_trimStart s : all_ws (trimStart s) = all_ws s.
Proof.
  induction s as [|c s IH]; [done|]. cbn [trimStart all_ws].
  destruct (is_ws c) eqn:Hc; [done|]. cbn [all_ws]. by rewrite Hc.
Qed.

Lemma trim_blank s : trim s = "" ↔ all_ws s = true.
Proof. unfold trim. by rewrite trimEnd_blank, all_ws_trimStart. Qed.

Lemma trimEnd_last_solid s : trimEnd s = "" ∨ last_solid (trimEnd s) = true.
Proof.
  induction s as [|c s IH]; [by left|]. cbn [trimEnd].
  destruct (is_ws c) eqn:Hc; cbn [andb].
  - destruct (String.eqb (trimEnd s) "") eqn:He; [by left|].
    apply String.eqb_neq in He. destruct IH as [|IH]; [done|]. right.
    cbn [last_solid]. by destruct (trimEnd s).
  - right. destruct IH as [->|IH].
    + cbn [last_solid]. by rewrite Hc.
    + cbn [last_solid]. by destruct (trimEnd s).
Qed.

(** A trimmed string is empty or neither begins nor ends with white
    space. *)
Lemma trim_solid s :
  trim s = "" ∨ (first_solid (trim s) = true ∧ last_solid (trim s) = true).
Proof.
  destruct (trim_head s) as [|(c & r & Ht & Hc)]; [by left|]. right.
  split; [rewrite Ht; cbn [first_solid]; by rewrite Hc|].
  destruct (trimEnd_last_solid (trimStart s)) as [He|He]; [|done].
  unfold trim in Ht. by rewrite He in Ht.
Qed.

Lemma trimStart_id s : first_solid s = true → trimStart s = s.
Proof.
  destruct s as [|c s]; [done|]. cbn [first_solid trimStart].
  by destruct (is_ws c).
Qed.

Lemma trimEnd_id s : last_solid s = true → trimEnd s = s.
Proof.
  induction s as [|c s IH]; [done|]. intros Hs.
  destruct s as [|d s].
  - cbn [last_solid trimEnd] in *. by destruct (is_ws c).
  - rewrite trimEnd_cons; [by rewrite IH|]. left. by rewrite IH.
Qed.

Lemma trim_idempotent s : trim (trim s) = trim s.
Proof.
  destruct (trim_solid s) as [->|[Hf Hl]]; [done|].
  unfold trim at 1. by rewrite trimStart_id, trimEnd_id.
Qed.

Lemma text_or_null_trimmed doc sel :
  trimmed_or_null (text_or_null doc sel)
  ∧ null_iff_blank (text_or_null doc sel) (text doc sel).
Proof.
  unfold text_or_null, null_iff_blank. rewrite or_else_Str_null.
  destruct (String.eqb (trim (text doc sel)) "") eqn:He.
  - apply String.eqb_eq in He. split; [by left|].
    split; [intros _; by apply trim_blank|done].
  - apply String.eqb_neq in He. split.
    + right. eexists. split; [done|].
      by destruct (trim_solid (text doc sel)).
    + split; [done|]. intros Hb. by apply trim_blank in Hb.
Qed.

(** X1: the five text extractors return [null] or a string that is not
    empty and has no white space at either end, and they return [null]
    exactly when the selected text is made of white space only (which
    includes the case that nothing is selected). *)
Theorem text_extractors_trimmed doc :
  Forall (fun '(v, selected) =>
            trimmed_or_null v ∧ null_iff_blank v selected)
    [ (getName doc, text doc (query doc Sel.name));
      (getFounded doc, text doc (query doc (Sel.labelled "Founded:")));
      (getLocation doc, text doc (query doc (Sel.labelled "Location:")));
      (getDescription doc, text doc (query doc Sel.description));
      (getShortDescription doc, text doc (query doc Sel.shortDescription)) ].
Proof.
  repeat (constructor; [exact (text_or_null_trimmed doc _)|]).
  constructor.
Qed.

(** *** getNumJobs *)

(** X2: [getNumJobs] reads the digits of the badge text and nothing else,
    so a sign in the text is lost: the result is never negative.  It is NaN
    exactly when the text has no digit, and otherwise the number that the
    digits write, as a double: that number itself below 2^53, the nearest
    double beyond, and an infinity when the digits write a number beyond
    the doubles.  The function never returns [null]. *)
Theorem getNumJobs_range doc :
  match getNumJobs doc with
  | Num NaN => strip_non_digits (num_jobs_text doc) = ""
  | Num (Int z) =>
      strip_non_digits (num_jobs_text doc) ≠ ""
      ∧ to_double (decimal (strip_non_digits (num_jobs_text doc))) = Int z
      ∧ (0 ≤ z)%Z
      ∧ ((decimal (strip_non_digits (num_jobs_text doc)) < 2 ^ 53)%Z →
         z = decimal (strip_non_digits (num_jobs_text doc)))
  | Num (Infinity negative) =>
      strip_non_digits (num_jobs_text doc) ≠ ""
      ∧ to_double (decimal (strip_non_digits (num_jobs_text doc)))
        = Infinity negative
      ∧ negative = false
  | _ => False
  end.
Proof.
  unfold getNumJobs. cbv zeta. fold (num_jobs_text doc).
  pose proof (strip_non_digits_all_digits (num_jobs_text doc)) as Hd.
  destruct (String.eqb (strip_non_digits (num_jobs_text doc)) "") eqn:He.
  { apply String.eqb_eq in He. by rewrite He. }
  apply String.eqb_neq in He. rewrite parseInt_stripped by done.
  pose proof (decimal_nonneg _ Hd) as Hnn.
  pose proof (to_double_sign (decimal (strip_non_digits (num_jobs_text doc))))
    as Hsign.
  destruct (to_double _) as [|z|negative] eqn:Hv; [done|..].
  - split; [done|]. split; [done|]. split; [lia|].
    intros Hsmall. rewrite to_double_small in Hv by lia. by injection Hv.
  - split; [done|]. split; [done|]. destruct Hsign as [-> _].
    apply Z.ltb_ge. lia.
Qed.

(** *** One entry for each matched element *)

Lemma map_get_total {A} (f : loc → A) (P : A → Prop) sel :
  (∀ this, P (f this)) →
  length (map_get (fun this => Some (f this)) sel) = length sel
  ∧ Forall P (map_get (fun this => Some (f this)) sel).
Proof.
  intros HP. unfold map_get.
  induction sel as [|this sel [IHl IHf]]; [by split; [|constructor]|].
  change (omap (fun this => Some (f this)) (this :: sel))
    with (f this :: omap (fun this => Some (f this)) sel).
  split; [cbn [length]; by rewrite IHl|by constructor].
Qed.

Lemma mapM_length {A B} (f : A → result B) l ys :
  mapM f l = Ok ys → length ys = length l.
Proof. intros Hm%mapM_Ok. symmetry. by eapply Forall2_length. Qed.

(** X3: unlike [getNews], the other list-valued extractors drop nothing.
    [getImages] returns one string for each image of the document, the
    empty string for an image without a source; [getJobs] one job for each
    job row; [getBadges] one badge for each badge element; [getFounders]
    one founder for each founder block with a description when there is
    such a block, and one for each founder card otherwise. *)
Theorem list_extractors_one_per_element doc :
  length (getImages doc) = length (query doc Sel.img)
  ∧ Forall (fun v => ∃ s, v = Str s) (getImages doc)
  ∧ length (getJobs doc) = length (query doc Sel.jobRows)
  ∧ (∃ badges, getBadges doc = Ok badges
               ∧ length badges = length (query doc Sel.badges))
  ∧ (∃ founders,
       getFounders doc = Ok founders
       ∧ length founders
         = if 0 <? length (query doc Sel.founderInfo)
           then length (query doc Sel.founderInfo)
           else length (query doc Sel.founderCard)).
Proof.
  destruct (extractors_return (H := Ref.runtime [] []) doc)
    as (_ & [badges Hb] & _ & [founders Hf]).
  split; [|split; [|split; [|split]]].
  - unfold getImages. apply map_get_total with (P := fun _ => True). done.
  - unfold getImages. apply map_get_total. intros this.
    pose proof (attr_string_or_undefined doc [this] "src") as Ha.
    unfold or_else. destruct (attr doc [this] "src") as [| |n|s]; try done.
    + by eexists.
    + destruct (truthy (Str s)); by eexists.
  - unfold getJobs. apply map_get_total with (P := fun _ => True). done.
  - exists badges. split; [done|]. by eapply mapM_length.
  - exists founders. split; [done|]. revert Hf. unfold getFounders.
    destruct (0 <? length (query doc Sel.founderInfo)); apply mapM_length.
Qed.

(** *** The marker of badges and batch *)

Lemma split_scan_skip sep u s cur :
  split_scan sep (u +:+ s) (String.length u) cur = split_scan sep s 0 cur.
Proof.
  induction u as [|c u IH]; [done|].
  rewrite append_cons. cbn [String.length split_scan]. apply IH.
Qed.

Lemma split_scan_no_sep sep s cur :
  includes sep s = false →
  split_scan sep s 0 cur
  = [String.string_of_list_ascii (rev cur) +:+ s].
Proof.
  revert cur. induction s as [|c s IH]; intros cur Hs.
  - cbn [split_scan]. by rewrite append_nil_r.
  - rewrite includes_unfold in Hs. apply orb_false_elim in Hs as [Hp Hs].
    cbn [split_scan]. rewrite Hp, IH by done.
    cbn [rev]. by rewrite string_of_list_ascii_snoc, append_assoc.
Qed.

(** A text that begins with the separator and has no other occurrence of
    it splits into the empty string and the rest. *)
Lemma split_leading sep rest :
  sep ≠ "" → includes sep rest = false →
  split sep (sep +:+ rest) = [""; rest].
Proof.
  intros Hsep Hrest. unfold split.
  apply String.eqb_neq in Hsep as Hsep'. rewrite Hsep'.
  destruct sep as [|a sep]; [done|].
  rewrite append_cons. cbn [split_scan].
  pose proof (prefix_app (String a sep) (String a sep) rest
                (prefix_refl _)) as Hp.
  rewrite append_cons in Hp. rewrite Hp.
  replace (String.length (String a sep) - 1) with (String.length sep)
    by (cbn [String.length]; lia).
  by rewrite split_scan_skip, split_scan_no_sep.
Qed.

(** Without the separator the text is the only piece. *)
Lemma split_none sep s :
  sep ≠ "" → includes sep s = false → split sep s = [s].
Proof.
  intros Hsep%String.eqb_neq Hs. unfold split. rewrite Hsep.
  by rewrite split_scan_no_sep.
Qed.

(** X4: [getBadges] returns, for each badge element in document order, the
    trimmed text of the badge when the text does not hold the marker
    "Y Combinator Logo", and what follows the marker, trimmed, when the
    text begins with the marker and does not hold it a second time. *)
Theorem getBadges_strips_marker doc :
  ∃ badges,
    getBadges doc = Ok badges
    ∧ Forall2 (fun this badge =>
                 (includes marker (trim (text doc [this])) = false →
                  badge = trim (text doc [this]))
                 ∧ ∀ rest, trim (text doc [this]) = marker +:+ rest →
                           includes marker rest = false →
                           badge = trim rest)
        (query doc Sel.badges) badges.
Proof.
  destruct (extractors_return (H := Ref.runtime [] []) doc)
    as (_ & [badges Hb] & _).
  exists badges. split; [done|]. apply mapM_Ok in Hb.
  eapply Forall2_impl; [exact Hb|]. cbv beta zeta.
  intros this badge Hbadge. split.
  - intros Hno. rewrite Hno in Hbadge. by injection Hbadge.
  - intros rest Ht Hrest. rewrite Ht in Hbadge.
    rewrite (includes_app_l marker marker rest (includes_refl _)) in Hbadge.
    rewrite split_leading in Hbadge by done. by injection Hbadge.
Qed.

(** X5: [getBatch] returns [null] exactly when no badge holds the marker;
    when the text of the matched badges, trimmed, begins with the marker
    and does not hold it a second time, it returns what follows the
    marker, trimmed. *)
Theorem getBatch_strips_marker doc :
  (getBatch doc = Ok null ↔ query doc Sel.batch = [])
  ∧ ∀ rest,
      query doc Sel.batch ≠ [] →
      trim (text doc (query doc Sel.batch)) = marker +:+ rest →
      includes marker rest = false →
      getBatch doc = Ok (Str (trim rest)).
Proof.
  unfold getBatch. split.
  - destruct (query doc Sel.batch) as [|p sel] eqn:Hq; [done|].
    cbn [length Nat.ltb Nat.leb]. split; [|done].
    by destruct (call_on _ _).
  - intros rest Hne Ht Hrest.
    destruct (query doc Sel.batch) as [|p sel] eqn:Hq; [done|].
    cbn [length Nat.ltb Nat.leb]. rewrite Ht.
    by rewrite split_leading.
Qed.

(** *** Social links: the last link of a platform wins *)

(** X6: when several matched social links give the same key, the entry of
    [getCompanySocials] under that key holds the [href] of the last of
    them in document order (which is [undefined] when that link has no
    [href]).  The key [__proto__] is the exception: a link with that key
    leaves no entry, and the returned object never has that key. *)
Theorem getCompanySocials_last_wins doc before this after :
  social_links doc = before ++ this :: after →
  social_key doc this ≠ "__proto__" →
  (∀ x, x ∈ after → social_key doc x ≠ social_key doc this) →
  ∃ socials,
    getCompanySocials doc = Ok socials
    ∧ socials !! social_key doc this = Some (social_href doc this)
    ∧ socials !! "__proto__" = None.
Proof.
  intros Hlinks Hproto Hafter. eexists. split; [apply fold_add_social|].
  fold (social_links doc). rewrite Hlinks.
  split; [by apply socials_after_last|by apply socials_after_proto].
Qed.

(** *** The fields of a founder *)

(** X7: in the founder object read from a founder card, [imageUrl] is
    always the [src] of the card's first image.  Each social link of the
    card whose key is not [__proto__] leaves an entry under its key, the
    last link of a key winning, and since the links are spread last such
    an entry replaces the field [name], [position] or [description] of the
    same name; these three fields hold the card's values when no link has
    their name as key.  A link whose key is [__proto__] leaves nothing:
    the object never has that key. *)
Theorem founder_of_card_fields doc founderCard description founder :
  founder_of_card doc founderCard description = Ok founder →
  ∀ links, links = find doc founderCard Sel.founderLinks →
  founder !! "imageUrl" = Some (attr doc (find doc founderCard Sel.img) "src")
  ∧ (∀ before this after,
       links = before ++ this :: after →
       social_key doc this ≠ "__proto__" →
       (∀ x, x ∈ after → social_key doc x ≠ social_key doc this) →
       founder !! social_key doc this = Some (social_href doc this))
  ∧ founder !! "__proto__" = None
  ∧ ((∀ x, x ∈ links → social_key doc x ≠ "name") →
     founder !! "name"
     = Some (Str (trim (text doc (find doc founderCard Sel.fontBold)))))
  ∧ ((∀ x, x ∈ links → social_key doc x ≠ "position") →
     founder !! "position"
     = Some (Str (trim (text doc
          (eq_ (children doc (find doc founderCard Sel.leadingSnug)) 1)))))
  ∧ ((∀ x, x ∈ links → social_key doc x ≠ "description") →
     founder !! "description" = Some description).
Proof.
  unfold founder_of_card. rewrite fold_add_social.
  intros Hf links ->. cbn [bind] in Hf. injection Hf as <-.
  unfold founder_object.
  set (links := find doc founderCard Sel.founderLinks).
  assert (Hbase : ∀ k, (∀ x, x ∈ links → social_key doc x ≠ k) →
                       socials_after doc links ∅ !! k = None).
  { intros k Hk. by rewrite socials_after_other, lookup_empty. }
  split; [|split; [|split; [|split; [|split]]]].
  - rewrite lookup_union_r
      by (apply Hbase; intros; apply social_key_not_imageUrl).
    rewrite lookup_insert_ne by done. by rewrite lookup_insert_eq.
  - intros before this after Hl Hproto Hafter.
    apply lookup_union_Some_l. rewrite Hl. by apply socials_after_last.
  - rewrite lookup_union_r by by apply socials_after_proto.
    by do 4 (rewrite lookup_insert_ne by done).
  - intros Hk. rewrite lookup_union_r by by apply Hbase.
    by rewrite lookup_insert_eq.
  - intros Hk. rewrite lookup_union_r by by apply Hbase.
    do 2 (rewrite lookup_insert_ne by done). by rewrite lookup_insert_eq.
  - intros Hk. rewrite lookup_union_r by by apply Hbase.
    do 3 (rewrite lookup_insert_ne by done). by rewrite lookup_insert_eq.
Qed.

(** *** More on scrapeLaunchPage *)

Lemma NoDup_List_filter {A} (f : A → bool) (l : list A) :
  NoDup l → NoDup (List.filter f l).
Proof.
  induction 1 as [|x l Hx _ IH]; [constructor|]. cbn [List.filter].
  destruct (f x); [|done]. constructor; [|done].
  intros [Hin _]%list_elem_of_In%List.filter_In. by apply list_elem_of_In in Hin.
Qed.

Lemma first_occurrences_NoDup l : NoDup (first_occurrences l).
Proof.
  induction l as [|x l IH]; [constructor|]. cbn [first_occurrences].
  constructor; [|by apply NoDup_List_filter].
  intros [_ Hx]%list_elem_of_In%List.filter_In.
  by rewrite String.eqb_refl in Hx.
Qed.

Lemma first_occurrences_length l : length (first_occurrences l) ≤ length l.
Proof.
  induction l as [|x l IH]; [done|]. cbn [first_occurrences length].
  pose proof (List.filter_length_le
                (fun y => negb (String.eqb y x)) (first_occurrences l)).
  lia.
Qed.

Section LaunchPageShape.

Context `{Runtime}.

(** The votes for a value of [parseInt]: 0 in the place of NaN. *)
Lemma votes_of_parse n :
  (if truthy (if isNaN n then null else Num n)
   then if isNaN n then null else Num n
   else Num (Int 0))
  = Num (match n with NaN => Int 0 | _ => n end).
Proof.
  destruct n as [|z|negative]; [done| |done]. cbn [isNaN truthy].
  by destruct (Z.eqb_spec z 0) as [->|].
Qed.

(** X8: the vote count that [scrapeLaunchPage] returns is always a number,
    never [null] and never NaN.  It is 0 when there is no counter or its
    text, trimmed, does not begin with an integer; when the text begins
    with an integer, a sign or none and then digits, it is the number
    that they write, as a double: that number itself below 2^53, the
    nearest double beyond, and an infinity beyond the doubles. *)
Theorem scrapeLaunchPage_votes url r :
  scrapeLaunchPage url = Ok r →
  ∃ doc counter,
    axios_get url = Ok doc
    ∧ counter = trim (text doc (query doc Sel.voteCount))
    ∧ (∃ n, votes r = Num n ∧ n ≠ NaN)
    ∧ (starts_with_integer counter = false → votes r = Num (Int 0))
    ∧ ∀ sign ds rest,
        sign ∈ [""; "+"; "-"] →
        all_digits ds = true → ds ≠ "" → starts_with_digit rest = false →
        counter = sign +:+ ds +:+ rest →
        votes r = Num (to_double (signed sign (decimal ds)))
        ∧ ((decimal ds < 2 ^ 53)%Z →
           votes r = Num (Int (signed sign (decimal ds)))).
Proof.
  unfold scrapeLaunchPage.
  intros (doc & Hdoc & Hr)%bind_Ok.
  apply bind_Ok in Hr as (baseUrl & _ & Hr).
  apply bind_Ok in Hr as ([fragments pushed] & _ & [= <-]).
  exists doc, (trim (text doc (query doc Sel.voteCount))).
  cbn [votes]. split; [done|]. split; [done|].
  rewrite votes_of_parse. split; [|split].
  - eexists. split; [reflexivity|]. by destruct (parseInt _).
  - intros Hs. by rewrite parseInt_NaN by (done || apply trimStart_trim).
  - intros sign ds rest Hsign Hds Hne Hrest ->.
    rewrite parseInt_integer by done.
    pose proof (to_double_not_NaN (signed sign (decimal ds))) as Hn.
    assert (Hv : Num match to_double (signed sign (decimal ds)) with
                     | NaN => Int 0
                     | _ => to_double (signed sign (decimal ds))
                     end
                 = Num (to_double (signed sign (decimal ds))))
      by by destruct (to_double _).
    rewrite Hv. split; [done|]. intros Hsmall.
    rewrite signed_small; [done|].
    split; [by apply decimal_nonneg|done].
Qed.

(** X9: the body that [scrapeLaunchPage] returns joins exactly one fragment
    for each child of the body container (an empty fragment for a child
    with neither text nor media), and the list of referenced media has no
    URL twice and at most one URL for each child. *)
Theorem scrapeLaunchPage_shape url r :
  scrapeLaunchPage url = Ok r →
  ∃ doc fragments,
    axios_get url = Ok doc
    ∧ post r = join " " fragments
    ∧ length fragments = length (children doc (query doc Sel.launchBody))
    ∧ NoDup (sources r)
    ∧ length (sources r) ≤ length (children doc (query doc Sel.launchBody)).
Proof.
  unfold scrapeLaunchPage.
  intros (doc & Hdoc & Hr)%bind_Ok.
  apply bind_Ok in Hr as (baseUrl & _ & Hr).
  apply bind_Ok in Hr as ([fragments pushed] & Hwalk & [= <-]).
  apply body_fragments_walk in Hwalk as (urls & -> & Hurls & Hfrags & _).
  exists doc, fragments. cbn [post sources app].
  rewrite set_to_array_first_occurrences.
  split; [done|]. split; [done|].
  split; [symmetry; by eapply Forall2_length|].
  split; [apply first_occurrences_NoDup|].
  etrans; [apply first_occurrences_length|].
  apply Forall2_length in Hurls. rewrite <- Hurls.
  generalize (children doc (query doc Sel.launchBody)) as l.
  induction l as [|x l IH]; [done|].
  change (omap (media_src doc) (x :: l))
    with (match media_src doc x with
          | Some src => src :: omap (media_src doc) l
          | None => omap (media_src doc) l
          end).
  destruct (media_src doc x); cbn [length]; lia.
Qed.

End LaunchPageShape.

(** *** Failures inside the request handler *)

Lemma mapM_throws_some {A B} (f : A → result B) l x e :
  x ∈ l → f x = Throw e → ∃ e', mapM f l = Throw e'.
Proof.
  intros Hin Hx. induction l as [|a l IH]; [by inversion Hin|].
  cbn [mapM]. destruct (f a) as [b|e'] eqn:Ha; [|by eexists].
  inversion Hin; subst; [congruence|].
  destruct IH as [e' ->]; [done|]. by eexists.
Qed.

Section HandlerFailures.

Context `{Runtime}.

Lemma requestHandler_throws doc request_url baseUrl e scrapedData :
  getBaseUrl request_url = Ok baseUrl →
  getAllLaunchPosts doc baseUrl = Throw e →
  ∃ e', requestHandler doc request_url scrapedData = Throw e'.
Proof.
  intros Hbase Hposts. unfold requestHandler.
  destruct (getFounders doc); [|by eexists]. cbn [bind].
  destruct (getCompanySocials doc); [|by eexists]. cbn [bind].
  destruct (getBadges doc); [|by eexists]. cbn [bind].
  destruct (getBatch doc); [|by eexists]. cbn [bind].
  destruct (getNews doc); [|by eexists]. cbn [bind].
  rewrite Hbase. cbn [bind]. rewrite Hposts. by eexists.
Qed.

(** X10: a launch page that cannot be fetched takes the whole record with
    it.  When a launch container of the company page has a title, a
    description and a link, and the request for the linked launch page is
    rejected, [getAllLaunchPosts] rejects and the request handler throws:
    no record is pushed for the company. *)
Theorem launch_fetch_failure_fails_handler
    doc request_url baseUrl this l e scrapedData :
  getBaseUrl request_url = Ok baseUrl →
  this ∈ query doc Sel.companyLaunch →
  launch_title doc this ≠ "" →
  launch_description doc this ≠ "" →
  truthy (launch_href doc this) = true →
  resolve (to_string (launch_href doc this)) baseUrl = Ok l →
  l ≠ "" →
  axios_get l = Throw e →
  (∃ e', getAllLaunchPosts doc baseUrl = Throw e')
  ∧ ∃ e', requestHandler doc request_url scrapedData = Throw e'.
Proof.
  intros Hbase Hin Ht Hd Hh Hres Hl Hget.
  assert (Hpost : launchPost doc baseUrl this = Throw e).
  { unfold launchPost.
    fold (launch_title doc this) (launch_href doc this)
      (launch_description doc this).
    rewrite Hh, Hres. cbn [bind truthy to_string].
    apply String.eqb_neq in Ht, Hd, Hl. rewrite Ht, Hd, Hl. cbn [negb orb].
    unfold scrapeLaunchPage. by rewrite Hget. }
  destruct (mapM_throws_some (launchPost doc baseUrl) _ _ _ Hin Hpost)
    as [e' He'].
  split; [by exists e'|]. by eapply requestHandler_throws.
Qed.

(** What the request handler pushes does not depend on what the array
    holds, and carries the URL of the request. *)
Lemma requestHandler_record doc url scrapedData :
  requestHandler doc url scrapedData
  = match requestHandler doc url [] with
    | Ok pushed => Ok (scrapedData ++ pushed)
    | Throw e => Throw e
    end
  ∧ match requestHandler doc url [] with
    | Ok pushed => ∃ record, pushed = [record] ∧ st_ycUrl record = url
    | Throw _ => True
    end.
Proof.
  unfold requestHandler.
  destruct (getFounders doc); [|done]. cbn [bind].
  destruct (getCompanySocials doc); [|done]. cbn [bind].
  destruct (getBadges doc); [|done]. cbn [bind].
  destruct (getBatch doc); [|done]. cbn [bind].
  destruct (getNews doc); [|done]. cbn [bind].
  destruct (getBaseUrl url); [|done]. cbn [bind].
  destruct (getAllLaunchPosts doc _); [|done]. cbn [bind app].
  split; [done|]. by eexists.
Qed.

Lemma handler_call_record scrapedData call :
  handler_call scrapedData call
  = scrapedData ++ option_list (record_of call)
  ∧ ∀ record, record_of call = Some record → st_ycUrl record = call.1.
Proof.
  unfold handler_call, record_of.
  destruct (requestHandler_record call.2 call.1 scrapedData) as [-> Hone].
  destruct (requestHandler call.2 call.1 []) as [pushed|e].
  - destruct Hone as (record & -> & Hurl). split; [done|].
    by intros ? [= <-].
  - split; [by rewrite app_nil_r|done].
Qed.

Lemma handler_calls_records calls scrapedData :
  fold_left handler_call calls scrapedData
  = scrapedData ++ omap record_of calls.
Proof.
  revert scrapedData.
  induction calls as [|call calls IH]; intros scrapedData.
  { by rewrite app_nil_r. }
  cbn [fold_left]. rewrite IH.
  rewrite (proj1 (handler_call_record scrapedData call)).
  rewrite <- app_assoc. f_equal.
  change (omap record_of (call :: calls))
    with (match record_of call with
          | Some record => record :: omap record_of calls
          | None => omap record_of calls
          end).
  by destruct (record_of call).
Qed.

(** X11: the array that [scrapeCompanyPages] returns holds one record for
    each call of the request handler that returns, in the order in which
    the calls end, and nothing for a call that throws.  Each record
    carries the URL of the request of its call and is the record that the
    call would push to an empty array: no call removes or changes what
    another has pushed.  How many calls the crawler makes for an input is
    not decided here. *)
Theorem scrapeCompanyPages_records companies scraped :
  scrapeCompanyPages companies = Ok scraped →
  ∃ calls,
    crawler_calls (List.map ycUrl companies) = Ok calls
    ∧ scraped = omap record_of calls
    ∧ length scraped ≤ length calls
    ∧ ∀ record, record ∈ scraped →
        ∃ call, call ∈ calls ∧ record_of call = Some record
                ∧ st_ycUrl record = call.1.
Proof.
  unfold scrapeCompanyPages. cbv zeta.
  intros (calls & Hcalls & [= <-])%bind_Ok. exists calls.
  rewrite handler_calls_records. cbn [app].
  split; [done|]. split; [done|]. split.
  - clear Hcalls. induction calls as [|call calls IH]; [done|].
    change (omap record_of (call :: calls))
      with (match record_of call with
            | Some record => record :: omap record_of calls
            | None => omap record_of calls
            end).
    destruct (record_of call); cbn [length]; lia.
  - intros record (call & Hin & Hrec)%list_elem_of_omap.
    exists call. split; [done|]. split; [done|].
    by apply (proj2 (handler_call_record [] call)).
Qed.

End HandlerFailures.

(** *** More on parseCompanyList *)

Section ParseMore.

Context `{Runtime}.

Lemma run_companies events st :
  companies (fold_left emit events st)
  = companies st ++ (company_of <$> rows_of events).
Proof.
  revert st. induction events as [|ev events IH]; intros st.
  - by rewrite app_nil_r.
  - cbn [fold_left]. rewrite IH. destruct ev as [row| |]; cbn; [|done..].
    by rewrite <- app_assoc.
Qed.

Lemma run_pending events st :
  returned st = Pending →
  returned (fold_left emit events st) = Pending
  ↔ forallb is_data events = true.
Proof.
  revert st. induction events as [|ev events IH]; intros st Hst; [done|].
  cbn [fold_left forallb]. destruct ev as [row|e|]; cbn [is_data andb].
  - by apply IH.
  - rewrite settled_stays by (cbn; by rewrite Hst). cbn. by rewrite Hst.
  - rewrite settled_stays by (cbn; by rewrite Hst). cbn. by rewrite Hst.
Qed.

(** X13: the promise of [parseCompanyList] stays pending exactly when the
    stream emits rows only.  Every error that the stream emits is written
    to the console, also after the promise is settled, and every end of
    the stream writes the number of rows emitted before it. *)
Theorem parseCompanyList_settles csvPath :
  (parseCompanyList csvPath = Pending
   ↔ forallb is_data (parseFile csvPath) = true)
  ∧ (∀ before e after,
       parseFile csvPath = before ++ error e :: after →
       console_error e ∈ console (run_stream (parseFile csvPath)))
  ∧ (∀ before after,
       parseFile csvPath = before ++ end_ :: after →
       console_log ("Parsed "
                    +:+ pretty (N.of_nat (length (rows_of before)))
                    +:+ " companies")
       ∈ console (run_stream (parseFile csvPath))).
Proof.
  unfold parseCompanyList, run_stream. split; [by apply run_pending|].
  split.
  - intros before e after ->. rewrite fold_left_app. cbn [fold_left].
    apply console_grows. cbn. set_solver.
  - intros before after ->. rewrite fold_left_app. cbn [fold_left].
    apply console_grows. cbn [emit on_end console].
    rewrite run_companies. cbn [companies app].
    rewrite length_fmap. set_solver.
Qed.

Lemma fromEntries_other (entries : list (string * string))
    (o : gmap string string) (k : string) :
  (∀ k' v, (k', v) ∈ entries → k' ≠ k) →
  fold_left (fun o '(k, v) => <[k := v]> o) entries o !! k = o !! k.
Proof.
  revert o. induction entries as [|[k' v] entries IH]; intros o Hk; [done|].
  cbn [fold_left]. rewrite IH by (intros; eapply Hk; by right).
  apply lookup_insert_ne. eapply Hk. left.
Qed.

Lemma get_fromEntries_None entries k :
  (∀ k' v, (k', v) ∈ entries → k' ≠ k) →
  get (fromEntries entries) k = undefined.
Proof.
  intros Hk. unfold get, fromEntries.
  by rewrite fromEntries_other, lookup_empty.
Qed.

Lemma get_fromEntries_last before k v after :
  (∀ k' v', (k', v') ∈ after → k' ≠ k) →
  get (fromEntries (before ++ (k, v) :: after)) k = Str v.
Proof.
  intros Hk. unfold get, fromEntries. rewrite fold_left_app.
  cbn [fold_left]. rewrite fromEntries_other by done.
  by rewrite lookup_insert_eq.
Qed.

(** X14: the record made from a row takes each of its two fields from the
    last column whose header, in camel case, is the name of the field; the
    other columns are ignored, and a field without such a column is
    [undefined]. *)
Theorem company_of_columns row :
  ((∀ header cell, (header, cell) ∈ row → camelCase header ≠ "ycUrl") →
   ycUrl (company_of row) = undefined)
  ∧ ((∀ header cell, (header, cell) ∈ row →
        camelCase header ≠ "companyName") →
     companyName (company_of row) = undefined)
  ∧ (∀ before header cell after,
       row = before ++ (header, cell) :: after →
       (∀ header' cell', (header', cell') ∈ after →
          camelCase header' ≠ camelCase header) →
       (camelCase header = "ycUrl" → ycUrl (company_of row) = Str cell)
       ∧ (camelCase header = "companyName" →
          companyName (company_of row) = Str cell)).
Proof.
  unfold company_of. cbn [ycUrl companyName].
  assert (Hin : ∀ k v (l : list (string * string)),
            (k, v) ∈ List.map (fun '(key, value) => (camelCase key, value)) l →
            ∃ header, (header, v) ∈ l ∧ k = camelCase header).
  { intros k v l. induction l as [|[h c] l IH]; [by inversion 1|].
    cbn [List.map]. intros [[= -> ->]|Hl]%elem_of_cons.
    - exists h. split; [left|done].
    - destruct (IH Hl) as (header & ? & ?). exists header. split; [by right|done]. }
  split; [|split].
  - intros Hrow. apply get_fromEntries_None.
    intros k v (header & Hh & ->)%Hin. by eapply Hrow.
  - intros Hrow. apply get_fromEntries_None.
    intros k v (header & Hh & ->)%Hin. by eapply Hrow.
  - intros before header cell after -> Hafter.
    rewrite List.map_app. cbn [List.map].
    split; intros <-; apply get_fromEntries_last;
      intros k v (header' & Hh & ->)%Hin; by eapply Hafter.
Qed.

Lemma events_cases (events : list stream_event) :
  forallb is_data events = true
  ∨ (∃ rows e after, events = List.map data rows ++ error e :: after)
  ∨ (∃ rows after, events = List.map data rows ++ end_ :: after).
Proof.
  induction events as [|ev events IH]; [by left|].
  destruct ev as [row|e|].
  - destruct IH as [IH|[(rows & e & after & ->)|(rows & after & ->)]].
    + by left.
    + right. left. by exists (row :: rows), e, after.
    + right. right. by exists (row :: rows), after.
  - right. left. by exists [], e, events.
  - right. right. by exists [], events.
Qed.

Lemma parseCompanyList_Resolved csvPath resolved :
  parseCompanyList csvPath = Resolved resolved →
  ∃ rows after,
    parseFile csvPath = List.map data rows ++ end_ :: after
    ∧ resolved = List.map company_of rows.
Proof.
  unfold parseCompanyList, run_stream.
  destruct (events_cases (parseFile csvPath))
    as [Hd|[(rows & e & after & ->)|(rows & after & ->)]].
  - apply (run_pending _ {| companies := []; console := [];
                            returned := Pending |} eq_refl) in Hd.
    by rewrite Hd.
  - rewrite fold_left_app, emit_rows. cbn [fold_left].
    by rewrite settled_stays.
  - rewrite fold_left_app, emit_rows. cbn [fold_left].
    rewrite settled_stays by done. cbn. intros [= <-]. eauto.
Qed.

(** X15: a run of [processCompanyList] writes the output file only when the
    stream of the parser emits its rows and then ends, with no error
    before the end, and the output directory can be made.  The crawler is
    then given the [ycUrl] of every row, in the order of the rows, and the
    file holds the records of the calls of the request handler that
    returned.  When the stream emits an error before it ends, the run
    fails with that error and nothing is crawled or written, also when the
    rows before the error were well-formed. *)
Theorem processCompanyList_outcome csvPath createDir writeFile :
  (∀ scrapedData,
     processCompanyList csvPath createDir writeFile = Written scrapedData →
     ∃ rows after calls,
       parseFile csvPath = List.map data rows ++ end_ :: after
       ∧ createDir = true ∧ writeFile = true
       ∧ crawler_calls (List.map (fun row => ycUrl (company_of row)) rows)
         = Ok calls
       ∧ scrapedData = omap record_of calls)
  ∧ (∀ rows e after,
       parseFile csvPath = List.map data rows ++ error e :: after →
       processCompanyList csvPath createDir writeFile
       = Fails (parse_failed e)).
Proof.
  unfold processCompanyList. split.
  - intros scrapedData.
    destruct (parseCompanyList csvPath) as [|companies|e] eqn:Hp; [done| |done].
    apply parseCompanyList_Resolved in Hp as (rows & after & Hfile & ->).
    destruct createDir; [|done].
    destruct (scrapeCompanyPages _) as [sd|e] eqn:Hs; [|done].
    destruct writeFile; [|done]. intros [= <-].
    unfold scrapeCompanyPages in Hs. cbv zeta in Hs.
    apply bind_Ok in Hs as (calls & Hcalls & [= <-]).
    rewrite List.map_map in Hcalls.
    exists rows, after, calls. rewrite handler_calls_records. by cbn [app].
  - intros rows e after Hfile.
    unfold parseCompanyList, run_stream. rewrite Hfile.
    rewrite fold_left_app, emit_rows. cbn [fold_left].
    by rewrite settled_stays.
Qed.

End ParseMore.

(** X26: in every job that [getJobs] returns, the role is a string, never
    [null], and it is the empty string when the row has no role; each of
    location, salary, equity and eligibility is [null] or a string that is
    not empty.  No field has white space at either end. *)
Theorem getJobs_fields doc :
  Forall job_ok (getJobs doc)
  ∧ Forall2 (fun this job =>
               role job
               = Str (trim (text doc (find doc [this] Sel.jobRole))))
      (query doc Sel.jobRows) (getJobs doc).
Proof.
  unfold getJobs, map_get. split.
  - induction (query doc Sel.jobRows) as [|this sel IH]; [constructor|].
    cbn [omap list_omap]. constructor; [|exact IH]. split.
    + eexists. split; [reflexivity|]. apply trim_idempotent.
    + repeat (apply Forall_cons_2;
                [exact (proj1 (text_or_null_trimmed _ _))|]).
      apply Forall_nil_2.
  - induction (query doc Sel.jobRows) as [|this sel IH]; [constructor|].
    cbn [omap list_omap]. by constructor.
Qed.

(* ===================================================================== *)
(** ** Properties of the domain cart                                      *)
(* ===================================================================== *)

Section ShopProperties.

Import Shop ShopFacts.

(** *** normalizedData *)

Lemma lower_char_ws c : is_ws (lower_char c) = is_ws c.
Proof. destruct c as [[] [] [] [] [] [] [] []]; reflexivity. Qed.

Lemma lower_char_idempotent c : lower_char (lower_char c) = lower_char c.
Proof. destruct c as [[] [] [] [] [] [] [] []]; reflexivity. Qed.

Lemma toLowerCase_idempotent s : toLowerCase (toLowerCase s) = toLowerCase s.
Proof.
  induction s as [|c s IH]; [done|]. cbn [toLowerCase].
  by rewrite lower_char_idempotent, IH.
Qed.

Lemma toLowerCase_empty s : toLowerCase s = "" ↔ s = "".
Proof. by destruct s. Qed.

Lemma trimStart_toLowerCase s :
  trimStart (toLowerCase s) = toLowerCase (trimStart s).
Proof.
  induction s as [|c s IH]; [done|]. cbn [toLowerCase trimStart].
  rewrite lower_char_ws. by destruct (is_ws c).
Qed.

Lemma trimEnd_toLowerCase s :
  trimEnd (toLowerCase s) = toLowerCase (trimEnd s).
Proof.
  induction s as [|c s IH]; [done|]. cbn [toLowerCase trimEnd].
  rewrite lower_char_ws, IH.
  assert (He : String.eqb (toLowerCase (trimEnd s)) ""
               = String.eqb (trimEnd s) "") by by destruct (trimEnd s).
  rewrite He. by destruct (is_ws c && _).
Qed.

Lemma trim_toLowerCase s : trim (toLowerCase s) = toLowerCase (trim s).
Proof. unfold trim. by rewrite trimStart_toLowerCase, trimEnd_toLowerCase. Qed.

Lemma normalizedData_fixed data :
  normalizedData (normalizedData data) = normalizedData data.
Proof.
  unfold normalizedData.
  by rewrite trim_toLowerCase, trim_idempotent, toLowerCase_idempotent.
Qed.

(** X16: normalizing is idempotent, and a normalized string has no white
    space at either end and no upper-case letter. *)
Theorem normalizedData_idempotent data :
  normalizedData (normalizedData data) = normalizedData data
  ∧ trim (normalizedData data) = normalizedData data
  ∧ toLowerCase (normalizedData data) = normalizedData data.
Proof.
  split; [apply normalizedData_fixed|]. unfold normalizedData. split.
  - by rewrite trim_toLowerCase, trim_idempotent.
  - apply toLowerCase_idempotent.
Qed.

(** *** isValidDomain *)

Lemma chars_app s t : chars (s +:+ t) = chars s ++ chars t.
Proof.
  induction s as [|c s IH]; [done|]. rewrite append_cons.
  unfold chars in *. cbn [String.list_ascii_of_string app]. f_equal.
  apply IH.
Qed.

Lemma endsWith_unfold s suffix :
  endsWith s suffix
  = String.eqb s suffix
    || match s with "" => false | String _ r => endsWith r suffix end.
Proof. by destruct s. Qed.

Lemma endsWith_spec s suffix :
  endsWith s suffix = true ↔ ∃ p, s = p +:+ suffix.
Proof.
  induction s as [|c s IH]; rewrite endsWith_unfold.
  - rewrite orb_false_r, String.eqb_eq. split.
    + intros <-. by exists "".
    + intros [p Hp]. symmetry in Hp. by apply append_empty in Hp as [_ ->].
  - rewrite orb_true_iff, String.eqb_eq, IH. split.
    + intros [<-|[p ->]]; [by exists ""|]. exists (String c p).
      by rewrite append_cons.
    + intros [[|a p] Hp]; [by left|]. right. exists p.
      rewrite append_cons in Hp. by injection Hp.
Qed.

Lemma after_label_split s :
  ∃ l, s = l +:+ after_label s
       ∧ Forall (fun c => is_label_char c = true) (chars l)
       ∧ starts_label (after_label s) = false
       ∧ (starts_label s = true → l ≠ "").
Proof.
  induction s as [|c s IH].
  - exists "". by repeat split.
  - destruct IH as (l & Hs & Hl & Ha & _). cbn [after_label starts_label]. destruct (is_label_char c) eqn:Hc.
    + exists (String c l). rewrite append_cons, <- Hs.
      repeat split; [by constructor|done|done].
    + exists "". repeat split; [constructor|by cbn [starts_label]|done].
Qed.

Lemma after_label_app l r :
  Forall (fun c => is_label_char c = true) (chars l) →
  after_label (l +:+ r) = after_label r.
Proof.
  induction l as [|c l IH]; [done|]. intros [Hc Hl]%Forall_cons.
  rewrite append_cons. cbn [after_label]. rewrite Hc. by apply IH.
Qed.

Lemma after_label_all l :
  Forall (fun c => is_label_char c = true) (chars l) → after_label l = "".
Proof.
  intros Hl. rewrite <- (append_nil_r l). by rewrite after_label_app.
Qed.

Lemma label_no_dot l :
  Forall (fun c => is_label_char c = true) (chars l) →
  ("."%char : ascii) ∉ chars l.
Proof.
  intros Hl Hin. rewrite Forall_forall in Hl. by apply Hl in Hin.
Qed.

Lemma dot_in_app p q : ("."%char : ascii) ∈ chars (p +:+ String "." q).
Proof.
  rewrite chars_app. apply elem_of_app. right. constructor.
Qed.

(** The last dot of a string is where it is. *)
Lemma last_dot p q p' q' :
  p +:+ String "." q = p' +:+ String "." q' →
  ("."%char : ascii) ∉ chars q → ("."%char : ascii) ∉ chars q' →
  p = p' ∧ q = q'.
Proof.
  intros He Hq Hq'. revert p' He.
  induction p as [|c p IH]; intros [|c' p'] He.
  - by injection He.
  - rewrite append_cons in He. injection He as Hc He. subst q.
    destruct Hq. apply dot_in_app.
  - rewrite append_cons in He. injection He as Hc He. subst q'.
    destruct Hq'. apply dot_in_app.
  - rewrite !append_cons in He. injection He as Hc He. subst c'.
    by destruct (IH _ He) as [-> ->].
Qed.

Lemma domain_regex_shape s :
  domain_regex s = true ↔
  is_label s ∨ ∃ name tld, s = name +:+ String "." tld
                           ∧ is_label name ∧ is_label tld.
Proof.
  unfold domain_regex, is_label. split.
  - intros [Hs Ha]%andb_prop.
    destruct (after_label_split s) as (l & Hl & Hlab & _ & Hne).
    specialize (Hne Hs).
    destruct (after_label s) as [|c r] eqn:Hafter.
    + left. rewrite append_nil_r in Hl. by subst l.
    + right. apply andb_prop in Ha as [[Hc Hr]%andb_prop Hend].
      apply Ascii.eqb_eq in Hc as ->. apply String.eqb_eq in Hend.
      destruct (after_label_split r) as (l' & Hl' & Hlab' & _ & Hne').
      rewrite Hend, append_nil_r in Hl'. subst l'.
      exists l, r. by auto.
  - intros [[Hne Hl]|(name & tld & -> & [Hne Hl] & [Hne' Hl'])].
    + rewrite (after_label_all s Hl), andb_true_r.
      destruct s as [|c s]; [done|]. by apply Forall_cons in Hl as [? _].
    + rewrite (after_label_app name _ Hl).
      change (after_label (String "." tld)) with (String "." tld).
      cbv beta iota. rewrite (after_label_all tld Hl'). cbn [Ascii.eqb Bool.eqb String.eqb].
      rewrite andb_true_r.
      destruct name as [|c name]; [done|]. destruct tld as [|c' tld]; [done|].
      apply Forall_cons in Hl as [Hc _]. apply Forall_cons in Hl' as [Hc' _].
      rewrite append_cons. cbn [starts_label]. by rewrite Hc, Hc'.
Qed.

Lemma tld_cases tld :
  tld ∈ ["com"; "xyz"; "app"] ↔ tld = "com" ∨ tld = "xyz" ∨ tld = "app".
Proof.
  rewrite !elem_of_cons, elem_of_nil. tauto.
Qed.

Lemma tld_label tld :
  tld ∈ ["com"; "xyz"; "app"] → is_label tld.
Proof.
  intros [-> | [-> | ->]]%tld_cases; by repeat constructor.
Qed.

Lemma isValidDomain_normalized s :
  existsb (fun tld => endsWith s tld) [".com"; ".xyz"; ".app"]
  && domain_regex s = true ↔
  ∃ name tld, s = name +:+ String "." tld ∧ is_label name
              ∧ tld ∈ ["com"; "xyz"; "app"].
Proof.
  rewrite andb_true_iff, existsb_exists, domain_regex_shape. split.
  - intros [(suffix & Hin & [p Hp]%endsWith_spec) Hshape].
    assert (∃ tld, suffix = String "." tld ∧ tld ∈ ["com"; "xyz"; "app"])
      as (tld & -> & Htld).
    { cbn [In] in Hin. destruct Hin as [<-|[<-|[<-|[]]]];
        eexists; (split; [reflexivity|]); apply tld_cases; tauto. }
    pose proof (label_no_dot tld (proj2 (tld_label tld Htld))) as Hd.
    destruct Hshape as [[_ Hl]|(name & tld' & Hs & Hname & [_ Hl'])].
    + destruct (label_no_dot s Hl). rewrite Hp. apply dot_in_app.
    + rewrite Hs in Hp. apply last_dot in Hp as [-> ->];
        [|by apply label_no_dot|done].
      by exists p, tld.
  - intros (name & tld & -> & Hname & Htld). split.
    + exists (String "." tld). split.
      * cbn [In]. apply tld_cases in Htld as [-> | [-> | ->]]; tauto.
      * apply endsWith_spec. by exists name.
    + right. exists name, tld. split; [done|]. split; [done|].
      by apply tld_label.
Qed.

(** The shape of a name that is valid and normalized. *)
Lemma valid_shape v :
  isValidDomain v = true → normalizedData v = v →
  ∃ name tld, v = name +:+ String "." tld ∧ is_label name
              ∧ tld ∈ ["com"; "xyz"; "app"].
Proof.
  unfold isValidDomain. cbv zeta. intros Hv Hnorm. rewrite Hnorm in Hv.
  by apply isValidDomain_normalized.
Qed.

(** X17: [isValidDomain] holds exactly of the strings whose normalized
    form is a non-empty name of letters, digits and hyphens, a dot, and
    one of com, xyz and app. *)
Theorem isValidDomain_shape d :
  isValidDomain d = true ↔
  ∃ name tld, normalizedData d = name +:+ String "." tld
              ∧ is_label name ∧ tld ∈ ["com"; "xyz"; "app"].
Proof. unfold isValidDomain. cbv zeta. apply isValidDomain_normalized. Qed.

(** *** handleErrors *)

Lemma prefix_chars u s :
  String.prefix u s = true → ∀ c, c ∈ chars u → c ∈ chars s.
Proof.
  revert s. induction u as [|a u IH]; intros s Hp c Hc.
  { by apply elem_of_nil in Hc. }
  destruct s as [|b s]; [done|]. rewrite prefix_cons in Hp.
  destruct (Ascii.ascii_dec a b) as [->|]; [|done].
  unfold chars in *. cbn [String.list_ascii_of_string] in *.
  apply elem_of_cons in Hc as [->|Hc]; [constructor|].
  apply elem_of_cons. right. by apply (IH s).
Qed.

Lemma includes_chars u s :
  includes u s = true → ∀ c, c ∈ chars u → c ∈ chars s.
Proof.
  induction s as [|b s IH]; rewrite includes_unfold; intros Hi c Hc.
  - rewrite orb_false_r in Hi. by apply (prefix_chars u "").
  - apply orb_prop in Hi as [Hp|Hi]; [by apply (prefix_chars u _ Hp)|].
    unfold chars in *. cbn [String.list_ascii_of_string].
    apply elem_of_cons. right. by apply IH.
Qed.

Lemma in_cart_spec cart v :
  existsb (fun item => String.eqb (domain item) v) cart = true ↔
  v ∈ domain <$> cart.
Proof.
  rewrite existsb_exists, list_elem_of_fmap. split.
  - intros (item & Hin%list_elem_of_In & He%String.eqb_eq). by exists item.
  - intros (item & He & Hin%list_elem_of_In). exists item.
    by rewrite He, String.eqb_refl.
Qed.

(** A name of the shape that [isValidDomain] accepts has only letters,
    digits, hyphens and one dot. *)
Lemma shape_chars name tld :
  is_label name → tld ∈ ["com"; "xyz"; "app"] →
  Forall (fun c => is_label_char c = true ∨ c = "."%char)
    (chars (name +:+ String "." tld)).
Proof.
  intros [_ Hn] [_ Ht]%tld_label. rewrite chars_app. apply Forall_app.
  split; [eapply Forall_impl; [exact Hn|]; by left|].
  unfold chars in *. cbn [String.list_ascii_of_string].
  constructor; [by right|]. eapply Forall_impl; [exact Ht|]. by left.
Qed.

Lemma valid_no_scheme v :
  isValidDomain v = true → normalizedData v = v →
  v ≠ "" ∧ includes "https://" v = false ∧ includes "http://" v = false.
Proof.
  intros Hvalid Hnorm.
  destruct (valid_shape v Hvalid Hnorm) as (name & tld & Hv & Hname & Htld).
  pose proof (shape_chars name tld Hname Htld) as Hc.
  rewrite <- Hv in Hc. rewrite Forall_forall in Hc.
  assert (Hcolon : (":"%char : ascii) ∉ chars v).
  { intros [H|H]%Hc; discriminate H. }
  split; [|split].
  - intros ->. by destruct name.
  - apply not_true_is_false. intros Hi. apply Hcolon.
    apply (includes_chars _ _ Hi). unfold chars.
    cbn [String.list_ascii_of_string]. do 5 (apply elem_of_cons; right).
    constructor.
  - apply not_true_is_false. intros Hi. apply Hcolon.
    apply (includes_chars _ _ Hi). unfold chars.
    cbn [String.list_ascii_of_string]. do 4 (apply elem_of_cons; right).
    constructor.
Qed.

Lemma handleErrors_inr maxDomains cart value v :
  handleErrors maxDomains cart value = inr v ↔
  v = normalizedData value
  ∧ length cart < maxDomains
  ∧ (v ∉ domain <$> cart)
  ∧ isValidDomain v = true.
Proof.
  unfold handleErrors. cbv zeta. split.
  - destruct (String.eqb _ "") eqn:He; [done|].
    destruct (maxDomains <=? length cart) eqn:Hmax; [done|].
    destruct (existsb _ cart) eqn:Hdup; [done|].
    destruct (includes "https://" _ || includes "http://" _); [done|].
    destruct (isValidDomain _) eqn:Hvalid; [|done].
    cbn [negb]. intros [= <-]. apply Nat.leb_gt in Hmax.
    repeat split; [done| |done].
    intros Hin%in_cart_spec. by rewrite Hin in Hdup.
  - intros (-> & Hlen & Hnew & Hvalid).
    destruct (valid_no_scheme _ Hvalid) as (Hne & Hs & Hp).
    { apply normalizedData_fixed. }
    apply String.eqb_neq in Hne. rewrite Hne.
    apply Nat.leb_gt in Hlen. rewrite Hlen.
    destruct (existsb _ cart) eqn:Hdup.
    { by apply in_cart_spec in Hdup. }
    by rewrite Hs, Hp, Hvalid.
Qed.

(** X18: [handleErrors] returns a value, and shows no notification,
    exactly when the cart has room, the normalized input is not the name
    of a domain of the cart, and it is a valid domain; the value is the
    normalized input.  The checks for the empty string and for "http://"
    and "https://" refuse nothing that the others would let through. *)
Theorem handleErrors_accepts maxDomains cart value :
  (∀ v, handleErrors maxDomains cart value = inr v ↔
        v = normalizedData value
        ∧ length cart < maxDomains
        ∧ (v ∉ domain <$> cart)
        ∧ isValidDomain v = true)
  ∧ ((∃ t, handleErrors maxDomains cart value = inl t) ↔
     maxDomains ≤ length cart
     ∨ normalizedData value ∈ domain <$> cart
     ∨ isValidDomain (normalizedData value) = false).
Proof.
  split; [intros v; apply handleErrors_inr|].
  pose proof (handleErrors_inr maxDomains cart value
                (normalizedData value)) as Hinr.
  destruct (handleErrors maxDomains cart value) as [t|v] eqn:Hh.
  - split; [intros _|by eauto].
    destruct (decide (maxDomains ≤ length cart)); [by left|].
    destruct (decide (normalizedData value ∈ domain <$> cart));
      [by right; left|].
    destruct (isValidDomain (normalizedData value)) eqn:Hv; [|by auto].
    assert (Hx : inl t = inr (normalizedData value) :> toast + string);
      [|done].
    apply Hinr. split; [done|]. split; [lia|]. by split.
  - split; [by intros [t [=]]|].
    apply handleErrors_inr in Hh as (-> & Hlen & Hnew & Hvalid).
    intros [Hfull|[Hin|Hinvalid]]; [lia|done|congruence].
Qed.

(** *** keepBestDomains *)

Lemma split_scan_dot u rest cur :
  ("."%char : ascii) ∉ chars u →
  split_scan "." (u +:+ String "." rest) 0 cur
  = (String.string_of_list_ascii (rev cur) +:+ u)
    :: split_scan "." rest 0 [].
Proof.
  revert cur. induction u as [|c u IH]; intros cur Hu.
  - change ("" +:+ String "." rest) with (String "." rest).
    cbn [split_scan]. rewrite prefix_cons.
    destruct (Ascii.ascii_dec "." ".") as [_|]; [|done].
    cbn [String.prefix String.length Nat.sub]. rewrite append_nil_r. by destruct rest.
  - unfold chars in Hu. cbn [String.list_ascii_of_string] in Hu.
    apply not_elem_of_cons in Hu as [Hc Hu].
    rewrite append_cons. cbn [split_scan]. rewrite prefix_cons.
    destruct (Ascii.ascii_dec "." c) as [<-|_]; [done|].
    rewrite IH by done. cbn [rev].
    by rewrite string_of_list_ascii_snoc, append_assoc.
Qed.

Lemma ending_shape name tld :
  is_label name → tld ∈ ["com"; "xyz"; "app"] →
  ending (name +:+ String "." tld) = tld.
Proof.
  intros [_ Hn%label_no_dot] Htld. unfold ending, split.
  cbn [String.eqb Ascii.eqb Bool.eqb]. rewrite split_scan_dot by done.
  rewrite split_scan_no_sep;
    [done|by apply tld_cases in Htld as [-> | [-> | ->]]].
Qed.

(** A valid name has an ending that [TLD_PRIORITY] knows. *)
Lemma rank_valid d :
  valid_name (domain d) → is_Some (rank d).
Proof.
  intros [Hvalid Hnorm].
  destruct (valid_shape _ Hvalid Hnorm) as (name & tld & Hs & Hname & Htld).
  unfold rank. rewrite Hs at 1.
  rewrite ending_shape by done.
  by apply tld_cases in Htld as [-> | [-> | ->]].
Qed.

Lemma positive_to_double z : positive (to_double z) = (0 <? z)%Z.
Proof.
  pose proof (to_double_sign z) as Hs.
  destruct (to_double z) as [|m|negative]; [done| |]; cbn [positive].
  - apply eq_iff_eq_true. rewrite !Z.ltb_lt. tauto.
  - destruct Hs as [-> Hz]. apply eq_iff_eq_true.
    rewrite negb_true_iff, Z.ltb_ge, Z.ltb_lt. lia.
Qed.

Lemma compare_rank a b pa la pb lb :
  rank a = Some (pa, la) → rank b = Some (pb, lb) →
  positive (compare_domains a b)
  = ((pb <? pa) || ((pa =? pb) && (lb <? la)))%Z.
Proof.
  unfold rank, compare_domains. cbv zeta.
  destruct (priority (ending (domain a))) as [|x|]; [done| |done].
  destruct (priority (ending (domain b))) as [|y|]; [done| |done].
  intros [= <- <-] [= <- <-]. cbn [sub].
  case_bool_decide as Hz; cbn [negb positive].
  - apply to_double_zero in Hz. assert (x = y) as -> by lia.
    rewrite Z.ltb_irrefl, Z.eqb_refl. cbn [orb andb].
    apply eq_iff_eq_true. rewrite !Z.ltb_lt. lia.
  - assert (x ≠ y).
    { intros ->. apply Hz. apply to_double_zero. lia. }
    rewrite positive_to_double. apply eq_iff_eq_true.
    rewrite orb_true_iff, andb_true_iff, !Z.ltb_lt, Z.eqb_eq. lia.
Qed.

Lemma not_positive_good a b :
  is_Some (rank a) → is_Some (rank b) →
  positive (compare_domains a b) = false → at_least_as_good a b.
Proof.
  intros [[pa la] Ha] [[pb lb] Hb] Hc.
  rewrite (compare_rank _ _ _ _ _ _ Ha Hb) in Hc.
  apply orb_false_elim in Hc as [Hp Hl]. apply Z.ltb_ge in Hp.
  exists pa, la, pb, lb. split; [done|]. split; [done|].
  destruct (pa =? pb)%Z eqn:He.
  - apply Z.eqb_eq in He. apply Z.ltb_ge in Hl. lia.
  - apply Z.eqb_neq in He. lia.
Qed.

Lemma positive_good a b :
  is_Some (rank a) → is_Some (rank b) →
  positive (compare_domains a b) = true → at_least_as_good b a.
Proof.
  intros [[pa la] Ha] [[pb lb] Hb] Hc.
  rewrite (compare_rank _ _ _ _ _ _ Ha Hb) in Hc.
  exists pb, lb, pa, la. split; [done|]. split; [done|].
  apply orb_prop in Hc as [Hp%Z.ltb_lt|[He%Z.eqb_eq Hl%Z.ltb_lt]%andb_prop];
    lia.
Qed.

Lemma good_trans a b c :
  at_least_as_good a b → at_least_as_good b c → at_least_as_good a c.
Proof.
  intros (pa & la & pb & lb & Ha & Hb & Hab)
         (pb' & lb' & pc & lc & Hb' & Hc & Hbc).
  rewrite Hb in Hb'. injection Hb' as <- <-.
  exists pa, la, pc, lc. split; [done|]. split; [done|]. lia.
Qed.

Lemma ordered_cons x l :
  ordered (x :: l) ↔ Forall (at_least_as_good x) l ∧ ordered l.
Proof.
  unfold ordered. split.
  - intros Ho. split.
    + apply Forall_lookup. intros j b Hb.
      by apply (Ho 0 (S j) x b); [lia|..].
    + intros i j a b Hij Ha Hb. by apply (Ho (S i) (S j) a b); [lia|..].
  - intros [Hx Ho] [|i] [|j] a b Hij Ha Hb; try lia.
    + injection Ha as <-. rewrite Forall_lookup in Hx. by apply (Hx j).
    + apply (Ho i j); [lia|done|done].
Qed.

Lemma insert_sorted_perm compare x l : insert_sorted compare x l ≡ₚ x :: l.
Proof.
  induction l as [|y l IH]; [done|]. cbn [insert_sorted].
  destruct (positive _); [|done]. rewrite IH. apply Permutation_swap.
Qed.

Lemma sort_perm compare l : sort compare l ≡ₚ l.
Proof.
  induction l as [|x l IH]; [done|]. unfold sort in *. cbn [foldr].
  by rewrite insert_sorted_perm, IH.
Qed.

Lemma insert_sorted_ordered x l :
  is_Some (rank x) → Forall (fun y => is_Some (rank y)) l →
  ordered l → ordered (insert_sorted compare_domains x l).
Proof.
  intros Hx. induction l as [|y l IH]; intros Hl Ho.
  - apply ordered_cons. split; [constructor|]. by intros i j a b _ [=].
  - apply Forall_cons in Hl as [Hy Hl].
    apply ordered_cons in Ho as Ho'. destruct Ho' as [Hyl Hol].
    cbn [insert_sorted].
    destruct (positive (compare_domains x y)) eqn:Hc.
    + apply ordered_cons. split; [|by apply IH].
      rewrite insert_sorted_perm. constructor; [|done].
      by apply positive_good.
    + apply ordered_cons. split; [|done].
      apply not_positive_good in Hc; [|done..].
      constructor; [done|]. eapply Forall_impl; [exact Hyl|].
      intros z Hz. by apply (good_trans x y z).
Qed.

Lemma sort_ordered l :
  Forall (fun y => is_Some (rank y)) l → ordered (sort compare_domains l).
Proof.
  induction l as [|x l IH]; intros Hl.
  - by intros i j a b _ [=].
  - apply Forall_cons in Hl as [Hx Hl]. unfold sort in *. cbn [foldr].
    apply insert_sorted_ordered; [done| |by apply IH].
    by rewrite (sort_perm compare_domains l : foldr _ _ _ ≡ₚ _).
Qed.

(** X19: on a cart of valid names that is not empty, [keepBestDomains]
    returns the first [numDomainsRequired] domains of the cart put in
    order: a smaller priority number of the ending first, a shorter name
    first among equal endings.  So every domain it keeps is at least as
    good as every domain it drops, and it keeps [numDomainsRequired]
    domains, or all when the cart has fewer.  It shows no notification,
    and leaves the array [cart] itself in that order. *)
Theorem keepBestDomains_keeps_best cart numDomainsRequired :
  Forall (fun item => valid_name (domain item)) cart →
  cart ≠ [] →
  ∃ sortedDomains,
    keepBestDomains cart numDomainsRequired
    = (take numDomainsRequired sortedDomains, sortedDomains, None)
    ∧ sortedDomains ≡ₚ cart
    ∧ ordered sortedDomains
    ∧ length (take numDomainsRequired sortedDomains)
      = numDomainsRequired `min` length cart
    ∧ ∀ kept dropped,
        kept ∈ take numDomainsRequired sortedDomains →
        dropped ∈ drop numDomainsRequired sortedDomains →
        at_least_as_good kept dropped.
Proof.
  intros Hvalid Hne. exists (sort compare_domains cart).
  assert (Ho : ordered (sort compare_domains cart)).
  { apply sort_ordered. eapply Forall_impl; [exact Hvalid|].
    intros d. apply rank_valid. }
  split; [|split; [apply sort_perm|split; [done|split]]].
  - unfold keepBestDomains. by destruct cart.
  - by rewrite length_take, (sort_perm compare_domains cart).
  - intros kept dropped (i & Hi & Hlt)%elem_of_take
      (j & Hj)%list_elem_of_lookup.
    rewrite lookup_drop in Hj.
    apply (Ho i (numDomainsRequired + j)); [lia|done|done].
Qed.

(** *** The cart over the life of the component *)

Lemma cart_ok_nil maxDomains : cart_ok maxDomains [].
Proof. split; [constructor|]. split; [cbn; lia|constructor]. Qed.

Lemma cart_ok_sub maxDomains c c' :
  cart_ok maxDomains c → c' ⊆+ c → cart_ok maxDomains c'.
Proof.
  intros (Hnd & Hlen & Hvalid) Hsub. split; [|split].
  - destruct (submseteq_Permutation _ _ (fmap_submseteq domain _ _ Hsub))
      as [k Hk].
    rewrite Hk in Hnd. by apply NoDup_app in Hnd as [? _].
  - apply submseteq_length in Hsub. lia.
  - rewrite Forall_forall in Hvalid |- *. intros item Hin.
    apply Hvalid. by eapply elem_of_submseteq.
Qed.

Lemma List_filter_sublist {A} (f : A → bool) l :
  sublist (List.filter f l) l.
Proof.
  induction l as [|x l IH]; [constructor|]. cbn [List.filter].
  destruct (f x); by constructor.
Qed.

Lemma cart_ok_filter maxDomains f c :
  cart_ok maxDomains c → cart_ok maxDomains (List.filter f c).
Proof.
  intros Hc. apply (cart_ok_sub _ c _ Hc), sublist_submseteq.
  apply List_filter_sublist.
Qed.

Lemma cart_ok_perm maxDomains c c' :
  cart_ok maxDomains c → c' ≡ₚ c → cart_ok maxDomains c'.
Proof. intros Hc Hp. apply (cart_ok_sub _ c _ Hc). by rewrite Hp. Qed.

Lemma cart_ok_best maxDomains c n :
  cart_ok maxDomains c →
  cart_ok maxDomains (take n (sort compare_domains c)).
Proof.
  intros Hc. apply (cart_ok_sub _ c _ Hc).
  rewrite <- (sort_perm compare_domains c) at 2.
  apply sublist_submseteq, sublist_take.
Qed.

Lemma cart_ok_snoc maxDomains c v status :
  cart_ok maxDomains c → length c < maxDomains →
  v ∉ (domain <$> c) → valid_name v →
  cart_ok maxDomains (c ++ [{| domain := v; status := status |}]).
Proof.
  intros (Hnd & Hlen & Hvalid) Hroom Hnew Hv. split; [|split].
  - rewrite fmap_app. apply NoDup_app. split; [done|]. split.
    + intros x Hx ->%list_elem_of_singleton. done.
    + apply NoDup_singleton.
  - rewrite length_app. cbn [length]. lia.
  - apply Forall_app. split; [done|]. by constructor.
Qed.

Lemma insert_elem_of {A} (l : list A) i x y :
  y ∈ <[i:=x]> l → y = x ∨ y ∈ l.
Proof.
  intros (j & Hj)%list_elem_of_lookup.
  apply list_lookup_insert_Some in Hj as [(_ & -> & _)|[_ Hj]]; [by left|].
  right. by eapply list_elem_of_lookup_2.
Qed.

Lemma NoDup_insert_fresh {A} (l : list A) i x :
  NoDup l → x ∉ l → NoDup (<[i:=x]> l).
Proof.
  intros Hnd. revert i. induction Hnd as [|y l Hy Hnd IH]; intros i Hx.
  - constructor.
  - apply not_elem_of_cons in Hx as [Hxy Hx]. destruct i as [|i].
    + by constructor.
    + change (<[S i:=x]> (y :: l)) with (y :: <[i:=x]> l).
      constructor; [|by apply IH].
      intros [->|Hin]%insert_elem_of; done.
Qed.

Lemma cart_ok_edit maxDomains c index v status :
  cart_ok maxDomains c → v ∉ (domain <$> c) → valid_name v →
  cart_ok maxDomains (<[index := {| domain := v; status := status |}]> c).
Proof.
  intros (Hnd & Hlen & Hvalid) Hnew Hv. split; [|split].
  - rewrite list_fmap_insert. by apply NoDup_insert_fresh.
  - by rewrite length_insert.
  - by apply Forall_insert.
Qed.

Lemma accepted_valid maxDomains c value v :
  handleErrors maxDomains c value = inr v →
  length c < maxDomains ∧ (v ∉ domain <$> c) ∧ valid_name v
  ∧ v = normalizedData value.
Proof.
  intros (-> & Hlen & Hnew & Hvalid)%handleErrors_inr.
  repeat split; [done..|]. apply normalizedData_fixed.
Qed.

(** The handlers keep the cart, and what a pending [addToCart] holds, as
    [state_ok] says. *)
Lemma state_ok_notify maxDomains t st :
  state_ok maxDomains st → state_ok maxDomains (notify t st).
Proof. done. Qed.

Lemma state_ok_setCart maxDomains c st :
  state_ok maxDomains st → cart_ok maxDomains c →
  state_ok maxDomains (setCart c st).
Proof. intros (_ & _ & Hp) Hc. by split. Qed.

Lemma step_ok maxDomains numDomainsRequired st ev :
  state_ok maxDomains st →
  state_ok maxDomains (step maxDomains numDomainsRequired st ev).
Proof.
  intros Hst. pose proof Hst as (Hcart & Halias & Hpending).
  destruct ev as [text| |available|d| | | | |clipboard|index modal];
    cbn [step].
  - by destruct (isValidateLoading st).
  - destruct (isValidateLoading st); [done|]. unfold addToCart.
    destruct (handleErrors _ _ _) as [t|v] eqn:Hh; [done|].
    destruct (String.eqb v ""); [done|].
    apply accepted_valid in Hh as (Hlen & Hnew & Hv & _).
    by repeat (split; [done|]).
  - unfold addToCart_resume.
    destruct (adding st) as [v|]; [|done].
    destruct Hpending as (_ & Hc & Hlen & Hnew & Hv).
    apply state_ok_notify. split; [|done]. by apply cart_ok_snoc.
  - apply state_ok_notify, state_ok_setCart; [done|].
    by apply cart_ok_filter.
  - unfold clearCart. destruct (length (cart st) =? 0); [done|].
    apply state_ok_notify, state_ok_setCart; [done|apply cart_ok_nil].
  - destruct (length (cart st) =? numDomainsRequired); [|done].
    unfold purchaseDomains.
    destruct (length (cart st) =? 0); [done|].
    destruct (existsb _ _); [done|].
    destruct (maxDomains <? length (cart st)); [done|].
    apply state_ok_notify, state_ok_setCart; [done|apply cart_ok_nil].
  - unfold removeUnavailableDomains.
    destruct (length (cart st) =? 0); [done|].
    destruct (forallb _ _); [done|].
    apply state_ok_notify, state_ok_setCart; [done|].
    by apply cart_ok_filter.
  - unfold keepTopDomains, keepBestDomains.
    destruct (length (cart st) =? 0) eqn:Hempty.
    + apply Nat.eqb_eq, nil_length_inv in Hempty.
      apply state_ok_notify. split; [apply cart_ok_nil|]. split; [done|].
      cbn [adding isValidateLoading captured].
      destruct (aliased st) eqn:Ha; [|done].
      by rewrite <- (Halias eq_refl).
    + split; [by apply cart_ok_best|]. split; [done|].
      cbn [adding isValidateLoading captured].
      destruct (adding st) as [v|]; [|done].
      destruct Hpending as (Hl & Hc & Hlen & Hnew & Hv).
      destruct (aliased st) eqn:Ha; [|done].
      rewrite (Halias eq_refl) in Hc, Hlen, Hnew.
      pose proof (sort_perm compare_domains (cart st)) as Hp.
      split; [done|]. split; [by apply (cart_ok_perm _ (cart st) _ Hc)|].
      split; [by rewrite Hp|]. split; [by rewrite Hp|done].
  - unfold copyToClipboard.
    destruct (length (cart st) =? 0); [done|]. by destruct clipboard.
  - unfold handleEdit. destruct (cart st !! index); [|done].
    destruct (handleErrors _ _ _) as [t|v] eqn:Hh; [done|].
    destruct (String.eqb v ""); [done|].
    apply accepted_valid in Hh as (Hlen & Hnew & Hv & ->).
    apply state_ok_notify, state_ok_setCart; [done|].
    by apply cart_ok_edit.
Qed.

Lemma run_events_ok maxDomains numDomainsRequired events :
  state_ok maxDomains (run_events maxDomains numDomainsRequired events).
Proof.
  unfold run_events.
  assert (Hinit : state_ok maxDomains initial).
  { split; [apply cart_ok_nil|]. by split. }
  revert Hinit. generalize initial.
  induction events as [|ev events IH]; intros st Hst; [done|].
  cbn [fold_left]. by apply IH, step_ok.
Qed.

(** X20: whatever the user does, and however the availability checks
    turn out, the cart never has a domain twice, never more than
    [maxDomains] domains, and only names that are valid and normalized. *)
Theorem cart_invariant maxDomains numDomainsRequired events :
  let st := run_events maxDomains numDomainsRequired events in
  NoDup (domain <$> cart st)
  ∧ length (cart st) ≤ maxDomains
  ∧ Forall (fun item =>
              isValidDomain (domain item) = true
              ∧ normalizedData (domain item) = domain item) (cart st).
Proof. apply run_events_ok. Qed.

(** X21: [purchaseDomains] never refuses a cart for its size: in every
    state that the component reaches, it empties a cart that is not empty
    and has no taken domain, and leaves every other cart as it is. *)
Theorem purchaseDomains_never_too_many maxDomains numDomainsRequired events :
  let st := run_events maxDomains numDomainsRequired events in
  (cart st ≠ []
   ∧ Forall (fun item => status item ≠ TAKEN) (cart st) →
   purchaseDomains maxDomains st
   = notify (notification "Domains Purchased"
               "Your domains have been purchased" "success")
       (setCart [] st))
  ∧ (cart st = []
     ∨ Exists (fun item => status item = TAKEN) (cart st) →
     cart (purchaseDomains maxDomains st) = cart st).
Proof.
  cbv zeta.
  destruct (run_events_ok maxDomains numDomainsRequired events)
    as ((_ & Hlen & _) & _).
  generalize dependent (run_events maxDomains numDomainsRequired events).
  intros st Hlen. unfold purchaseDomains. split.
  - intros [Hne Havail].
    destruct (length (cart st) =? 0) eqn:Hempty.
    { by apply Nat.eqb_eq, nil_length_inv in Hempty. }
    destruct (existsb _ _) eqn:Htaken.
    { apply existsb_exists in Htaken as (item & Hin & Ht%String.eqb_eq).
      rewrite Forall_forall in Havail.
      by apply list_elem_of_In, Havail in Hin. }
    apply Nat.leb_le in Hlen as Hle. unfold Nat.ltb.
    destruct (S maxDomains <=? length (cart st)) eqn:Hmax; [|done].
    apply Nat.leb_le in Hmax. lia.
  - intros Hor. destruct (length (cart st) =? 0) eqn:Hempty; [done|].
    destruct (existsb _ _) eqn:Htaken; [done|].
    destruct Hor as [Hnil|Hex]; [by rewrite Hnil in Hempty|].
    apply Exists_exists in Hex as (item & Hin & Ht).
    assert (existsb (fun item => String.eqb (status item) TAKEN) (cart st)
            = true); [|congruence].
    apply existsb_exists. exists item. split; [by apply list_elem_of_In|].
    by apply String.eqb_eq.
Qed.

(** *** handleEdit *)

Lemma handleErrors_inl_error maxDomains c value t :
  handleErrors maxDomains c value = inl t → kind t = "error".
Proof.
  unfold handleErrors. cbv zeta.
  repeat (match goal with
          | |- context [if ?b then _ else _] => destruct b
          end; [by intros [= <-]|]).
  done.
Qed.

(** X22: [handleEdit] puts the domain of the modal, with its name
    normalized, in the place of the edited domain, and changes nothing
    else of the cart, when the cart has room for one more domain and the
    normalized text of the modal is a valid domain that is not in the
    cart.  Otherwise it shows an error and leaves the cart as it is: so
    no domain of a full cart can be edited, and an edit that does not
    change the name is refused. *)
Theorem handleEdit_outcome maxDomains index modal st oldDomain :
  cart st !! index = Some oldDomain →
  ∀ v, v = normalizedData (domain modal) →
  (length (cart st) < maxDomains
   ∧ (v ∉ domain <$> cart st)
   ∧ isValidDomain v = true →
   handleEdit maxDomains index modal st
   = notify (notification "Domain Edited" "Your domain has been edited"
               "success")
       (setCart (<[index := {| domain := v; status := status modal |}]>
                   (cart st)) st))
  ∧ (maxDomains ≤ length (cart st)
     ∨ v = domain oldDomain
     ∨ v ∈ domain <$> cart st
     ∨ isValidDomain v = false →
     ∃ t, handleEdit maxDomains index modal st = notify t st
          ∧ kind t = "error").
Proof.
  intros Hold v ->. unfold handleEdit. rewrite Hold. split.
  - intros (Hlen & Hnew & Hvalid).
    assert (Hh : handleErrors maxDomains (cart st) (domain modal)
                 = inr (normalizedData (domain modal)))
      by by apply handleErrors_inr.
    rewrite Hh.
    destruct (valid_no_scheme _ Hvalid) as (Hne%String.eqb_neq & _).
    { apply normalizedData_fixed. }
    by rewrite Hne.
  - intros Hrefused.
    destruct (handleErrors _ _ _) as [t|v] eqn:Hh.
    { exists t. split; [done|]. by apply handleErrors_inl_error in Hh. }
    apply handleErrors_inr in Hh as (-> & Hlen & Hnew & Hvalid).
    destruct Hrefused as [Hfull|[Hsame|[Hin|Hinvalid]]];
      [lia| |done|congruence].
    destruct Hnew. rewrite Hsame. apply list_elem_of_fmap.
    exists oldDomain. split; [done|]. by eapply list_elem_of_lookup_2.
Qed.

(** *** What a pending addToCart overwrites *)

Lemma step_pending maxDomains numDomainsRequired st ev value :
  state_ok maxDomains st → adding st = Some value →
  is_availability ev = false →
  let st' := step maxDomains numDomainsRequired st ev in
  adding st' = Some value
  ∧ captured st' ≡ₚ captured st
  ∧ (ev ≠ KeepTop → captured st' = captured st).
Proof.
  intros (_ & Halias & Hp) Ha Hev. cbv zeta. rewrite Ha in Hp.
  destruct Hp as (Hl & _).
  assert (Hsame : ∀ st', adding st' = adding st → captured st' = captured st →
            adding st' = Some value ∧ captured st' ≡ₚ captured st
            ∧ (ev ≠ KeepTop → captured st' = captured st)).
  { intros st' Hadd Hcap. rewrite Hadd, Hcap. split; [done|].
    split; [reflexivity|done]. }
  destruct ev as [text| |available|d| | | | |clipboard|index modal];
    cbn [step].
  - rewrite Hl. by apply Hsame.
  - rewrite Hl. by apply Hsame.
  - done.
  - by apply Hsame.
  - unfold clearCart. destruct (length (cart st) =? 0); by apply Hsame.
  - destruct (length (cart st) =? numDomainsRequired); [|by apply Hsame].
    unfold purchaseDomains.
    destruct (length (cart st) =? 0); [by apply Hsame|].
    destruct (existsb _ _); [by apply Hsame|].
    destruct (maxDomains <? length (cart st)); by apply Hsame.
  - unfold removeUnavailableDomains.
    destruct (length (cart st) =? 0); [by apply Hsame|].
    destruct (forallb _ _); by apply Hsame.
  - unfold keepTopDomains, keepBestDomains.
    destruct (length (cart st) =? 0) eqn:Hempty.
    + cbn [notify adding isValidateLoading captured].
      split; [done|]. split; [|done].
      destruct (aliased st); [|done]. by rewrite Halias.
    + cbn [adding isValidateLoading captured].
      split; [done|]. split; [|done].
      destruct (aliased st); [|done].
      by rewrite Halias, (sort_perm compare_domains (cart st)).
  - unfold copyToClipboard.
    destruct (length (cart st) =? 0); [by apply Hsame|].
    destruct clipboard; by apply Hsame.
  - unfold handleEdit. destruct (cart st !! index); [|by apply Hsame].
    destruct (handleErrors _ _ _) as [t|v]; [by apply Hsame|].
    destruct (String.eqb v ""); by apply Hsame.
Qed.

Lemma steps_pending maxDomains numDomainsRequired es st value :
  state_ok maxDomains st → adding st = Some value →
  Forall (fun ev => is_availability ev = false) es →
  let st' := fold_left (step maxDomains numDomainsRequired) es st in
  adding st' = Some value
  ∧ captured st' ≡ₚ captured st
  ∧ (KeepTop ∉ es → captured st' = captured st).
Proof.
  revert st. induction es as [|ev es IH]; intros st Hst Ha Hes.
  { by cbn. }
  apply Forall_cons in Hes as [Hev Hes]. cbn [fold_left].
  destruct (step_pending maxDomains numDomainsRequired st ev value
              Hst Ha Hev) as (Ha' & Hp & Hk).
  destruct (IH _ (step_ok _ numDomainsRequired _ ev Hst) Ha' Hes)
    as (Ha'' & Hp' & Hk').
  split; [done|]. split; [by rewrite Hp'|].
  intros [Hne Hnot]%not_elem_of_cons. rewrite Hk' by done.
  apply Hk. congruence.
Qed.

(** X23: when the availability check of [addToCart] resolves, the cart
    becomes the cart as it was when the check began, with the new domain
    at its end: what the user did to the cart in between (removing,
    editing, clearing, purchasing) is undone.  Only "Keep Top Domains" may
    have left that earlier cart in another order. *)
Theorem addToCart_overwrites maxDomains numDomainsRequired events es
    value available :
  let st := run_events maxDomains numDomainsRequired events in
  adding st = Some value →
  Forall (fun ev => is_availability ev = false) es →
  ∃ c,
    cart (run_events maxDomains numDomainsRequired
            (events ++ es ++ [Availability available]))
    = c ++ [{| domain := value;
               status := if available then AVAILABLE else TAKEN |}]
    ∧ c ≡ₚ captured st
    ∧ (KeepTop ∉ es → c = captured st).
Proof.
  cbv zeta. intros Ha Hes. unfold run_events. rewrite !fold_left_app.
  fold (run_events maxDomains numDomainsRequired events).
  destruct (steps_pending maxDomains numDomainsRequired es _ value
              (run_events_ok maxDomains numDomainsRequired events) Ha Hes)
    as (Ha' & Hp & Hk).
  cbn [fold_left step]. unfold addToCart_resume. rewrite Ha'.
  eexists. split; [reflexivity|]. by split.
Qed.

(** *** Adding and removing, removing and purchasing *)

Lemma filter_others (c : list Domain) v :
  v ∉ (domain <$> c) →
  List.filter (fun item => negb (String.eqb (domain item) v)) c = c.
Proof.
  induction c as [|item c IH]; [done|].
  rewrite fmap_cons. intros [Hne Hc]%not_elem_of_cons.
  cbn [List.filter]. apply not_eq_sym, String.eqb_neq in Hne.
  rewrite Hne. cbn [negb]. by rewrite IH.
Qed.

(** X24: a domain that was added and is then removed leaves the cart as
    it was before: when no availability check is pending, typing a text
    that [handleErrors] accepts, adding it, and removing the added domain
    once its availability is known gives back the earlier cart. *)
Theorem add_then_remove maxDomains numDomainsRequired events text value
    available :
  let st := run_events maxDomains numDomainsRequired events in
  isValidateLoading st = false →
  handleErrors maxDomains (cart st) text = inr value →
  cart (run_events maxDomains numDomainsRequired
          (events ++ [Type_ text; Add; Availability available;
                      Remove value]))
  = cart st.
Proof.
  cbv zeta. intros Hl Hh. unfold run_events. rewrite fold_left_app.
  fold (run_events maxDomains numDomainsRequired events).
  generalize dependent (run_events maxDomains numDomainsRequired events).
  intros st Hl Hh.
  apply handleErrors_inr in Hh as Hacc.
  destruct Hacc as (Hv & Hlen & Hnew & Hvalid).
  destruct (valid_no_scheme _ Hvalid) as (Hne%String.eqb_neq & _).
  { rewrite Hv. apply normalizedData_fixed. }
  cbn [fold_left].
  assert (Htype : step maxDomains numDomainsRequired st (Type_ text)
                  = updateInputValue text st).
  { cbn [step]. by rewrite Hl. }
  rewrite Htype. set (typed := updateInputValue text st).
  assert (Hadd : step maxDomains numDomainsRequired typed Add
                 = {| inputValue := ""; cart := cart st;
                      isValidateLoading := true; adding := Some value;
                      captured := cart st; aliased := true;
                      toasts := toasts st |}).
  { cbn [step]. change (isValidateLoading typed) with (isValidateLoading st).
    rewrite Hl. unfold addToCart.
    change (cart typed) with (cart st).
    change (inputValue typed) with text. by rewrite Hh, Hne. }
  rewrite Hadd. cbn [step]. unfold addToCart_resume, removeFromCart.
  cbn [adding captured notify setCart cart].
  rewrite List.filter_app. cbn [List.filter domain].
  rewrite String.eqb_refl. cbn [negb]. rewrite app_nil_r.
  by apply filter_others.
Qed.

(** X25: after [removeUnavailableDomains], [purchaseDomains] goes
    through whenever an available domain is left: in every state that the
    component reaches and whose cart has an available domain, the two
    calls in a row empty the cart and end with "Domains Purchased". *)
Theorem remove_unavailable_then_purchase maxDomains numDomainsRequired
    events :
  let st := run_events maxDomains numDomainsRequired events in
  Exists (fun item => status item = AVAILABLE) (cart st) →
  let st' := purchaseDomains maxDomains (removeUnavailableDomains st) in
  cart st' = []
  ∧ last (toasts st')
    = Some (notification "Domains Purchased"
              "Your domains have been purchased" "success").
Proof.
  cbv zeta.
  destruct (run_events_ok maxDomains numDomainsRequired events)
    as ((_ & Hlen & _) & _).
  generalize dependent (run_events maxDomains numDomainsRequired events).
  intros st Hlen Hex.
  set (available := fun item => String.eqb (status item) AVAILABLE).
  assert (Hkeep : List.filter available (cart st) ≠ []).
  { apply Exists_exists in Hex as (item & Hin & Hs).
    intros Hnil. apply list_elem_of_In in Hin.
    assert (Hf : In item (List.filter available (cart st))).
    { apply filter_In. split; [done|]. by apply String.eqb_eq. }
    by rewrite Hnil in Hf. }
  assert (Hnone : ∀ c, Forall (fun item => available item = true) c →
            existsb (fun item => String.eqb (status item) TAKEN) c = false).
  { intros c Hc. apply not_true_is_false.
    intros (item & Hin & Ht%String.eqb_eq)%existsb_exists.
    rewrite Forall_forall in Hc. apply list_elem_of_In, Hc in Hin.
    apply String.eqb_eq in Hin. by rewrite Ht in Hin. }
  assert (Hpurchase : ∀ s, cart s ≠ [] → length (cart s) ≤ maxDomains →
            Forall (fun item => available item = true) (cart s) →
            cart (purchaseDomains maxDomains s) = []
            ∧ last (toasts (purchaseDomains maxDomains s))
              = Some (notification "Domains Purchased"
                        "Your domains have been purchased" "success")).
  { intros s Hne Hle Hall. unfold purchaseDomains.
    destruct (length (cart s) =? 0) eqn:Hempty.
    { by apply Nat.eqb_eq, nil_length_inv in Hempty. }
    rewrite (Hnone _ Hall). apply Nat.ltb_ge in Hle. rewrite Hle.
    split; [done|]. cbn [notify setCart toasts]. apply last_snoc. }
  unfold removeUnavailableDomains.
  destruct (length (cart st) =? 0) eqn:Hempty.
  { apply Nat.eqb_eq, nil_length_inv in Hempty. rewrite Hempty in Hkeep.
    done. }
  destruct (forallb _ (cart st)) eqn:Hall.
  - apply Hpurchase; cbn [notify cart].
    + by intros Hnil; rewrite Hnil in Hempty.
    + done.
    + apply Forall_forall. intros item Hin%list_elem_of_In.
      rewrite forallb_forall in Hall. by apply Hall.
  - apply Hpurchase; cbn [notify setCart cart].
    + done.
    + etrans; [|exact Hlen].
      apply submseteq_length, sublist_submseteq, List_filter_sublist.
    + apply Forall_forall. intros item Hin%list_elem_of_In.
      by apply filter_In in Hin as [_ Hin].
Qed.

End ShopProperties.

(* ===================================================================== *)
(** ** The properties on examples                                         *)
(* ===================================================================== *)

(** On [MorePages.badges] the first badge loses the marker, the second
    its white space. *)
Lemma getBadges_strips_marker_witness :
  ∃ badges,
    getBadges MorePages.badges = Ok badges
    ∧ badges !! 0 = Some "W24" ∧ badges !! 1 = Some "Active".
Proof.
  destruct (getBadges_strips_marker MorePages.badges) as (badges & Hb & HF).
  exists badges. split; [exact Hb|].
  assert (Hq : query MorePages.badges Sel.badges = [[0; 0; 1]; [1; 0; 1]])
    by (vm_compute; reflexivity).
  rewrite Hq in HF.
  apply Forall2_cons_inv_l in HF as (b1 & rest & [_ H1] & HF & ->).
  apply Forall2_cons_inv_l in HF as (b2 & rest' & [H2 _] & _ & ->).
  split.
  - rewrite (H1 "W24"); [reflexivity|vm_compute; reflexivity..].
  - rewrite H2; [reflexivity|vm_compute; reflexivity].
Defined.

Lemma getBatch_strips_marker_witness :
  getBatch MorePages.badges = Ok (Str "W24").
Proof.
  apply (proj2 (getBatch_strips_marker MorePages.badges) "W24").
  - vm_compute. discriminate.
  - vm_compute. reflexivity.
  - vm_compute. reflexivity.
Defined.

(** On [MorePages.twitter_twice] the second Twitter link is the one
    kept. *)
Lemma getCompanySocials_last_wins_witness :
  ∃ socials,
    getCompanySocials MorePages.twitter_twice = Ok socials
    ∧ socials !! "twitter" = Some (Str "https://twitter.com/acme_hq")
    ∧ socials !! "__proto__" = None.
Proof.
  apply (getCompanySocials_last_wins MorePages.twitter_twice
           [[0; 0; 0; 1]] [1; 0; 0; 1] []).
  - vm_compute. reflexivity.
  - vm_compute. discriminate.
  - intros x Hx. apply elem_of_nil in Hx. destruct Hx.
Defined.

Lemma founder_of_card_fields_witness :
  MorePages.ada !! "imageUrl" = Some (Str "https://img.example/ada.png")
  ∧ MorePages.ada !! "linkedin"
    = Some (Str "https://www.linkedin.com/in/ada")
  ∧ MorePages.ada !! "name" = Some (Str "Ada").
Proof.
  destruct (founder_of_card_fields MorePages.founder_card [[0; 1]] null
              MorePages.ada) with (links := [[2; 0; 1]])
    as (Himage & Hlink & _ & Hname & _).
  - vm_compute. reflexivity.
  - vm_compute. reflexivity.
  - split; [exact Himage|]. split.
    + apply (Hlink [] [2; 0; 1] []);
        [reflexivity|vm_compute; discriminate|].
      intros x Hx. apply elem_of_nil in Hx. destruct Hx.
    + apply Hname. intros x Hx. apply list_elem_of_singleton in Hx.
      rewrite Hx. vm_compute. discriminate.
Defined.

(** The counter of [MorePages.voted] reads " 17 ". *)
Lemma scrapeLaunchPage_votes_witness :
  votes MorePages.voted_page = Num (Int 17).
Proof.
  destruct (@scrapeLaunchPage_votes (Ref.runtime MorePages.web [])
              "https://example.com/launches/voted" MorePages.voted_page)
    as (doc & counter & Hdoc & Hcounter & _ & _ & Hvotes).
  - vm_compute. reflexivity.
  - vm_compute in Hdoc. injection Hdoc as <-.
    destruct (Hvotes "" "17" "") as [_ Hv].
    + by constructor.
    + reflexivity.
    + discriminate.
    + reflexivity.
    + rewrite Hcounter. vm_compute. reflexivity.
    + apply Hv. vm_compute. reflexivity.
Defined.

Lemma scrapeLaunchPage_shape_witness :
  ∃ doc fragments,
    @axios_get (Ref.runtime MediaPages.web [])
      "https://example.com/launches/media" = Ok doc
    ∧ post MediaPages.launch_page = join " " fragments
    ∧ length fragments = length (children doc (query doc Sel.launchBody))
    ∧ NoDup (sources MediaPages.launch_page)
    ∧ length (sources MediaPages.launch_page)
      ≤ length (children doc (query doc Sel.launchBody)).
Proof.
  apply (@scrapeLaunchPage_shape (Ref.runtime MediaPages.web [])
           "https://example.com/launches/media" MediaPages.launch_page).
  vm_compute. reflexivity.
Defined.

(** The launch page of the second post of [LaunchPages.company] is not
    served: no record of the company is made. *)
Lemma launch_fetch_failure_fails_handler_witness :
  (∃ e', @getAllLaunchPosts (Ref.runtime [] []) LaunchPages.company
           "https://example.com" = Throw e')
  ∧ ∃ e', @requestHandler (Ref.runtime [] []) LaunchPages.company
            "https://example.com/companies/acme" [] = Throw e'.
Proof.
  apply (@launch_fetch_failure_fails_handler (Ref.runtime [] [])
           LaunchPages.company "https://example.com/companies/acme"
           "https://example.com" [1; 1] "https://example.com/launches/xyz"
           NetworkError []).
  - vm_compute. reflexivity.
  - apply list_elem_of_In. vm_compute. right. left. reflexivity.
  - vm_compute. discriminate.
  - vm_compute. discriminate.
  - vm_compute. reflexivity.
  - vm_compute. reflexivity.
  - vm_compute. discriminate.
  - vm_compute. reflexivity.
Defined.

(** Of the two companies only Acme has a page that is served: the
    crawler of [Ref.runtime] makes one call, and one record is returned. *)
Lemma scrapeCompanyPages_records_witness :
  ∃ scraped calls,
    @scrapeCompanyPages (Ref.runtime CsvFiles.web [])
      [CsvFiles.acme; CsvFiles.bolt] = Ok scraped
    ∧ @crawler_calls (Ref.runtime CsvFiles.web [])
        (List.map ycUrl [CsvFiles.acme; CsvFiles.bolt]) = Ok calls
    ∧ scraped = omap (@record_of (Ref.runtime CsvFiles.web [])) calls
    ∧ length scraped ≤ length calls
    ∧ ∀ record, record ∈ scraped →
        ∃ call, call ∈ calls
                ∧ @record_of (Ref.runtime CsvFiles.web []) call = Some record
                ∧ st_ycUrl record = call.1.
Proof.
  destruct (@scrapeCompanyPages (Ref.runtime CsvFiles.web [])
              [CsvFiles.acme; CsvFiles.bolt]) as [scraped|e] eqn:Hs;
    [|vm_compute in Hs; discriminate].
  destruct (@scrapeCompanyPages_records (Ref.runtime CsvFiles.web []) _ _ Hs)
    as (calls & Hcalls).
  exists scraped, calls. split; [reflexivity|exact Hcalls].
Defined.

(** The error of the malformed row is logged, and so is the count at the
    end of the well-formed file. *)
Lemma parseCompanyList_settles_witness :
  console_error CsvFiles.mismatch
  ∈ console (@run_stream (Ref.runtime [] CsvFiles.files)
       (@parseFile (Ref.runtime [] CsvFiles.files) "malformed.csv"))
  ∧ console_log "Parsed 2 companies"
    ∈ console (@run_stream (Ref.runtime [] CsvFiles.files)
         (@parseFile (Ref.runtime [] CsvFiles.files) "companies.csv")).
Proof.
  split.
  - apply (proj1 (proj2 (@parseCompanyList_settles
                           (Ref.runtime [] CsvFiles.files) "malformed.csv"))
             [data CsvFiles.row1] CsvFiles.mismatch []).
    vm_compute. reflexivity.
  - apply (proj2 (proj2 (@parseCompanyList_settles
                           (Ref.runtime [] CsvFiles.files) "companies.csv"))
             [data CsvFiles.row1; data CsvFiles.row2] []).
    vm_compute. reflexivity.
Defined.

Lemma company_of_columns_witness :
  ycUrl (@company_of (Ref.runtime [] []) CsvFiles.row1)
  = Str "https://example.com/companies/acme"
  ∧ ycUrl (@company_of (Ref.runtime [] []) [("Name", "Acme")]) = undefined.
Proof.
  split.
  - apply (proj2 (proj2 (@company_of_columns (Ref.runtime [] [])
                           CsvFiles.row1))
             [("Company Name", "Acme")] "YC URL"
             "https://example.com/companies/acme" []).
    + reflexivity.
    + intros header' cell' Hx. apply elem_of_nil in Hx. destruct Hx.
    + vm_compute. reflexivity.
  - apply (proj1 (@company_of_columns (Ref.runtime [] [])
                    [("Name", "Acme")])).
    intros header cell Hx. apply list_elem_of_singleton in Hx.
    injection Hx as -> _. vm_compute. discriminate.
Defined.

Lemma processCompanyList_outcome_witness :
  @processCompanyList (Ref.runtime CsvFiles.web CsvFiles.files)
    "malformed.csv" true true
  = Fails (parse_failed CsvFiles.mismatch)
  ∧ ∃ scrapedData rows after calls,
      @processCompanyList (Ref.runtime CsvFiles.web CsvFiles.files)
        "companies.csv" true true = Written scrapedData
      ∧ @parseFile (Ref.runtime CsvFiles.web CsvFiles.files) "companies.csv"
        = List.map data rows ++ end_ :: after
      ∧ @crawler_calls (Ref.runtime CsvFiles.web CsvFiles.files)
          (List.map (fun row =>
                       ycUrl (@company_of
                                (Ref.runtime CsvFiles.web CsvFiles.files)
                                row)) rows)
        = Ok calls
      ∧ scrapedData
        = omap (@record_of (Ref.runtime CsvFiles.web CsvFiles.files)) calls.
Proof.
  split.
  - apply (proj2 (@processCompanyList_outcome
                    (Ref.runtime CsvFiles.web CsvFiles.files)
                    "malformed.csv" true true)
             [CsvFiles.row1] CsvFiles.mismatch []).
    vm_compute. reflexivity.
  - destruct (@processCompanyList (Ref.runtime CsvFiles.web CsvFiles.files)
                "companies.csv" true true) as [|f|scrapedData] eqn:Hp;
      [vm_compute in Hp; discriminate..|].
    destruct (proj1 (@processCompanyList_outcome
                       (Ref.runtime CsvFiles.web CsvFiles.files)
                       "companies.csv" true true) scrapedData Hp)
      as (rows & after & calls & Hrows & _ & _ & Hcalls & Hdata).
    exists scrapedData, rows, after, calls.
    split; [reflexivity|]. split; [exact Hrows|]. split; assumption.
Defined.

Section CartExamples.

Import Shop ShopFacts Carts.

(** The input is normalized before it is checked, and a fourth domain is
    refused. *)
Lemma handleErrors_accepts_witness :
  handleErrors 3 [] " Example.COM " = inr "example.com"
  ∧ ∃ t, handleErrors 3 three "example.com" = inl t.
Proof.
  split.
  - apply (proj1 (handleErrors_accepts 3 [] " Example.COM ") "example.com").
    split; [vm_compute; reflexivity|]. split; [cbn; lia|].
    split; [|vm_compute; reflexivity].
    intros Hin. apply elem_of_nil in Hin. destruct Hin.
  - apply (proj2 (handleErrors_accepts 3 three "example.com")).
    left. cbn. lia.
Defined.

Lemma three_valid : Forall (fun item => valid_name (domain item)) three.
Proof. repeat constructor; vm_compute; reflexivity. Defined.

(** Of [three], the two .com names are kept, the shorter first. *)
Lemma keepBestDomains_keeps_best_witness :
  ∃ sortedDomains,
    keepBestDomains three 2
    = (take 2 sortedDomains, sortedDomains, None)
    ∧ sortedDomains ≡ₚ three
    ∧ ordered sortedDomains
    ∧ length (take 2 sortedDomains) = 2 `min` length three
    ∧ ∀ kept dropped,
        kept ∈ take 2 sortedDomains → dropped ∈ drop 2 sortedDomains →
        at_least_as_good kept dropped.
Proof.
  apply (keepBestDomains_keeps_best three 2 three_valid).
  discriminate.
Defined.

(** A cart of one available domain is purchased. *)
Lemma purchaseDomains_never_too_many_witness :
  cart (purchaseDomains 1 (run_events 1 1 (add "a.com" true))) = [].
Proof.
  rewrite (proj1 (purchaseDomains_never_too_many 1 1 (add "a.com" true))).
  - reflexivity.
  - split; [vm_compute; discriminate|].
    vm_compute. repeat constructor; discriminate.
Defined.

(** The first domain of [three] cannot be renamed while the cart is full,
    and can when there is room for a fourth. *)
Lemma handleEdit_outcome_witness :
  (∃ t, handleEdit 3 0 (item " C.App " AVAILABLE) shopping
        = notify t shopping ∧ kind t = "error")
  ∧ cart (handleEdit 4 0 (item " C.App " AVAILABLE) shopping)
    = [ item "c.app" AVAILABLE; item "aa.com" TAKEN;
        item "b.com" AVAILABLE ].
Proof.
  split.
  - apply (proj2 (handleEdit_outcome 3 0 (item " C.App " AVAILABLE) shopping
                    (item "long-name.xyz" AVAILABLE) eq_refl
                    "c.app" eq_refl)).
    left. cbn. lia.
  - rewrite (proj1 (handleEdit_outcome 4 0 (item " C.App " AVAILABLE)
                      shopping (item "long-name.xyz" AVAILABLE) eq_refl
                      "c.app" eq_refl)).
    + reflexivity.
    + split; [cbn; lia|]. split; [|vm_compute; reflexivity].
      intros Hin. apply list_elem_of_In in Hin. vm_compute in Hin.
      destruct Hin as [Hin|[Hin|[Hin|[]]]]; discriminate Hin.
Defined.

(** "a.com" is removed, and the cart cleared, while "b.xyz" is checked:
    when the check resolves, "a.com" is back. *)
Lemma addToCart_overwrites_witness :
  cart (run_events 3 2
          ((add "a.com" true ++ [Type_ "b.xyz"; Add])
           ++ [Remove "a.com"; Clear] ++ [Availability false]))
  = [item "a.com" AVAILABLE; item "b.xyz" TAKEN].
Proof.
  destruct (addToCart_overwrites 3 2
              (add "a.com" true ++ [Type_ "b.xyz"; Add])
              [Remove "a.com"; Clear] "b.xyz" false)
    as (c & Hcart & _ & Hc).
  - vm_compute. reflexivity.
  - repeat constructor.
  - rewrite Hcart, Hc.
    + vm_compute. reflexivity.
    + intros Hin. apply list_elem_of_In in Hin. cbn in Hin.
      destruct Hin as [Hin|[Hin|[]]]; discriminate Hin.
Defined.

Lemma add_then_remove_witness :
  cart (run_events 3 2
          (add "a.com" true
           ++ [Type_ " B.xyz"; Add; Availability false; Remove "b.xyz"]))
  = cart (run_events 3 2 (add "a.com" true)).
Proof.
  apply (add_then_remove 3 2 (add "a.com" true) " B.xyz" "b.xyz" false).
  - vm_compute. reflexivity.
  - vm_compute. reflexivity.
Defined.

(** With one available and one taken domain in the cart, removing the
    unavailable ones and purchasing empties the cart. *)
Lemma remove_unavailable_then_purchase_witness :
  cart (purchaseDomains 3
          (removeUnavailableDomains
             (run_events 3 2 (add "a.com" true ++ add "b.xyz" false))))
  = [].
Proof.
  apply (remove_unavailable_then_purchase 3 2
           (add "a.com" true ++ add "b.xyz" false)).
  vm_compute. apply Exists_cons_hd. reflexivity.
Defined.

End CartExamples.
